(** * brainrender.atlases.aba: the Allen Brain Atlas adapter

    A shallow embedding of the argument-normalisation and coordinate
    routines of [brainrender/atlases/aba.py] (class [ABA]), and the
    properties of them that the specification states.

    Conventions of the embedding.
    - A Python number that is a coordinate, an opacity or a size is given
      by its value, a rational ([Q]): a Python [int], or a [float] that is
      finite.  The arithmetic on coordinates (the division by the
      resolution, the subtractions about the midline) is that of float64:
      the operands are converted to float64 and the exact result is rounded
      to the nearest float64, ties to even ([fl]).  A result of magnitude
      [2^1024] or more stands for the infinity of its sign; NaN and
      infinities as arguments are outside the model.  Opacities are only
      compared and passed on; radii and colour components are kept as
      exact products and quotients.
    - A Python exception is a value [Raise e] of the [result] monad.
    - [self] is a record holding the class constants and the data that
      [__init__] obtains from the Allen SDK.
    - Objects that the code only passes around (vtkplotter meshes, morphapi
      neurons) are handles; the colour of a mesh, which [get_neurons] sets
      in place, is kept in a map from the handles.
    - A dict given by the caller is a finite map; the keys that [pop]
      removes from it are not recorded, so that a dict object which occurs
      twice in one argument is read as two dicts. *)

From Stdlib Require Import QArith Qround Qabs Qpower ZArith Lia Lqa.
From stdpp Require Import gmap strings list.

#[local] Set Warnings "-register-all".
#[local] Open Scope Z_scope.

(** ** Exceptions *)

Inductive exn :=
| ValueError
| AttributeError
| NameError
| IndexError
| KeyError
| TypeError
| NotImplementedError.

Inductive result (A : Type) :=
| Ok (a : A)
| Raise (e : exn).

Arguments Ok {A} a.
Arguments Raise {A} e.

#[global] Instance exn_eq_dec : EqDecision exn.
Proof. solve_decision. Defined.

#[global] Instance result_ret : MRet result := fun _ a => Ok a.
#[global] Instance result_bind : MBind result := fun _ _ f m =>
  match m with
  | Ok a => f a
  | Raise e => Raise e
  end.
#[global] Instance result_fmap : FMap result := fun _ _ f m =>
  match m with
  | Ok a => Ok (f a)
  | Raise e => Raise e
  end.

(** [raises m]: the computation ends in an exception. *)
Definition raises {A} (m : result A) : Prop := ∃ e, m = Raise e.

(** [l[i]] for a non-negative literal index. *)
Definition getitem {A} (l : list A) (i : nat) : result A :=
  match l !! i with
  | Some x => Ok x
  | None => Raise IndexError
  end.

(** ** numpy *)

Definition Qltb (a b : Q) : bool :=
  match (a ?= b)%Q with
  | Lt => true
  | _ => false
  end.

(** The integer nearest to [x], a value half way between two integers
    going to the even one. *)
Definition round_half_even (x : Q) : Z :=
  let f := Qfloor x in
  match (x - inject_Z f ?= 1 # 2)%Q with
  | Lt => f
  | Gt => f + 1
  | Eq => if Z.even f then f else f + 1
  end.

(** *** float64 *)

(** [floor (log2 |x|)], for [x] other than zero. *)
Definition ilog2 (x : Q) : Z :=
  let k := Z.log2 (Z.abs (Qnum x)) - Z.log2 (Z.pos (Qden x)) in
  if Qle_bool (2 ^ k) (Qabs x) then k else k - 1.

(** The exponent of the last of the 53 bits of the float64 numbers of the
    magnitude of [x]; it is not below that of the subnormal numbers. *)
Definition fexp (x : Q) : Z := Z.max (ilog2 x - 52) (-1074).

(** The float64 nearest to [x], ties to even. *)
Definition fl (x : Q) : Q :=
  (inject_Z (round_half_even (x / 2 ^ fexp x)) * 2 ^ fexp x)%Q.

(** [x] is a finite float64. *)
Definition is_double (x : Q) : Prop := (fl x == x)%Q ∧ (Qabs x < 2 ^ 1024)%Q.

(** [a - b] and [a / b] where one operand is a float64: both are converted
    to float64 and the exact result is rounded. *)
Definition float_sub (a b : Q) : Q := fl (fl a - fl b).

Definition float_div (a b : Q) : Q := fl (fl a / fl b).

(** [np.mean] of a list of numbers whose sum and mean are float64 numbers,
    as are those of the class constants below. *)
Definition np_mean (l : list Q) : Q :=
  (foldr Qplus 0 l / inject_Z (Z.of_nat (length l)))%Q.

(** [np.round(x)] of a float64 [x]: the nearest integer, a value half way
    between two integers going to the even one. *)
Definition np_round (x : Q) : Z := round_half_even x.

(** The least int64. *)
Definition INT64_MIN : Z := - 2 ^ 63.

(** [x.astype(int)] of a float64 [x] that is an integer: the same integer
    as an int64, and [INT64_MIN] where int64 does not hold it, which is
    what the conversion of numpy gives on x86-64, for the infinities and
    NaN too. *)
Definition astype_int (v : Z) : Z :=
  if decide (- 2 ^ 63 ≤ v < 2 ^ 63) then v else INT64_MIN.

(** The float64 [q] is within the range of int64. *)
Definition fits_int64 (q : Q) : Prop := (- 2 ^ 63 <= q)%Q ∧ (q <= 2 ^ 63 - 1)%Q.

(** One axis of [a[i, j, k]]: an index [i] with [-d <= i < d] is valid for
    an axis of size [d], a negative one counting from the end; any other
    raises [IndexError]. *)
Definition np_axis {A} (l : list A) (i : Z) : result A :=
  let d := Z.of_nat (length l) in
  if decide (0 ≤ i < d) then getitem l (Z.to_nat i)
  else if decide (- d ≤ i < 0) then getitem l (Z.to_nat (i + d))
  else Raise IndexError.

(** A three-dimensional array, as nested rows. *)
Definition ndarray3 := list (list (list Z)).

Definition np_getitem3 (a : ndarray3) (i j k : Z) : result Z :=
  plane ← np_axis a i;
  row ← np_axis plane j;
  np_axis row k.

(** ** The atlas object *)

(** An entry of the Allen structure tree. *)
Record structure := {
  acronym : string;
  id : Z;
  rgb_triplet : list Z;
}.

(** The fields of [self] that the methods below read.
    - [get_structures_by_id i] is
      [self.structure_tree.get_structures_by_id([i])[0]], which the SDK
      answers with [None] for an id it does not know;
    - [get_structures_by_acronym a] is
      [self.structure_tree.get_structures_by_acronym([a])[0]];
    - [structures_id] is [self.structures.id.values];
    - [get_tree i] is the rows of
      [self.tree_search.get_tree('Structure', i, ancestors=True, descendants=False)];
    - [region_acronyms] is [None] when the atlas has no regions data. *)
Record ABA := {
  resolution : Q;
  _root_midpoint : list Q;
  annotated_volume : ndarray3;
  get_structures_by_id : Z → option structure;
  get_structures_by_acronym : string → result structure;
  structures_id : list Z;
  get_tree : Z → result (list structure);
  region_acronyms : option (list string);
}.

(** The class attributes [ABA._root_bounds] and [ABA._root_midpoint]. *)
Definition ABA_root_bounds : list (list Q) :=
  [[-17; 13193]; [134; 7564]; [486; 10891]]%Q.

Definition ABA_root_midpoint : list Q :=
  [np_mean [-17; 13193]; np_mean [134; 7564]; np_mean [486; 10891]]%Q.

(** The class attributes of [ABA], around the data of one instance. *)
Definition ABA_init (vol : ndarray3) (by_id : Z → option structure)
    (by_acronym : string → result structure) (ids : list Z)
    (tree : Z → result (list structure)) (acronyms : option (list string)) : ABA := {|
  resolution := 25;
  _root_midpoint := ABA_root_midpoint;
  annotated_volume := vol;
  get_structures_by_id := by_id;
  get_structures_by_acronym := by_acronym;
  structures_id := ids;
  get_tree := tree;
  region_acronyms := acronyms;
|}.

(** ** Utils *)

Definition get_hemisphere_from_point (self : ABA) (point : list Q) : result string :=
  z ← getitem point 2;
  m ← getitem (_root_midpoint self) 2;
  mret (if Qltb z m then "left" else "right").

Definition get_hemispere_from_point (self : ABA) (p0 : list Q) : result string :=
  z ← getitem p0 2;
  m ← getitem (_root_midpoint self) 2;
  mret (if Qltb m z then "right" else "left").

(** The list [point] is updated in place and returned.  The midline is
    a float64 ([np.mean]), so that both subtractions are those of
    float64. *)
Definition mirror_point_across_hemispheres (self : ABA) (point : list Q)
  : result (list Q) :=
  z ← getitem point 2;
  m ← getitem (_root_midpoint self) 2;
  let delta := float_sub z m in
  m' ← getitem (_root_midpoint self) 2;
  mret (<[2%nat := float_sub m' delta]> point).

(** One element of [np.round(np.array(p0) / self.resolution).astype(int)].
    The division is that of float64; by zero it gives an infinity or NaN,
    which the conversion turns into [INT64_MIN]. *)
Definition voxel_index (resolution c : Q) : Z :=
  if Qeq_bool (fl resolution) 0 then INT64_MIN
  else astype_int (np_round (float_div c resolution)).

(** [np.round(np.array(p0) / self.resolution).astype(int)] *)
Definition voxel_of_point (self : ABA) (p0 : list Q) : list Z :=
  voxel_index (resolution self) <$> p0.

(** What [get_structure_from_coordinates] hands back when it is not [None]. *)
Inductive region :=
| Acronym (a : string)
| Structure (s : structure).

(** The body of the [try]: [self.annotated_volume[voxel[0], voxel[1], voxel[2]]]. *)
Definition lookup_voxel (self : ABA) (voxel : list Z) : result Z :=
  i ← getitem voxel 0;
  j ← getitem voxel 1;
  k ← getitem voxel 2;
  np_getitem3 (annotated_volume self) i j k.

Definition get_structure_from_coordinates (self : ABA) (p0 : list Q)
    (just_acronym : bool) : option region :=
  let voxel := voxel_of_point self p0 in
  match lookup_voxel self voxel with
  | Raise _ => None
  | Ok structure_id =>
      match get_structures_by_id self structure_id with
      | Some s => if just_acronym then Some (Acronym (acronym s)) else Some (Structure s)
      | None => None
      end
  end.

(** ** Python values

    The values met as [neurons], [color] and [colors] arguments.  A
    vtkplotter mesh ([Actor]) and a morphapi [Neuron] are references. *)

Definition actor := positive.

Inductive pyval :=
| PNone
| PBool (b : bool)
| PInt (z : Z)
| PFloat (q : Q)
| PStr (s : string)
| PList (l : list pyval)
| PTuple (l : list pyval)
| PDict (d : gmap string pyval)
| PActor (a : actor)
| PNeuron (n : positive)
| PObject (cls : string).

Arguments PActor a%_positive.
Arguments PNeuron n%_positive.

Inductive pytype :=
| TNoneType | TBool | TInt | TFloat | TStr | TList | TTuple | TDict
| TActor | TNeuron | TObject (cls : string).

#[global] Instance pytype_eq_dec : EqDecision pytype.
Proof. solve_decision. Defined.

(** [type(v)] *)
Definition type_of (v : pyval) : pytype :=
  match v with
  | PNone => TNoneType
  | PBool _ => TBool
  | PInt _ => TInt
  | PFloat _ => TFloat
  | PStr _ => TStr
  | PList _ => TList
  | PTuple _ => TTuple
  | PDict _ => TDict
  | PActor _ => TActor
  | PNeuron _ => TNeuron
  | PObject cls => TObject cls
  end.

(** [v is None] *)
Definition is_none (v : pyval) : bool :=
  match v with
  | PNone => true
  | _ => false
  end.

(** [len(v)] *)
Definition py_len (v : pyval) : result nat :=
  match v with
  | PStr s => Ok (String.length s)
  | PList l | PTuple l => Ok (length l)
  | PDict d => Ok (size d)
  | _ => Raise TypeError
  end.

(** [v.copy()] *)
Definition py_copy (v : pyval) : result pyval :=
  match v with
  | PList l => Ok (PList l)
  | PDict d => Ok (PDict d)
  | _ => Raise AttributeError
  end.

(** [v[n]] for an integer [n >= 0] *)
Definition py_getitem (v : pyval) (n : nat) : result pyval :=
  match v with
  | PList l | PTuple l => getitem l n
  | PStr s =>
      match String.get n s with
      | Some c => Ok (PStr (String c EmptyString))
      | None => Raise IndexError
      end
  | PDict _ => Raise KeyError
  | _ => Raise TypeError
  end.

(** [v[k]] for a string [k] *)
Definition py_getkey (v : pyval) (k : string) : result pyval :=
  match v with
  | PDict d =>
      match d !! k with
      | Some x => Ok x
      | None => Raise KeyError
      end
  | _ => Raise TypeError
  end.

(** [k in v.keys()] *)
Definition py_in_keys (k : string) (v : pyval) : result bool :=
  match v with
  | PDict d => Ok (bool_decide (is_Some (d !! k)))
  | _ => Raise AttributeError
  end.

(** [v.pop(k, dflt)]: the value that is returned. *)
Definition py_pop (v : pyval) (k : string) (dflt : pyval) : result pyval :=
  match v with
  | PDict d => Ok (default dflt (d !! k))
  | _ => Raise AttributeError
  end.

(** [s.endswith(suffix)] *)
Definition endswith (s suffix : string) : bool :=
  let n := String.length s in
  let k := String.length suffix in
  if (k <=? n)%nat then String.eqb (String.substring (n - k) k s) suffix else false.

(** [for x in l: f(x)], collecting the results; the first exception ends
    the loop. *)
Fixpoint for_each {A B} (f : A → result B) (l : list A) : result (list B) :=
  match l with
  | [] => Ok []
  | x :: l' => y ← f x; ys ← for_each f l'; mret (y :: ys)
  end.

(** The three named parts of a neuron: the dict
    [{'soma': .., 'dendrites': .., 'axon': ..}] of actors, and the dict
    [colors] of the colours for them. *)
Record parts := {
  soma : pyval;
  axon : pyval;
  dendrites : pyval;
}.

(** Iterating over the dict [colors] yields its keys. *)
Definition parts_keys : list pyval := [PStr "soma"; PStr "axon"; PStr "dendrites"].

(** The source of a morphology handed to [get_neuron_actors_with_morphapi]. *)
Inductive morph_source :=
| Swcfile (file : string) (neurite_radius : pyval)
| NeuronObject (n : positive).

(** A sphere or a tube of [vtkplotter.shapes], by its arguments. *)
Inductive shape :=
| Sphere (pos : list Q) (c : pyval) (r : Q) (alpha : Q)
| Tube (points : list (list Q)) (r : Q) (c : pyval) (alpha : Q) (res : Z).

(** ** Imported names

    Functions and constants of other modules that the methods call:
    [get_random_colors], [_mapscales_cmaps], [colorMap], [getColor] and
    [check_colors] of [brainrender.colors] (the random choice of
    [get_random_colors] is a function of the number of colours here);
    [os.path.isfile]; [get_neuron_actors_with_morphapi] of
    [brainrender.morphology.utils], which returns the dict of the actors;
    [merge] of [vtkplotter]; [is_any_item_in_list] of
    [brainrender.Utils.data_manipulation]; and the constants of
    [brainrender]. *)
Class Imports := {
  get_random_colors : nat → result pyval;
  _mapscales_cmaps : list string;
  colorMap : nat → string → Z → Z → result pyval;
  getColor : string → result pyval;
  check_colors : pyval → bool;
  isfile : string → bool;
  get_neuron_actors_with_morphapi : morph_source → result parts;
  merge : pyval → pyval → result pyval;
  is_any_item_in_list : list string → list string → bool;
  TRACT_DEFAULT_COLOR : pyval;
  TRACTO_ALPHA : Q;
  TRACTO_RADIUS : Q;
  TRACTO_RES : Z;
  INJECTION_VOLUME_SIZE : Q;
}.

(** ** Structure tree interaction *)

(** [get_region_color] of one acronym. *)
Definition get_region_color (self : ABA) (regions : string) : result (list Z) :=
  s ← get_structures_by_acronym self regions;
  mret (rgb_triplet s).

(** [get_structure_ancestors] of one acronym, with the default flags. *)
Definition get_structure_ancestors (self : ABA) (regions : string)
  : result (list structure) :=
  s ← get_structures_by_acronym self regions;
  get_tree self (id s).

(** [get_structure_parent] of one acronym; [.iloc[-1]] is the last row. *)
Definition get_structure_parent (self : ABA) (acronyms : string) : result structure :=
  s ← get_structures_by_acronym self acronyms;
  if decide (id s ∈ structures_id self) then mret s
  else
    rows ← get_structure_ancestors self (acronym s);
    match last rows with
    | Some r => mret r
    | None => Raise IndexError
    end.

(** [for x in l: s = f(s, x)], threading the state of the loop. *)
Fixpoint for_fold {A St} (f : St → A → result St) (l : list A) (s : St) : result St :=
  match l with
  | [] => Ok s
  | x :: l' => s' ← f s x; for_fold f l' s'
  end.

(** [for i, x in enumerate(l)], counting from [i]. *)
Fixpoint for_enumerate {A St} (f : St → nat → A → result St) (i : nat) (l : list A)
    (s : St) : result St :=
  match l with
  | [] => Ok s
  | x :: l' => s' ← f s i x; for_enumerate f (S i) l' s'
  end.

(** ** get_neurons *)

(** The colour that each actor carries, set by its method [c]. *)
Abbreviation actor_colors := (gmap actor pyval).

(** A value returned by [get_neurons]: [None], the dict of the actors of
    one neuron, the list [_neurons_actors], or a tuple of two values. *)
Inductive returned :=
| RNone
| RNeuron (r : parts)
| RNeurons (l : list parts)
| RTuple (a b : returned).

Section Neurons.
Context `{Imports}.

(** [dict(soma = cols.copy(), axon = cols.copy(), dendrites = cols.copy())] *)
Definition copies (cols : pyval) : result parts :=
  s ← py_copy cols;
  a ← py_copy cols;
  d ← py_copy cols;
  mret {| soma := s; axon := a; dendrites := d |}.

(** The body of the loop over a list of dictionaries; the state is
    [(soma_colors, dendrites_colors, axon_colors)]. *)
Definition dict_colors_step (acc : list pyval * list pyval * list pyval)
    (col : pyval) : result (list pyval * list pyval * list pyval) :=
  let '(soma_colors, dendrites_colors, axon_colors) := acc in
  has_soma ← py_in_keys "soma" col;
  if negb has_soma then Raise ValueError
  else
    s ← py_getkey col "soma";
    d ← py_pop col "dendrites" s;
    s ← py_getkey col "soma";
    a ← py_pop col "axon" s;
    s ← py_getkey col "soma";
    mret (soma_colors ++ [s], dendrites_colors ++ [d], axon_colors ++ [a]).

(** [if len(v) != N: raise ValueError] *)
Definition check_len (N : nat) (v : pyval) : result () :=
  n ← py_len v;
  if decide (n ≠ N) then Raise ValueError else mret ().

(** "Prepare colors": the dict [colors] for [N] neurons. *)
Definition prepare_colors (N : nat) (color : pyval) : result parts :=
  let colors := {| soma := PNone; axon := PNone; dendrites := PNone |} in
  colors ←
    match color with
    | PNone =>
        cols ← get_random_colors N;
        copies cols
    | PStr c =>
        if decide (c ∈ _mapscales_cmaps) then
          cols ← for_each (λ n, colorMap n c (-2) (Z.of_nat N + 2)) (seq 0 N);
          copies (PList cols)
        else
          cols ← for_each (λ _, getColor c) (seq 0 N);
          copies (PList cols)
    | PDict _ =>
        has_soma ← py_in_keys "soma" color;
        if negb has_soma then Raise ValueError
        else
          s ← py_getkey color "soma";
          dendrites_color ← py_pop color "dendrites" s;
          s ← py_getkey color "soma";
          axon_color ← py_pop color "axon" s;
          s ← py_getkey color "soma";
          mret {| soma := PList (replicate N s);
                  axon := PList (replicate N axon_color);
                  dendrites := PList (replicate N dendrites_color) |}
    | PList l | PTuple l =>
        if decide (length l ≠ N) then Raise ValueError
        else if decide (1 < length (remove_dups (type_of <$> l)))%nat then Raise ValueError
        else
          c0 ← py_getitem color 0;
          match c0 with
          | PDict _ =>
              (* for col in colors: *)
              '(soma_colors, dendrites_colors, axon_colors) ←
                for_fold dict_colors_step parts_keys ([], [], []);
              mret {| soma := PList soma_colors;
                      axon := PList axon_colors;
                      dendrites := PList dendrites_colors |}
          | _ => copies color
          end
    | _ => Raise ValueError
    end;
  _ ← check_len N (soma colors);
  _ ← check_len N (axon colors);
  _ ← check_len N (dendrites colors);
  mret colors.

(** The dendrites of a neuron given as a dictionary [d] of actors. *)
Definition dict_dendrites (neuron : pyval) : result pyval :=
  has_apical ← py_in_keys "apical_dendrites" neuron;
  has_basal ← py_in_keys "basal_dendrites" neuron;
  if has_apical || has_basal then
    if negb has_apical then py_getkey neuron "basal_dendrites"
    else if negb has_basal then py_getkey neuron "apical_dendrites"
    else
      ap ← py_getkey neuron "apical_dendrites";
      ba ← py_getkey neuron "basal_dendrites";
      _ ← merge ap ba;
      (* the result is assigned to [neuron_ctors['dendrites']], a name
         that is not defined *)
      Raise NameError
  else py_pop neuron "dendrites" PNone.

(** The [if]/[elif] chain of the rendering loop: the actors of one neuron. *)
Definition neuron_actors_of (neurite_radius : pyval) (neuron : pyval) : result parts :=
  match neuron with
  | PStr file =>
      if isfile file then
        if endswith file ".swc" then
          get_neuron_actors_with_morphapi (Swcfile file neurite_radius)
        else Raise NotImplementedError
      else Raise ValueError
  | PActor _ => mret {| soma := neuron; axon := PNone; dendrites := PNone |}
  | PDict _ =>
      s ← py_pop neuron "soma" PNone;
      a ← py_pop neuron "axon" PNone;
      d ← dict_dendrites neuron;
      mret {| soma := s; axon := a; dendrites := d |}
  | PNeuron n => get_neuron_actors_with_morphapi (NeuronObject n)
  | _ => Raise ValueError
  end.

(** "Check that we don't have anything weird": the message of the
    [ValueError] reads [act.__type__], which no object has, so it is an
    [AttributeError] that leaves the method. *)
Definition check_actor (act : pyval) : result () :=
  if negb (is_none act) then
    match act with
    | PActor _ => mret ()
    | _ => Raise AttributeError
    end
  else mret ().

(** The body of the rendering loop. *)
Definition render_neuron (display_axon display_dendrites : bool)
    (neurite_radius : pyval) (neuron : pyval) : result parts :=
  neuron_actors ← neuron_actors_of neurite_radius neuron;
  _ ← check_actor (soma neuron_actors);
  _ ← check_actor (dendrites neuron_actors);
  _ ← check_actor (axon neuron_actors);
  let neuron_actors :=
    if negb display_axon
    then {| soma := soma neuron_actors; axon := PNone; dendrites := dendrites neuron_actors |}
    else neuron_actors in
  let neuron_actors :=
    if negb display_dendrites
    then {| soma := soma neuron_actors; axon := axon neuron_actors; dendrites := PNone |}
    else neuron_actors in
  mret neuron_actors.

(** [part.c(col)]: the attribute is looked up before [col] is evaluated. *)
Definition set_color (σ : actor_colors) (part : pyval) (col : result pyval)
  : result actor_colors :=
  match part with
  | PActor a => c ← col; mret (<[a := c]> σ)
  | _ => Raise AttributeError
  end.

(** The body of the loop "Color actors". *)
Definition color_neuron (colors : parts) (σ : actor_colors) (n : nat)
    (neuron : parts) : result actor_colors :=
  σ ← (if negb (is_none (axon neuron))
       then set_color σ (axon neuron) (py_getitem (axon colors) n)
       else mret σ);
  σ ← set_color σ (soma neuron) (py_getitem (soma colors) n);
  if negb (is_none (dendrites neuron))
  then set_color σ (dendrites neuron) (py_getitem (dendrites colors) n)
  else mret σ.

(** [neurons] once it is a list. *)
Definition as_neuron_list (neurons : pyval) : list pyval :=
  match neurons with
  | PList l | PTuple l => l
  | _ => [neurons]
  end.

(** [get_neurons(neurons, color, display_axon, display_dendrites,
    neurite_radius=neurite_radius)]; the argument [alpha] is not read.
    The result is the returned value and the colours of the actors after
    the call. *)
Definition get_neurons (neurons color : pyval)
    (display_axon display_dendrites : bool) (neurite_radius : pyval)
    (σ : actor_colors) : result (returned * actor_colors) :=
  let neurons := as_neuron_list neurons in
  let N := length neurons in
  colors ← prepare_colors N color;
  _neurons_actors ←
    for_each (render_neuron display_axon display_dendrites neurite_radius) neurons;
  σ ← for_enumerate (color_neuron colors) 0 _neurons_actors σ;
  if decide (length _neurons_actors = 1%nat) then
    r ← getitem _neurons_actors 0;
    mret (RTuple (RNeuron r) RNone, σ)
  else if decide (_neurons_actors = []) then mret (RTuple RNone RNone, σ)
  else mret (RTuple (RNeurons _neurons_actors) RNone, σ).

End Neurons.

(** ** get_tractography *)

(** One record of tractography data, a dict of the Allen connectivity API:
    [t['structure-abbrev']], the abbreviations
    [[x['abbreviation'] for x in t['injection-structures']]],
    [t['injection-coordinates']], [t['injection-volume']] and the points
    [[p['coord'] for p in t['path']]]. *)
Record tract := {
  structure_abbrev : string;
  injection_structures : list string;
  injection_coordinates : list Q;
  injection_volume : Q;
  path : list (list Q);
}.

(** An element of the list [tractography]: a dict, or something else. *)
Inductive tract_item :=
| TractDict (t : tract)
| TractOther.

(** The argument [tractography]. *)
Inductive tractography_arg :=
| TractographyList (l : list tract_item)
| TractographyDict (t : tract)
| TractographyOther.

(** The argument [VIP_regions]: a list of acronyms, or not a list. *)
Inductive regions_arg :=
| RegionsList (l : list string)
| RegionsOther.

(** The argument [extract_region_from_inj_coords]: a flag, or a list of
    acronyms. *)
Inductive extract_arg :=
| ExtractBool (b : bool)
| ExtractList (l : list string).

(** Truth value of [extract_region_from_inj_coords]. *)
Definition extract_truthy (e : extract_arg) : bool :=
  match e with
  | ExtractBool b => b
  | ExtractList l => negb (bool_decide (l = []))
  end.

(** [t[...]] on an element of [tractography]. *)
Definition item_tract (it : tract_item) : result tract :=
  match it with
  | TractDict t => Ok t
  | TractOther => Raise TypeError
  end.

(** [region['acronym']] *)
Definition region_acronym (r : region) : result string :=
  match r with
  | Structure s => Ok (acronym s)
  | Acronym _ => Raise TypeError
  end.

(** An [rgb_triplet] as a colour. *)
Definition rgb (c : list Z) : pyval := PList (PInt <$> c).

Section Tractography.
Context `{Imports}.

(** "check argument" *)
Definition check_tractography (tractography : tractography_arg)
  : result (list tract_item) :=
  match tractography with
  | TractographyList l =>
      t0 ← getitem l 0;
      match t0 with
      | TractDict _ => mret l
      | TractOther => Raise ValueError
      end
  | TractographyDict t => mret [TractDict t]
  | TractographyOther => Raise ValueError
  end.

(** [if not check_colors(col): raise ValueError] *)
Definition require_color (col : pyval) : result () :=
  if negb (check_colors col) then Raise ValueError else mret ().

(** "check coloring mode used and prepare a list COLORS" *)
Definition tractography_colors (self : ABA) (tractography : list tract_item)
    (color : pyval) (color_by : string) (VIP_regions : list string)
    (VIP_color others_color : pyval) (include_all_inj_regions : bool)
  : result (list pyval) :=
  if String.eqb color_by "manual" then
    match color with
    | PNone => mret (replicate (length tractography) TRACT_DEFAULT_COLOR)
    | PList l =>
        if negb (bool_decide (length l = length tractography)) then Raise ValueError
        else
          _ ← for_each require_color l;
          mret l
    | _ =>
        if negb (check_colors color) then Raise ValueError
        else mret (replicate (length tractography) color)
    end
  else if String.eqb color_by "region" then
    for_each (λ it,
      t ← item_tract it;
      c ← get_region_color self (structure_abbrev t);
      mret (rgb c)) tractography
  else if String.eqb color_by "target_region" then
    if negb (is_none VIP_color) then
      if negb (check_colors VIP_color) || negb (check_colors others_color)
      then Raise ValueError
      else
        let COLORS :=
          if include_all_inj_regions then
            for_each (λ it,
              t ← item_tract it;
              mret (if is_any_item_in_list (injection_structures t) VIP_regions
                    then VIP_color else others_color)) tractography
          else
            for_each (λ it,
              t ← item_tract it;
              mret (if bool_decide (structure_abbrev t ∈ VIP_regions)
                    then VIP_color else others_color)) tractography in
        match COLORS with
        | Ok cs => Ok cs
        | Raise _ => Raise ValueError
        end
    else
      for_each (λ it,
        t ← item_tract it;
        if bool_decide (structure_abbrev t ∈ VIP_regions) then
          c ← get_region_color self (structure_abbrev t);
          mret (rgb c)
        else mret others_color) tractography
  else Raise ValueError.

(** The opacity of the tube of a record with injection structures
    [inj_structures]. *)
Definition tract_alpha (color_by : string) (others_alpha : Q)
    (VIP_regions inj_structures : list string) : Q :=
  if String.eqb color_by "target_region"
     && negb (is_any_item_in_list inj_structures VIP_regions)
  then others_alpha
  else TRACTO_ALPHA.

(** "Use allen metadata" *)
Definition tract_inj_structures (self : ABA) (include_all_inj_regions : bool)
    (t : tract) : result (list string) :=
  if include_all_inj_regions then mret (injection_structures t)
  else
    p ← get_structure_parent self (structure_abbrev t);
    mret [acronym p].

(** "check if we need to manually check injection coords": [false] when
    the iteration ends with [continue]. *)
Definition check_injection_coords (self : ABA)
    (extract_region_from_inj_coords : extract_arg) (t : tract) : result bool :=
  if extract_truthy extract_region_from_inj_coords then
    match get_structure_from_coordinates self (injection_coordinates t) false with
    | None => mret false
    | Some region =>
        match (a ← region_acronym region; get_structure_parent self a) with
        | Raise _ => Raise ValueError
        | Ok p =>
            let inj_structures := [acronym p] in
            match extract_region_from_inj_coords with
            | ExtractList l => mret (is_any_item_in_list inj_structures l)
            | ExtractBool _ => mret true
            end
        end
    end
  else mret true.

(** The body of the loop over the injection experiments; the state is the
    list [actors].  The lines printed when [verbose] are left out. *)
Definition tract_step (self : ABA) (color_by : string) (others_alpha : Q)
    (VIP_regions : list string) (include_all_inj_regions : bool)
    (extract_region_from_inj_coords : extract_arg)
    (display_injection_volume : bool)
    (actors : list shape) (tc : tract_item * pyval) : result (list shape) :=
  let '(it, color) := tc in
  t ← item_tract it;
  inj_structures ← tract_inj_structures self include_all_inj_regions t;
  let alpha := tract_alpha color_by others_alpha VIP_regions inj_structures in
  if Qeq_bool alpha 0 then mret actors
  else
    keep ← check_injection_coords self extract_region_from_inj_coords t;
    if negb keep then mret actors
    else
      let actors :=
        if display_injection_volume
        then actors ++ [Sphere (injection_coordinates t) color
                          (INJECTION_VOLUME_SIZE * injection_volume t) TRACTO_ALPHA]
        else actors in
      let points := path t in
      mret (actors ++ [Tube points TRACTO_RADIUS color alpha TRACTO_RES]).

Definition get_tractography (self : ABA) (tractography : tractography_arg)
    (color : pyval) (color_by : string) (others_alpha : Q)
    (VIP_regions : regions_arg) (VIP_color others_color : pyval)
    (include_all_inj_regions : bool)
    (extract_region_from_inj_coords : extract_arg)
    (display_injection_volume : bool) : result (list shape) :=
  tractography ← check_tractography tractography;
  VIP_regions ←
    match VIP_regions with
    | RegionsList l => mret l
    | RegionsOther => Raise ValueError
    end;
  COLORS ← tractography_colors self tractography color color_by VIP_regions
              VIP_color others_color include_all_inj_regions;
  for_fold
    (tract_step self color_by others_alpha VIP_regions include_all_inj_regions
       extract_region_from_inj_coords display_injection_volume)
    (zip tractography COLORS) [].

End Tractography.

(** ** get_brain_regions *)

(** [for x in v] *)
Definition py_iter (v : pyval) : result (list pyval) :=
  match v with
  | PList l | PTuple l => Ok l
  | PStr s => Ok ((λ c, PStr (String c EmptyString)) <$> String.list_ascii_of_string s)
  | PDict d => Ok (PStr <$> (map_to_list d).*1)
  | _ => Raise TypeError
  end.

(** How the parsing of the arguments of [get_brain_regions] ends: with
    [return] because the atlas has no regions data, or at the loop over
    [brain_regions], with the list of regions and [colors]. *)
Inductive brain_regions_args :=
| NoRegionsData
| RegionsLoop (brain_regions : list pyval) (colors : pyval).

(** [brain_regions] once it is a list. *)
Definition as_region_list (brain_regions : pyval) : list pyval :=
  match brain_regions with
  | PList l => l
  | _ => [brain_regions]
  end.

Section BrainRegions.
Context `{Imports}.

(** [get_brain_regions] up to the loop over all brain regions: the check
    for regions data, [brain_regions] made a list, and the check of
    [colors].  The defaults of [VIP_regions], [VIP_color] and [alpha],
    which cannot fail, are left out. *)
Definition get_brain_regions_args (self : ABA) (brain_regions colors : pyval)
  : result brain_regions_args :=
  match region_acronyms self with
  | None => mret NoRegionsData
  | Some _ =>
      let brain_regions := as_region_list brain_regions in
      colors ←
        (if negb (is_none colors) then
           c0 ← py_getitem colors 0;
           match c0 with
           | PList _ | PTuple _ =>
               n ← py_len colors;
               if negb (bool_decide (n = length brain_regions)) then Raise ValueError
               else
                 cols ← py_iter colors;
                 _ ← for_each (λ col,
                        if negb (check_colors col) then Raise ValueError
                        else mret ()) cols;
                 mret colors
           | _ =>
               if negb (check_colors colors) then Raise ValueError
               else mret (PList (replicate (length brain_regions) colors))
           end
         else mret colors);
      mret (RegionsLoop brain_regions colors)
  end.

End BrainRegions.

(** ** Data for the examples *)

Module Examples.

(** A choice of the imported names: every colour name is known, and a
    sequence is accepted by [check_colors] when it holds names and
    numbers only. *)
#[export] Instance imports : Imports := {|
  get_random_colors n := Ok (PList (replicate n (PStr "salmon")));
  _mapscales_cmaps := ["viridis"; "jet"];
  colorMap n name vmin vmax := Ok (PTuple [PStr name; PInt (Z.of_nat n)]);
  getColor c := Ok (PStr c);
  check_colors c :=
    match c with
    | PStr _ => true
    | PList l | PTuple l =>
        forallb (λ x, match x with
                      | PStr _ | PInt _ | PFloat _ => true
                      | _ => false
                      end) l
    | _ => false
    end;
  isfile _ := false;
  get_neuron_actors_with_morphapi _ := Raise ValueError;
  merge _ _ := Ok (PActor 99);
  is_any_item_in_list l1 l2 := existsb (λ x, bool_decide (x ∈ l2)) l1;
  TRACT_DEFAULT_COLOR := PStr "salmon";
  TRACTO_ALPHA := 1;
  TRACTO_RADIUS := 1;
  TRACTO_RES := 12;
  INJECTION_VOLUME_SIZE := 120;
|}.

Definition thalamus : structure :=
  {| acronym := "TH"; id := 549; rgb_triplet := [255; 112; 128] |}.

Definition motor : structure :=
  {| acronym := "MOs"; id := 993; rgb_triplet := [31; 157; 90] |}.

Definition by_id (i : Z) : option structure :=
  if decide (i = 549) then Some thalamus
  else if decide (i = 993) then Some motor
  else None.

Definition by_acronym (a : string) : result structure :=
  if decide (a = "TH") then Ok thalamus
  else if decide (a = "MOs") then Ok motor
  else Raise KeyError.

(** A volume of 2 x 2 x 2 voxels; the thalamus fills the plane [1]. *)
Definition volume : ndarray3 :=
  [[[0; 0]; [0; 0]]; [[549; 549]; [549; 549]]].

Definition atlas : ABA :=
  ABA_init volume by_id by_acronym [549; 993] (λ _, Ok []) (Some ["MOs"; "TH"]).

(** The same atlas built without a connection: no regions data. *)
Definition offline : ABA :=
  ABA_init volume by_id by_acronym [549; 993] (λ _, Ok []) None.

(** An atlas whose midline is at 3600. *)
Definition midline_3600 : ABA := {|
  resolution := 25;
  _root_midpoint := [6588; 3849; 3600]%Q;
  annotated_volume := volume;
  get_structures_by_id := by_id;
  get_structures_by_acronym := by_acronym;
  structures_id := [549; 993];
  get_tree := λ _, Ok [];
  region_acronyms := Some ["MOs"; "TH"];
|}.

(** An atlas whose midline is at 4096, a power of two. *)
Definition midline_4096 : ABA := {|
  resolution := 25;
  _root_midpoint := [6588; 3849; 4096]%Q;
  annotated_volume := volume;
  get_structures_by_id := by_id;
  get_structures_by_acronym := by_acronym;
  structures_id := [549; 993];
  get_tree := λ _, Ok [];
  region_acronyms := Some ["MOs"; "TH"];
|}.

Definition experiment : tract := {|
  structure_abbrev := "TH";
  injection_structures := ["TH"];
  injection_coordinates := [40; 10; 10]%Q;
  injection_volume := 1 # 2;
  path := [[40; 10; 10]; [60; 20; 30]]%Q;
|}.

Definition experiment_MOs : tract := {|
  structure_abbrev := "MOs";
  injection_structures := ["MOs"];
  injection_coordinates := [20; 10; 10]%Q;
  injection_volume := 1 # 4;
  path := [[20; 10; 10]; [60; 20; 30]]%Q;
|}.

(** Neurons given as dicts of actors. *)
Definition apical_only : gmap string pyval :=
  {[ "soma" := PActor 1; "apical_dendrites" := PActor 2 ]}.

Definition apical_and_basal : gmap string pyval :=
  {[ "soma" := PActor 1; "apical_dendrites" := PActor 2;
     "basal_dendrites" := PActor 3 ]}.

(** Colours as lists of three components. *)
Definition red : pyval := PList [PInt 1; PInt 0; PInt 0].
Definition green : pyval := PList [PInt 0; PInt 1; PInt 0].
Definition blue : pyval := PList [PInt 0; PInt 0; PInt 1].

End Examples.

(** ** Predicates of the statements *)

(** The part [part] is an actor that carries a colour in [σ]. *)
Definition has_color (σ : actor_colors) (part : pyval) : Prop :=
  ∃ a, part = PActor a ∧ is_Some (σ !! a).

(** A normalised record whose parts are coloured: the soma is, and the axon
    and the dendrites are unless absent. *)
Definition colored (σ : actor_colors) (r : parts) : Prop :=
  has_color σ (soma r)
  ∧ (axon r = PNone ∨ has_color σ (axon r))
  ∧ (dendrites r = PNone ∨ has_color σ (dendrites r)).

(** [_neurons_actors[0]], [None] or [_neurons_actors], by the number of
    records. *)
Definition unwrapped (recs : list parts) : returned :=
  match recs with
  | [] => RNone
  | [r] => RNeuron r
  | _ => RNeurons recs
  end.

(** A dictionary of colours of the parts, with the key "soma". *)
Definition is_color_dict (c : pyval) : Prop :=
  ∃ d, c = PDict d ∧ is_Some (d !! "soma").

(** The record of a neuron given as one actor: the actor is its soma. *)
Definition soma_only (a : actor) : parts :=
  {| soma := PActor a; axon := PNone; dendrites := PNone |}.

(** ** Colours from coordinates *)

(** The argument of [get_colors_from_coordinates]: a point, whose first
    element is a number, or a sequence of points. *)
Inductive points_arg :=
| OnePoint (p : list Q)
| ManyPoints (ps : list (list Q)).

(** What [get_colors_from_coordinates] returns: a colour or [None], or a
    list of them. *)
Inductive colors_result :=
| OneColor (c : option (list Z))
| ManyColors (cs : list (option (list Z))).

(** [struct['rgb_triplet']] *)
Definition region_rgb (r : region) : result (list Z) :=
  match r with
  | Structure s => Ok (rgb_triplet s)
  | Acronym _ => Raise TypeError
  end.

(** [struct['rgb_triplet'] if struct is not None else None] *)
Definition struct_color (struct : option region) : result (option (list Z)) :=
  match struct with
  | Some r => c ← region_rgb r; mret (Some c)
  | None => mret None
  end.

Definition get_colors_from_coordinates (self : ABA) (p0 : points_arg)
  : result colors_result :=
  match p0 with
  | OnePoint p =>
      _ ← getitem p 0;
      c ← struct_color (get_structure_from_coordinates self p false);
      mret (OneColor c)
  | ManyPoints ps =>
      _ ← getitem ps 0;
      let structures := (λ p, get_structure_from_coordinates self p false) <$> ps in
      colors ← for_each struct_color structures;
      mret (ManyColors colors)
  end.

(** The array [a] has the shape [(d0, d1, d2)]. *)
Definition has_shape (a : ndarray3) (d0 d1 d2 : nat) : Prop :=
  length a = d0
  ∧ Forall (λ plane, length plane = d1 ∧ Forall (λ row, length row = d2) plane) a.

(** The index [i] is valid for an axis of size [d]. *)
Definition in_axis (d : nat) (i : Z) : Prop := - Z.of_nat d ≤ i < Z.of_nat d.

(** ** Shapes of a tractography record *)

Section TractShapes.
Context `{Imports}.

(** The shapes that a record [t] kept by the loop of [get_tractography]
    adds, for the colour [color] and the opacity [alpha] of its tube: the
    sphere of its injection site if asked for, then the tube of its path. *)
Definition tract_shapes (display_injection_volume : bool) (alpha : Q)
    (t : tract) (color : pyval) : list shape :=
  (if display_injection_volume
   then [Sphere (injection_coordinates t) color
           (INJECTION_VOLUME_SIZE * injection_volume t) TRACTO_ALPHA]
   else [])
  ++ [Tube (path t) TRACTO_RADIUS color alpha TRACTO_RES].

End TractShapes.

(** The colour of a shape. *)
Definition shape_color (s : shape) : pyval :=
  match s with
  | Sphere _ c _ _ => c
  | Tube _ _ c _ _ => c
  end.

(** The injection coordinates of the record have a structure:
    [get_structure_from_coordinates] does not answer [None] for them. *)
Definition located (self : ABA) (it : tract_item) : bool :=
  match it with
  | TractDict t =>
      bool_decide
        (is_Some (get_structure_from_coordinates self (injection_coordinates t) false))
  | TractOther => true
  end.

(** The shape is a tube. *)
Definition is_tube (s : shape) : Prop :=
  match s with
  | Tube _ _ _ _ _ => True
  | Sphere _ _ _ _ => False
  end.

(** ** More data for the examples *)

Module MoreExamples.

(** The imported names of [Examples], with two files on the disk. *)
#[export] Instance imports_with_files : Imports := {|
  get_random_colors := @get_random_colors Examples.imports;
  _mapscales_cmaps := @_mapscales_cmaps Examples.imports;
  colorMap := @colorMap Examples.imports;
  getColor := @getColor Examples.imports;
  check_colors := @check_colors Examples.imports;
  isfile f := String.eqb f "neuron.swc" || String.eqb f "neuron.json";
  get_neuron_actors_with_morphapi := @get_neuron_actors_with_morphapi Examples.imports;
  merge := @merge Examples.imports;
  is_any_item_in_list := @is_any_item_in_list Examples.imports;
  TRACT_DEFAULT_COLOR := @TRACT_DEFAULT_COLOR Examples.imports;
  TRACTO_ALPHA := @TRACTO_ALPHA Examples.imports;
  TRACTO_RADIUS := @TRACTO_RADIUS Examples.imports;
  TRACTO_RES := @TRACTO_RES Examples.imports;
  INJECTION_VOLUME_SIZE := @INJECTION_VOLUME_SIZE Examples.imports;
|}.

(** An experiment with its injection inside the volume of [Examples]. *)
Definition experiment_inside : tract := {|
  structure_abbrev := "TH";
  injection_structures := ["TH"];
  injection_coordinates := [30; 10; 10]%Q;
  injection_volume := 1 # 2;
  path := [[30; 10; 10]; [20; 20; 30]]%Q;
|}.

End MoreExamples.

(** ** get_injection_sites and get_projection_tracts_to_target *)

Module Experiment.

(** One experiment, a dict with the keys "injection_x", "injection_y",
    "injection_z" and "injection_volume". *)
Record t := {
  injection_x : Q;
  injection_y : Q;
  injection_z : Q;
  injection_volume : Q;
}.

End Experiment.

(** An element of the list [experiments]: a dict, or something else. *)
Inductive experiment_item :=
| ExperimentDict (e : Experiment.t)
| ExperimentOther.

(** The argument [experiments]. *)
Inductive experiments_arg :=
| ExperimentsList (l : list experiment_item)
| ExperimentsOther.

(** [shapes.Sphere(pos=pos, r=r, c=c)], by its arguments. *)
Inductive site :=
| Site (pos : list Q) (r : Q) (c : pyval).

(** [exp[...]] on an element of [experiments]. *)
Definition item_experiment (it : experiment_item) : result Experiment.t :=
  match it with
  | ExperimentDict e => Ok e
  | ExperimentOther => Raise TypeError
  end.

(** The argument [p0] of [get_projection_tracts_to_target]: [None], a
    list, tuple or array of numbers, or something else. *)
Inductive seed_arg :=
| SeedNone
| SeedPoint (p : list Q)
| SeedOther.

(** What [experiment_spatial_search] answers: the experiments, or a string
    with an error message. *)
Inductive search_response :=
| ResponseData (experiments : list tract)
| ResponseMessage (msg : string).

(** [np.int(p)]: the integer part of a number, towards zero. *)
Definition np_int (p : Q) : Z := Z.quot (Qnum p) (Z.pos (Qden p)).

(** ** Meshes of brain regions *)

(** The class attributes [ABA.ignore_regions] and [ABA.mesh_format]. *)
Definition ABA_ignore_regions : list string :=
  ["retina"; "brain"; "fiber tracts"; "grey"].

Definition ABA_mesh_format : string := "obj".

(** [s.lower()], for the letters of ASCII. *)
Definition lower_ascii (c : Ascii.ascii) : Ascii.ascii :=
  let n := Ascii.nat_of_ascii c in
  if (65 <=? n)%nat && (n <=? 90)%nat then Ascii.ascii_of_nat (n + 32) else c.

Fixpoint lower (s : string) : string :=
  match s with
  | EmptyString => EmptyString
  | String c s' => String (lower_ascii c) (lower s')
  end.

(** The region given to [_check_obj_file]: an acronym, or the dict of a
    structure. *)
Inductive region_ref :=
| ByAcronym (a : string)
| ByStructure (s : structure).

(** More imported names, and the collaborators of [self] that keep or
    make meshes.
    - [mesh] is a vtkplotter mesh;
    - [INJECTION_DEFAULT_COLOR], [DEFAULT_VIP_REGIONS], [DEFAULT_VIP_COLOR],
      [DEFAULT_STRUCTURE_ALPHA], [DEFAULT_STRUCTURE_COLOR] and [ROOT_COLOR]
      are constants of [brainrender];
    - [experiment_spatial_search seed] is
      [self.mca.experiment_spatial_search(seed_point=seed)];
    - [os_path_join] is [os.path.join] and [meshes_folder] is
      [self.meshes_folder], which [__init__] sets to [self.mouse_meshes];
    - [download_structure_mesh i file] tells whether
      [self.space.download_structure_mesh(structure_id=i, file_name=file)]
      returns; it then has written [file], and otherwise it has raised;
    - [load file c alpha] is [load(file, c=c, alpha=alpha)] of vtkplotter,
      and [load_mesh_from_file] that of [brainrender.Utils.data_io];
    - [split_hemispheres m] is the pair [(left, right)] that
      [get_region_unilateral] computes from the mesh of both hemispheres
      with [cutWithPlane], [get_region_CenterOfMass] and
      [mirror_actor_at_point];
    - [edit_actor] is [actors_funcs.edit_actor], on one mesh or on a pair. *)
Class MeshImports := {
  mesh : Type;
  INJECTION_DEFAULT_COLOR : pyval;
  DEFAULT_VIP_REGIONS : list string;
  DEFAULT_VIP_COLOR : pyval;
  DEFAULT_STRUCTURE_ALPHA : Q;
  DEFAULT_STRUCTURE_COLOR : pyval;
  ROOT_COLOR : pyval;
  experiment_spatial_search : list Z → search_response;
  os_path_join : string → string → string;
  meshes_folder : string;
  download_structure_mesh : Z → string → bool;
  load : string → pyval → Q → option mesh;
  load_mesh_from_file : string → pyval → Q → result mesh;
  split_hemispheres : mesh → result (mesh * mesh);
}.

(** What is kept for a region: one mesh, or the tuple of the meshes of the
    two hemispheres. *)
Inductive rendered `{MeshImports} :=
| Single (m : mesh)
| Both (left right : mesh).

(** The integer [z] is the integer part of [c], towards zero. *)
Definition integer_part (c : Q) (z : Z) : Prop :=
  (Qabs (c - inject_Z z) < 1)%Q ∧ (Qabs (inject_Z z) <= Qabs c)%Q.

(** In the section, [edit_actor] is [actors_funcs.edit_actor(obj, **kwargs)],
    which changes the look of what is kept for a region. *)
Section Meshes.
Context `{Imports} `{MeshImports}.
Context (edit_actor : rendered → rendered).

Definition get_injection_sites (experiments : experiments_arg) (color : pyval)
  : result (list site) :=
  match experiments with
  | ExperimentsOther => Raise ValueError
  | ExperimentsList l =>
      e0 ← getitem l 0;
      match e0 with
      | ExperimentOther => Raise ValueError
      | ExperimentDict _ =>
          let color := if is_none color then INJECTION_DEFAULT_COLOR else color in
          for_fold (λ injection_sites it,
            exp ← item_experiment it;
            mret (injection_sites
                  ++ [Site [Experiment.injection_x exp; Experiment.injection_y exp;
                            Experiment.injection_z exp]
                        (INJECTION_VOLUME_SIZE * Experiment.injection_volume exp * 3)
                        color])) l []
      end
  end.

Definition get_projection_tracts_to_target (p0 : seed_arg)
  : result (list tract) :=
  match p0 with
  | SeedNone => Raise ValueError
  | SeedOther => Raise ValueError
  | SeedPoint p =>
      let p0 := np_int <$> p in
      match experiment_spatial_search p0 with
      | ResponseMessage _ => Raise ValueError
      | ResponseData tract => mret tract
      end
  end.

(** [_check_valid_region_arg]; a [bool] is an [int]. *)
Definition _check_valid_region_arg (region : pyval) : result bool :=
  match region with
  | PInt _ | PBool _ | PStr _ => Ok true
  | _ => Raise ValueError
  end.

(** [_check_obj_file]; the state is the set of the files on the disk. *)
Definition _check_obj_file (self : ABA) (region : region_ref) (obj_file : string)
    (files : gset string) : result (bool * gset string) :=
  if negb (bool_decide (obj_file ∈ files)) then
    let region :=
      match region with
      | ByStructure s => acronym s
      | ByAcronym a => a
      end in
    match get_structures_by_acronym self region with
    | Raise _ => Raise ValueError
    | Ok structure =>
        if download_structure_mesh (id structure) obj_file
        then mret (true, {[obj_file]} ∪ files)
        else mret (false, files)
    end
  else mret (true, files).

(** [_get_structure_mesh(acronym, c=c, alpha=alpha)] *)
Definition _get_structure_mesh (self : ABA) (acronym' : string) (c : pyval)
    (alpha : Q) (files : gset string) : result (option mesh * gset string) :=
  structure ← get_structures_by_acronym self acronym';
  let obj_path := os_path_join meshes_folder (acronym' +:+ ".obj") in
  '(ok, files) ← _check_obj_file self (ByStructure structure) obj_path files;
  if (ok : bool) then
    m ← load_mesh_from_file obj_path c alpha;
    mret (Some m, files)
  else mret (None, files).

(** [get_region_unilateral(region, hemisphere=hemisphere, color=color,
    alpha=alpha)], for an [alpha] that is not [None]. *)
Definition get_region_unilateral (self : ABA) (region : string)
    (hemisphere : string) (color : pyval) (alpha : Q) (files : gset string)
  : result (option rendered * gset string) :=
  let color := if is_none color then ROOT_COLOR else color in
  '(bilateralmesh, files) ← _get_structure_mesh self region color alpha files;
  match bilateralmesh with
  | None => mret (None, files)
  | Some m =>
      '(left', right') ← split_hemispheres m;
      if String.eqb hemisphere "both" then mret (Some (Both left' right'), files)
      else if String.eqb hemisphere "left" then mret (Some (Single left'), files)
      else mret (Some (Single right'), files)
  end.

(** "check which color to assign to the brain region", for the region at
    the position [i] of [brain_regions]. *)
Definition region_color (self : ABA) (use_original_color : bool)
    (VIP_regions : list string) (VIP_color colors : pyval) (i : nat)
    (region : string) : result pyval :=
  if use_original_color then
    c ← get_region_color self region;
    mret (PList ((λ x, PFloat (inject_Z x / 255)) <$> c))
  else if bool_decide (region ∈ VIP_regions) then mret VIP_color
  else if is_none colors then mret DEFAULT_STRUCTURE_COLOR
  else
    match colors with
    | PList _ => py_getitem colors i
    | _ => mret colors
    end.

(** The body of the loop over all brain regions; the state is the files on
    the disk and the dict [actors].  The lines printed are left out. *)
Definition region_step (self : ABA) (acronyms VIP_regions : list string)
    (VIP_color colors : pyval) (use_original_color : bool) (_alpha : Q)
    (hemisphere : option string)
    (st : gset string * gmap string rendered) (i : nat) (region : pyval)
  : result (gset string * gmap string rendered) :=
  let '(files, actors) := st in
  _ ← _check_valid_region_arg region;
  match region with
  | PStr r =>
      if bool_decide (r ∈ ABA_ignore_regions) then mret (files, actors)
      else if negb (bool_decide (r ∈ acronyms)) then mret (files, actors)
      else
        let obj_file := os_path_join meshes_folder (r +:+ "." +:+ ABA_mesh_format) in
        '(ok, files) ← _check_obj_file self (ByAcronym r) obj_file files;
        if negb (ok : bool) then mret (files, actors)
        else
          color ← region_color self use_original_color VIP_regions VIP_color colors i r;
          let alpha := if bool_decide (r ∈ VIP_regions) then 1%Q else _alpha in
          '(obj, files) ←
            match hemisphere with
            | Some h =>
                if String.eqb (lower h) "left" || String.eqb (lower h) "right"
                then get_region_unilateral self r h color alpha files
                else Raise ValueError
            | None => mret (Single <$> load obj_file color alpha, files)
            end;
          match obj with
          | Some obj => mret (files, <[r := edit_actor obj]> actors)
          | None => mret (files, actors)
          end
  | _ => mret (files, actors)
  end.

(** [get_brain_regions(brain_regions, VIP_regions=VIP_regions,
    VIP_color=VIP_color, colors=colors,
    use_original_color=use_original_color, alpha=alpha,
    hemisphere=hemisphere)]: what is returned, [None] or the dict [actors],
    and the files on the disk after the call. *)
Definition get_brain_regions (self : ABA) (brain_regions : pyval)
    (VIP_regions : option (list string)) (VIP_color colors : pyval)
    (use_original_color : bool) (alpha : option Q) (hemisphere : option string)
    (files : gset string)
  : result (option (gmap string rendered) * gset string) :=
  args ← get_brain_regions_args self brain_regions colors;
  match args with
  | NoRegionsData => mret (None, files)
  | RegionsLoop brain_regions colors =>
      let VIP_regions := default DEFAULT_VIP_REGIONS VIP_regions in
      let VIP_color := if is_none VIP_color then DEFAULT_VIP_COLOR else VIP_color in
      let _alpha := default DEFAULT_STRUCTURE_ALPHA alpha in
      '(files, actors) ←
        for_enumerate
          (region_step self (default [] (region_acronyms self)) VIP_regions VIP_color
             colors use_original_color _alpha hemisphere)
          0 brain_regions (files, ∅);
      mret (Some actors, files)
  end.

End Meshes.

(** ** Data for the examples of the meshes *)

Module MeshExamples.

(** A mesh, by the way it was made. *)
Inductive mesh_term :=
| Loaded (file : string) (c : pyval) (alpha : Q)
| LeftOf (m : mesh_term)
| RightOf (m : mesh_term).

(** Every mesh can be loaded and split; only the mesh of the thalamus can
    be downloaded; the search around the origin answers with a message. *)
#[export] Instance mesh_imports : MeshImports := {|
  mesh := mesh_term;
  INJECTION_DEFAULT_COLOR := PStr "green";
  DEFAULT_VIP_REGIONS := [];
  DEFAULT_VIP_COLOR := PStr "red";
  DEFAULT_STRUCTURE_ALPHA := 1 # 2;
  DEFAULT_STRUCTURE_COLOR := PStr "grey";
  ROOT_COLOR := PStr "ivory";
  experiment_spatial_search seed :=
    if bool_decide (seed = [0; 0; 0]) then ResponseMessage "no experiment"
    else ResponseData [Examples.experiment];
  os_path_join folder name := folder +:+ "/" +:+ name;
  meshes_folder := "meshes";
  download_structure_mesh i file := bool_decide (i = 549);
  load file c alpha := Some (Loaded file c alpha);
  load_mesh_from_file file c alpha := Ok (Loaded file c alpha);
  split_hemispheres m := Ok (LeftOf m, RightOf m);
|}.

(** [edit_actor] without keyword arguments. *)
Definition edit_actor (obj : @rendered mesh_imports) : @rendered mesh_imports := obj.

Definition injection : Experiment.t := {|
  Experiment.injection_x := 30;
  Experiment.injection_y := 10;
  Experiment.injection_z := 10;
  Experiment.injection_volume := 1 # 2;
|}.

End MeshExamples.

(** ** Predicates on the regions and on the loop of get_brain_regions *)

Section MeshesPredicates.
Context `{MeshImports}.

(** What the loop keeps true of the files and of [actors], for the regions
    [regions] and the files [files] at the start. *)
Definition rendered_inv (acronyms : list string) (regions : list pyval)
    (files : gset string) (st : gset string * gmap string rendered) : Prop :=
  files ⊆ st.1
  ∧ ∀ r, is_Some (st.2 !! r) →
      PStr r ∈ regions
      ∧ r ∈ acronyms
      ∧ (r ∉ ABA_ignore_regions)
      ∧ os_path_join meshes_folder (r +:+ "." +:+ ABA_mesh_format) ∈ st.1.

(** A region that the loop passes over: an integer, a string that is one
    of the ignored regions, or one that is no acronym of the atlas. *)
Definition passed_over (acronyms : list string) (region : pyval) : Prop :=
  match region with
  | PInt _ | PBool _ => True
  | PStr r => r ∈ ABA_ignore_regions ∨ r ∉ acronyms
  | _ => False
  end.

(** The file that [get_brain_regions] reads the mesh of [r] from. *)
Definition obj_file_of (r : string) : string :=
  os_path_join meshes_folder (r +:+ "." +:+ ABA_mesh_format).

End MeshesPredicates.

(** * Properties *)

(** ** The monad and the loops *)

Lemma for_each_length {A B} (f : A → result B) (l : list A) (r : list B) :
  for_each f l = Ok r → length r = length l.
Proof.
  revert r. induction l as [|x l IH]; intros r; simpl.
  - intros [= <-]. reflexivity.
  - destruct (f x) as [y|e]; simpl; [|discriminate].
    destruct (for_each f l) as [ys|e]; simpl; [|discriminate].
    intros [= <-]. simpl. f_equal. apply IH. reflexivity.
Qed.

Lemma for_each_Forall2 {A B} (f : A → result B) (l : list A) (r : list B) :
  for_each f l = Ok r ↔ Forall2 (λ x y, f x = Ok y) l r.
Proof.
  revert r. induction l as [|x l IH]; intros r; simpl.
  - split.
    + intros [= <-]. constructor.
    + intros Hr. inversion Hr. reflexivity.
  - split.
    + destruct (f x) as [y|e] eqn:Hx; simpl; [|discriminate].
      destruct (for_each f l) as [ys|e] eqn:Hl; simpl; [|discriminate].
      intros [= <-]. constructor; [exact Hx|]. apply IH. reflexivity.
    + intros Hr. inversion Hr as [|? y ? ys Hx Hl]; subst.
      rewrite Hx. simpl. apply IH in Hl. rewrite Hl. reflexivity.
Qed.

(** ** Rounding *)

Lemma Qfloor_bounds (x : Q) :
  (inject_Z (Qfloor x) <= x ∧ x < inject_Z (Qfloor x) + 1)%Q.
Proof.
  split; [apply Qfloor_le|].
  pose proof (Qlt_floor x) as Hlt. rewrite inject_Z_plus in Hlt. exact Hlt.
Qed.

Lemma round_half_even_nearest (x : Q) :
  (Qabs (x - inject_Z (round_half_even x)) <= 1 # 2)%Q
  ∧ ((Qabs (x - inject_Z (round_half_even x)) == 1 # 2)%Q
     → Z.even (round_half_even x) = true)
  ∧ (round_half_even x = Qfloor x ∨ round_half_even x = Qfloor x + 1).
Proof.
  destruct (Qfloor_bounds x) as [Hlo Hhi].
  unfold round_half_even.
  destruct (x - inject_Z (Qfloor x) ?= 1 # 2)%Q eqn:Hc.
  - apply Qeq_alt in Hc.
    destruct (Z.even (Qfloor x)) eqn:He.
    + split; [|split]; [|intros _; exact He|left; reflexivity].
      apply Qabs_Qle_condition. split; lra.
    + split; [|split]; [| |right; reflexivity].
      * rewrite inject_Z_plus. change (inject_Z 1) with 1%Q.
        apply Qabs_Qle_condition. split; lra.
      * intros _. rewrite Z.even_add, He. reflexivity.
  - apply Qlt_alt in Hc.
    split; [|split]; [| |left; reflexivity].
    + apply Qabs_Qle_condition. split; lra.
    + intros Habs. exfalso.
      rewrite Qabs_pos in Habs by lra. lra.
  - apply Qgt_alt in Hc.
    split; [|split]; [| |right; reflexivity].
    + rewrite inject_Z_plus. change (inject_Z 1) with 1%Q.
      apply Qabs_Qle_condition. split; lra.
    + intros Habs. exfalso. rewrite inject_Z_plus in Habs.
      change (inject_Z 1) with 1%Q in Habs.
      rewrite Qabs_neg in Habs by lra. lra.
Qed.

Lemma round_half_even_mono (x y : Q) :
  (x <= y)%Q → round_half_even x ≤ round_half_even y.
Proof.
  intros Hxy.
  destruct (round_half_even_nearest x) as (Hx & Hxe & _).
  destruct (round_half_even_nearest y) as (Hy & Hye & _).
  destruct (Z_le_gt_dec (round_half_even x) (round_half_even y)) as [Hle|Hgt];
    [exact Hle|].
  exfalso.
  assert (Hinj : (inject_Z (round_half_even y) + 1 <= inject_Z (round_half_even x))%Q).
  { change 1%Q with (inject_Z 1). rewrite <- inject_Z_plus.
    rewrite <- Zle_Qle. lia. }
  apply Qabs_Qle_condition in Hx as [Hx1 Hx2].
  apply Qabs_Qle_condition in Hy as [Hy1 Hy2].
  assert (Hx12 : (Qabs (x - inject_Z (round_half_even x)) == 1 # 2)%Q).
  { rewrite Qabs_neg by lra. lra. }
  assert (Hy12 : (Qabs (y - inject_Z (round_half_even y)) == 1 # 2)%Q).
  { rewrite Qabs_pos by lra. lra. }
  apply Hxe in Hx12. apply Hye in Hy12.
  assert (Heq : round_half_even x = round_half_even y + 1).
  { apply Z.le_antisymm; [|lia].
    rewrite Zle_Qle, inject_Z_plus. change (inject_Z 1) with 1%Q. lra. }
  rewrite Heq, Z.even_add, Hy12 in Hx12. discriminate.
Qed.

Lemma round_half_even_comp (x y : Q) :
  (x == y)%Q → round_half_even x = round_half_even y.
Proof.
  intros Hxy. apply Z.le_antisymm; apply round_half_even_mono; lra.
Qed.

Lemma round_half_even_inject_Z (n : Z) : round_half_even (inject_Z n) = n.
Proof.
  unfold round_half_even. rewrite Qfloor_Z.
  assert (Hlt : (inject_Z n - inject_Z n < 1 # 2)%Q) by lra.
  pose proof (proj1 (Qlt_alt (inject_Z n - inject_Z n) (1 # 2)) Hlt) as Hc.
  rewrite Hc. reflexivity.
Qed.

(** The integer within one half of [x] that is even at a tie is unique. *)
Lemma round_half_even_unique (x : Q) (v : Z) :
  (Qabs (x - inject_Z v) <= 1 # 2)%Q →
  ((Qabs (x - inject_Z v) == 1 # 2)%Q → Z.even v = true) →
  round_half_even x = v.
Proof.
  intros Hv Hve.
  destruct (round_half_even_nearest x) as (Hr & Hre & _).
  set (r := round_half_even x) in *.
  apply Qabs_Qle_condition in Hv as [Hv1 Hv2].
  apply Qabs_Qle_condition in Hr as [Hr1 Hr2].
  destruct (Z.lt_trichotomy r v) as [Hlt|[Heq|Hgt]]; [|exact Heq|]; exfalso.
  - assert (Hinj : (inject_Z r + 1 <= inject_Z v)%Q).
    { change 1%Q with (inject_Z 1). rewrite <- inject_Z_plus, <- Zle_Qle. lia. }
    assert (Hr12 : (Qabs (x - inject_Z r) == 1 # 2)%Q)
      by (rewrite Qabs_pos by lra; lra).
    assert (Hv12 : (Qabs (x - inject_Z v) == 1 # 2)%Q)
      by (rewrite Qabs_neg by lra; lra).
    apply Hre in Hr12. apply Hve in Hv12.
    assert (Heq : v = r + 1).
    { apply Z.le_antisymm; [|lia].
      rewrite Zle_Qle, inject_Z_plus. change (inject_Z 1) with 1%Q. lra. }
    rewrite Heq, Z.even_add, Hr12 in Hv12. discriminate.
  - assert (Hinj : (inject_Z v + 1 <= inject_Z r)%Q).
    { change 1%Q with (inject_Z 1). rewrite <- inject_Z_plus, <- Zle_Qle. lia. }
    assert (Hr12 : (Qabs (x - inject_Z r) == 1 # 2)%Q)
      by (rewrite Qabs_neg by lra; lra).
    assert (Hv12 : (Qabs (x - inject_Z v) == 1 # 2)%Q)
      by (rewrite Qabs_pos by lra; lra).
    apply Hre in Hr12. apply Hve in Hv12.
    assert (Heq : r = v + 1).
    { apply Z.le_antisymm; [|lia].
      rewrite Zle_Qle, inject_Z_plus. change (inject_Z 1) with 1%Q. lra. }
    rewrite Heq, Z.even_add, Hv12 in Hr12. discriminate.
Qed.

Lemma round_half_even_opp (x : Q) : round_half_even (- x) = - round_half_even x.
Proof.
  destruct (round_half_even_nearest x) as (Hr & Hre & _).
  apply round_half_even_unique.
  - rewrite inject_Z_opp.
    assert (Heq : (- x - - inject_Z (round_half_even x)
                   == - (x - inject_Z (round_half_even x)))%Q) by ring.
    rewrite Heq, Qabs_opp. exact Hr.
  - rewrite inject_Z_opp.
    assert (Heq : (- x - - inject_Z (round_half_even x)
                   == - (x - inject_Z (round_half_even x)))%Q) by ring.
    rewrite Heq, Qabs_opp. intros H12. rewrite Z.even_opp. apply Hre. exact H12.
Qed.

(** *** Powers of two *)

Lemma pow2_pos (k : Z) : (0 < 2 ^ k)%Q.
Proof. apply Qpower_0_lt. reflexivity. Qed.

Lemma pow2_le (a b : Z) : a ≤ b → (2 ^ a <= 2 ^ b)%Q.
Proof. intros Hab. apply Qpower_le_compat_l; [exact Hab|]. unfold Qle. simpl. lia. Qed.

Lemma pow2_lt (a b : Z) : a < b → (2 ^ a < 2 ^ b)%Q.
Proof. intros Hab. apply Qpower_lt_compat_l; [exact Hab|]. reflexivity. Qed.

Lemma pow2_lt_inv (a b : Z) : (2 ^ a < 2 ^ b)%Q → a < b.
Proof. intros Hab. eapply Qpower_lt_compat_l_inv; [exact Hab|]. reflexivity. Qed.

Lemma pow2_plus (a b : Z) : (2 ^ (a + b) == 2 ^ a * 2 ^ b)%Q.
Proof. apply Qpower_plus. discriminate. Qed.

Lemma pow2_succ (a : Z) : (2 ^ (a + 1) == 2 * 2 ^ a)%Q.
Proof. rewrite pow2_plus. change (2 ^ 1)%Q with 2%Q. ring. Qed.

Lemma pow2_inject (n : Z) : 0 ≤ n → (inject_Z (2 ^ n) == 2 ^ n)%Q.
Proof. intros Hn. apply (Zpower_Qpower 2 n Hn). Qed.

Lemma pow2_minus (a b : Z) : (2 ^ (a - b) * 2 ^ b == 2 ^ a)%Q.
Proof. rewrite <- pow2_plus. replace (a - b + b) with a by lia. reflexivity. Qed.

(** *** The binary exponent *)

Lemma Qabs_num_den (x : Q) :
  (Qabs x * inject_Z (Z.pos (Qden x)) == inject_Z (Z.abs (Qnum x)))%Q.
Proof.
  destruct x as [n d]. unfold Qabs, Qeq, Qmult, inject_Z. simpl. lia.
Qed.

Lemma log2_bounds_Q (n : Z) :
  0 < n → (2 ^ Z.log2 n <= inject_Z n ∧ inject_Z n < 2 * 2 ^ Z.log2 n)%Q.
Proof.
  intros Hn. pose proof (Z.log2_spec _ Hn) as [H1 H2].
  pose proof (Z.log2_nonneg n) as H0.
  rewrite <- pow2_succ, <- !pow2_inject by lia.
  rewrite <- Zle_Qle, <- Zlt_Qlt. split; [exact H1|exact H2].
Qed.

Lemma ilog2_spec (x : Q) :
  ¬ (x == 0)%Q → (2 ^ ilog2 x <= Qabs x ∧ Qabs x < 2 ^ (ilog2 x + 1))%Q.
Proof.
  intros Hx.
  assert (Hn : 0 < Z.abs (Qnum x)).
  { destruct x as [n d]. unfold Qeq in Hx. simpl in *. lia. }
  assert (Hd : 0 < Z.pos (Qden x)) by lia.
  destruct (log2_bounds_Q _ Hn) as [Hn1 Hn2].
  destruct (log2_bounds_Q _ Hd) as [Hd1 Hd2].
  pose proof (Qabs_num_den x) as HX.
  pose proof (Qabs_nonneg x) as HX0.
  unfold ilog2.
  set (a := Z.log2 (Z.abs (Qnum x))) in *.
  set (b := Z.log2 (Z.pos (Qden x))) in *.
  pose proof (pow2_minus a b) as HK.
  pose proof (pow2_pos (a - b)) as HK0.
  pose proof (pow2_pos b) as HB0.
  pose proof (pow2_succ (a - b)) as HK1.
  pose proof (pow2_succ (a - b - 1)) as HK2.
  replace (a - b - 1 + 1) with (a - b) in HK2 by lia.
  set (X := Qabs x) in *. set (N := inject_Z (Z.abs (Qnum x))) in *.
  set (D := inject_Z (Z.pos (Qden x))) in *.
  set (K := (2 ^ (a - b))%Q) in *. set (B := (2 ^ b)%Q) in *.
  set (A := (2 ^ a)%Q) in *.
  destruct (Qle_bool K X) eqn:Hc.
  - apply Qle_bool_iff in Hc. split; [exact Hc|].
    fold K. rewrite HK1. apply Qnot_le_lt. intros Hge. nra.
  - assert (Hlt : (X < K)%Q).
    { apply Qnot_le_lt. intros Hle. apply Qle_bool_iff in Hle. congruence. }
    replace (a - b - 1 + 1) with (a - b) by lia. fold K. split; [|exact Hlt].
    set (K' := (2 ^ (a - b - 1))%Q) in *.
    apply Qnot_lt_le. intros Hlt'. nra.
Qed.

Lemma ilog2_unique (x : Q) (k : Z) :
  (2 ^ k <= Qabs x)%Q → (Qabs x < 2 ^ (k + 1))%Q → ilog2 x = k.
Proof.
  intros H1 H2.
  assert (Hx : ¬ (x == 0)%Q).
  { intros Hx. assert (Ha : (Qabs x == 0)%Q) by (rewrite Hx; reflexivity).
    pose proof (pow2_pos k). lra. }
  destruct (ilog2_spec x Hx) as [H3 H4].
  assert (Ha : k < ilog2 x + 1) by (apply pow2_lt_inv; lra).
  assert (Hb : ilog2 x < k + 1) by (apply pow2_lt_inv; lra).
  lia.
Qed.

Lemma ilog2_comp (x y : Q) : ¬ (x == 0)%Q → (x == y)%Q → ilog2 x = ilog2 y.
Proof.
  intros Hx Hxy. symmetry.
  destruct (ilog2_spec x Hx) as [H1 H2].
  apply ilog2_unique; rewrite <- Hxy; assumption.
Qed.

Lemma ilog2_opp (x : Q) : ilog2 (- x) = ilog2 x.
Proof.
  destruct x as [n d]. unfold ilog2, Qabs. simpl. rewrite Z.abs_opp. reflexivity.
Qed.

Lemma ilog2_mono (x y : Q) :
  ¬ (x == 0)%Q → (Qabs x <= Qabs y)%Q → ilog2 x ≤ ilog2 y.
Proof.
  intros Hx Hxy.
  destruct (ilog2_spec x Hx) as [H1 H2].
  assert (Hy : ¬ (y == 0)%Q).
  { intros Hy. assert (Ha : (Qabs y == 0)%Q) by (rewrite Hy; reflexivity).
    pose proof (pow2_pos (ilog2 x)). lra. }
  destruct (ilog2_spec y Hy) as [H3 H4].
  assert (Ha : ilog2 x < ilog2 y + 1) by (apply pow2_lt_inv; lra).
  lia.
Qed.

Lemma fexp_ge (x : Q) : -1074 ≤ fexp x ∧ ilog2 x - 52 ≤ fexp x.
Proof. unfold fexp. lia. Qed.

(** *** Rounding to float64 *)

Lemma fl_zero (x : Q) : (x == 0)%Q → (fl x == 0)%Q.
Proof.
  intros Hx. unfold fl.
  assert (Hr : round_half_even (x / 2 ^ fexp x) = 0).
  { rewrite <- (round_half_even_inject_Z 0). apply round_half_even_comp.
    transitivity (0 / 2 ^ fexp x)%Q; [|reflexivity].
    apply Qdiv_comp; [exact Hx|reflexivity]. }
  rewrite Hr. ring.
Qed.

#[global] Instance fl_proper : Proper (Qeq ==> Qeq) fl.
Proof.
  intros x y Hxy.
  destruct (Qeq_dec x 0) as [Hx|Hx].
  - rewrite (fl_zero x Hx), (fl_zero y); [reflexivity|]. rewrite <- Hxy. exact Hx.
  - unfold fl, fexp. rewrite <- (ilog2_comp x y Hx Hxy).
    set (e := Z.max (ilog2 x - 52) (-1074)).
    assert (Hr : round_half_even (x / 2 ^ e) = round_half_even (y / 2 ^ e)).
    { apply round_half_even_comp. rewrite Hxy. reflexivity. }
    rewrite Hr. reflexivity.
Qed.

Lemma fl_opp (x : Q) : (fl (- x) == - fl x)%Q.
Proof.
  unfold fl, fexp. rewrite ilog2_opp.
  set (e := Z.max (ilog2 x - 52) (-1074)).
  assert (Hr : round_half_even (- x / 2 ^ e) = - round_half_even (x / 2 ^ e)).
  { rewrite <- round_half_even_opp. apply round_half_even_comp.
    unfold Qdiv. ring. }
  rewrite Hr, inject_Z_opp. ring.
Qed.

(** A number [k * 2^j] with [|k| < 2^53] and [j] not below the exponent of
    the subnormal numbers is a float64. *)
Lemma fl_exact (x : Q) (k j : Z) :
  (x == inject_Z k * 2 ^ j)%Q → Z.abs k < 2 ^ 53 → -1074 ≤ j → (fl x == x)%Q.
Proof.
  intros Hx Hk Hj.
  destruct (Qeq_dec x 0) as [H0|H0]; [rewrite (fl_zero x H0), H0; reflexivity|].
  destruct (ilog2_spec x H0) as [H1 _].
  assert (Habs : (Qabs x < 2 ^ (53 + j))%Q).
  { rewrite Hx, Qabs_Qmult, (Qabs_pos (2 ^ j)) by (apply Qlt_le_weak, pow2_pos).
    rewrite pow2_plus, <- (pow2_inject 53) by lia.
    apply Qmult_lt_compat_r; [apply pow2_pos|].
    assert (Hi : (Qabs (inject_Z k) == inject_Z (Z.abs k))%Q).
    { unfold Qabs, inject_Z. simpl. reflexivity. }
    rewrite Hi, <- Zlt_Qlt. exact Hk. }
  assert (Hlog : ilog2 x < 53 + j) by (apply pow2_lt_inv; lra).
  assert (He : fexp x ≤ j) by (unfold fexp; lia).
  unfold fl. set (e := fexp x) in *.
  assert (Hs : (x / 2 ^ e == inject_Z (k * 2 ^ (j - e)))%Q).
  { rewrite inject_Z_mult, pow2_inject by lia. rewrite Hx.
    rewrite <- (pow2_minus j e). field.
    pose proof (pow2_pos e). lra. }
  rewrite (round_half_even_comp _ _ Hs), round_half_even_inject_Z.
  rewrite inject_Z_mult, pow2_inject by lia.
  rewrite Hx, <- (pow2_minus j e). ring.
Qed.

(** The significand of [fl x] has at most 53 bits. *)
Lemma fl_significand (x : Q) :
  Z.abs (round_half_even (x / 2 ^ fexp x)) ≤ 2 ^ 53.
Proof.
  destruct (Qeq_dec x 0) as [H0|H0].
  - assert (Hr : round_half_even (x / 2 ^ fexp x) = 0).
    { rewrite <- (round_half_even_inject_Z 0). apply round_half_even_comp.
      transitivity (0 / 2 ^ fexp x)%Q; [|reflexivity].
      apply Qdiv_comp; [exact H0|reflexivity]. }
    rewrite Hr. simpl. lia.
  - destruct (ilog2_spec x H0) as [_ H2].
    destruct (fexp_ge x) as [_ He]. set (e := fexp x) in *.
    pose proof (pow2_pos e) as Hp.
    assert (Hb : (Qabs x <= 2 ^ 53 * 2 ^ e)%Q).
    { rewrite <- pow2_plus. apply Qlt_le_weak.
      eapply Qlt_le_trans; [exact H2|]. apply pow2_le. lia. }
    apply Qabs_Qle_condition in Hb as [Hb1 Hb2].
    assert (Hs : (- inject_Z (2 ^ 53) <= x / 2 ^ e ∧ x / 2 ^ e <= inject_Z (2 ^ 53))%Q).
    { rewrite pow2_inject by lia. split.
      - apply Qle_shift_div_l; [exact Hp|]. lra.
      - apply Qle_shift_div_r; [exact Hp|]. lra. }
    destruct Hs as [Hs1 Hs2].
    rewrite <- inject_Z_opp in Hs1.
    apply round_half_even_mono in Hs1, Hs2.
    rewrite round_half_even_inject_Z in Hs1, Hs2. lia.
Qed.

Lemma fl_idem (x : Q) : (fl (fl x) == fl x)%Q.
Proof.
  pose proof (fl_significand x) as Hk. destruct (fexp_ge x) as [He _].
  unfold fl at 2 3. set (k := round_half_even (x / 2 ^ fexp x)) in *.
  set (e := fexp x) in *.
  destruct (Z.eq_dec (Z.abs k) (2 ^ 53)) as [Heq|Hne].
  - apply (fl_exact _ (Z.sgn k) (53 + e)); [| |lia].
    + rewrite pow2_plus, <- (pow2_inject 53), Qmult_assoc, <- inject_Z_mult by lia.
      rewrite <- Heq, Z.mul_comm, Z.abs_sgn. reflexivity.
    + destruct k; simpl; lia.
  - apply (fl_exact _ k e); [reflexivity|lia|exact He].
Qed.

Lemma fl_nonneg (x : Q) : (0 <= x)%Q → (0 <= fl x)%Q.
Proof.
  intros Hx. unfold fl. pose proof (pow2_pos (fexp x)) as Hp.
  apply Qmult_le_0_compat; [|lra].
  change 0%Q with (inject_Z 0). rewrite <- Zle_Qle.
  rewrite <- (round_half_even_inject_Z 0) at 1.
  apply round_half_even_mono. apply Qle_shift_div_l; [exact Hp|].
  change (inject_Z 0) with 0%Q. lra.
Qed.

Lemma fl_mono_pos (x y : Q) : (0 < x)%Q → (x <= y)%Q → (fl x <= fl y)%Q.
Proof.
  intros Hx Hxy.
  assert (Hx0 : ¬ (x == 0)%Q) by lra.
  assert (Hy0 : ¬ (y == 0)%Q) by lra.
  destruct (ilog2_spec x Hx0) as [Hx1 Hx2].
  destruct (ilog2_spec y Hy0) as [Hy1 Hy2].
  rewrite Qabs_pos in Hx1, Hx2, Hy1, Hy2 by lra.
  assert (Hlog : ilog2 x ≤ ilog2 y).
  { apply ilog2_mono; [exact Hx0|]. rewrite !Qabs_pos by lra. exact Hxy. }
  destruct (Z.eq_dec (fexp x) (fexp y)) as [Heq|Hne].
  - unfold fl. rewrite Heq. pose proof (pow2_pos (fexp y)) as Hp.
    apply Qmult_le_compat_r; [|lra].
    rewrite <- Zle_Qle. apply round_half_even_mono.
    unfold Qdiv. apply Qmult_le_compat_r; [exact Hxy|].
    apply Qlt_le_weak, Qinv_lt_0_compat, Hp.
  - assert (Hey : fexp y = ilog2 y - 52) by (unfold fexp in *; lia).
    assert (Hlt : ilog2 x + 1 ≤ ilog2 y) by (unfold fexp in *; lia).
    assert (Hex : fexp x < fexp y) by (unfold fexp in *; lia).
    set (ex := fexp x) in *. set (ey := fexp y) in *.
    pose proof (pow2_pos ex) as Hpx. pose proof (pow2_pos ey) as Hpy.
    assert (HB : (2 ^ (ilog2 x + 1) <= 2 ^ ilog2 y)%Q) by (apply pow2_le; lia).
    apply Qle_trans with (2 ^ ilog2 y)%Q.
    + unfold fl. fold ex.
      assert (Hs : (x / 2 ^ ex <= inject_Z (2 ^ (ilog2 y - ex)))%Q).
      { rewrite pow2_inject by lia. apply Qle_shift_div_r; [exact Hpx|].
        rewrite pow2_minus. lra. }
      apply round_half_even_mono in Hs. rewrite round_half_even_inject_Z in Hs.
      rewrite <- (pow2_minus (ilog2 y) ex), <- (pow2_inject (ilog2 y - ex)) by lia.
      apply Qmult_le_compat_r; [|lra]. rewrite <- Zle_Qle. exact Hs.
    + unfold fl. fold ey.
      assert (Hs : (inject_Z (2 ^ 52) <= y / 2 ^ ey)%Q).
      { rewrite pow2_inject by lia. apply Qle_shift_div_l; [exact Hpy|].
        rewrite <- pow2_plus. replace (52 + ey) with (ilog2 y) by lia. exact Hy1. }
      apply round_half_even_mono in Hs. rewrite round_half_even_inject_Z in Hs.
      replace (ilog2 y) with (52 + ey) by lia.
      rewrite pow2_plus, <- (pow2_inject 52) by lia.
      apply Qmult_le_compat_r; [|lra]. rewrite <- Zle_Qle. exact Hs.
Qed.

Lemma fl_mono (x y : Q) : (x <= y)%Q → (fl x <= fl y)%Q.
Proof.
  intros Hxy.
  destruct (Qlt_le_dec 0 x) as [Hx|Hx]; [apply fl_mono_pos; assumption|].
  assert (Hfx : (fl x <= 0)%Q).
  { assert (H : (0 <= fl (- x))%Q) by (apply fl_nonneg; lra).
    rewrite fl_opp in H. lra. }
  destruct (Qlt_le_dec y 0) as [Hy|Hy].
  - assert (H : (fl (- y) <= fl (- x))%Q) by (apply fl_mono_pos; lra).
    rewrite !fl_opp in H. lra.
  - pose proof (fl_nonneg y Hy). lra.
Qed.

(** *** [np.round] and the conversion to int64 *)

(** [np_round x] is an integer nearest to [x], the even one of the two when
    [x] is half way, and it is [floor x] or [floor x + 1]. *)
Lemma np_round_nearest (x : Q) :
  (Qabs (x - inject_Z (np_round x)) <= 1 # 2)%Q
  ∧ ((Qabs (x - inject_Z (np_round x)) == 1 # 2)%Q → Z.even (np_round x) = true)
  ∧ (np_round x = Qfloor x ∨ np_round x = Qfloor x + 1).
Proof. exact (round_half_even_nearest x). Qed.

(** Rounding goes up as soon as the fractional part exceeds one half, where
    [floor] does not. *)
Lemma np_round_above_half (x : Q) :
  (1 # 2 < x - inject_Z (Qfloor x))%Q → np_round x = Qfloor x + 1.
Proof.
  intros Hgt. unfold np_round, round_half_even.
  apply Qgt_alt in Hgt. rewrite Hgt. reflexivity.
Qed.

Lemma np_round_mono (x y : Q) : (x <= y)%Q → np_round x ≤ np_round y.
Proof. exact (round_half_even_mono x y). Qed.

Lemma np_round_comp (x y : Q) : (x == y)%Q → np_round x = np_round y.
Proof. exact (round_half_even_comp x y). Qed.

Lemma np_round_inject_Z (n : Z) : np_round (inject_Z n) = n.
Proof. exact (round_half_even_inject_Z n). Qed.

Lemma astype_int_in_range (v : Z) : - 2 ^ 63 ≤ v < 2 ^ 63 → astype_int v = v.
Proof. intros Hv. unfold astype_int. destruct (decide _); [reflexivity|lia]. Qed.

Lemma astype_int_bounds (v : Z) : - 2 ^ 63 ≤ astype_int v < 2 ^ 63.
Proof. unfold astype_int, INT64_MIN. destruct (decide _); lia. Qed.

(** A float64 quotient that int64 holds is rounded to an integer that int64
    holds. *)
Lemma np_round_in_range (q : Q) :
  (- 2 ^ 63 <= q)%Q → (q <= 2 ^ 63 - 1)%Q → - 2 ^ 63 ≤ np_round q < 2 ^ 63.
Proof.
  intros Hlo Hhi.
  assert (H1 : (inject_Z (- 2 ^ 63) <= q)%Q).
  { rewrite inject_Z_opp, (pow2_inject 63) by lia. exact Hlo. }
  assert (H2 : (q <= inject_Z (2 ^ 63 - 1))%Q).
  { unfold Z.sub. rewrite inject_Z_plus, (pow2_inject 63) by lia. exact Hhi. }
  apply np_round_mono in H1, H2. rewrite np_round_inject_Z in H1, H2. lia.
Qed.

Lemma voxel_index_in_range (res c : Q) :
  ¬ (fl res == 0)%Q →
  (- 2 ^ 63 <= float_div c res)%Q → (float_div c res <= 2 ^ 63 - 1)%Q →
  voxel_index res c = np_round (float_div c res).
Proof.
  intros Hres Hlo Hhi. unfold voxel_index.
  destruct (Qeq_bool (fl res) 0) eqn:Hz; [apply Qeq_bool_iff in Hz; contradiction|].
  apply astype_int_in_range, np_round_in_range; assumption.
Qed.

(** ** Rounding to a voxel *)

(** C4, as the code has it: where the float64 quotient
    [coordinate / resolution] is within the range of int64, the component
    of the voxel index is the integer nearest to that quotient (the even
    one at a tie), which is [floor] of it or one more; it is not [floor]
    throughout. *)
Theorem voxel_of_point_nearest (self : ABA) (p0 : list Q) :
  ¬ (fl (resolution self) == 0)%Q →
  Forall (λ c, fits_int64 (float_div c (resolution self))) p0 →
  Forall2 (λ c v,
    (Qabs (float_div c (resolution self) - inject_Z v) <= 1 # 2)%Q
    ∧ ((Qabs (float_div c (resolution self) - inject_Z v) == 1 # 2)%Q
       → Z.even v = true)
    ∧ (v = Qfloor (float_div c (resolution self))
       ∨ v = Qfloor (float_div c (resolution self)) + 1))
    p0 (voxel_of_point self p0).
Proof.
  intros Hres Hfits. unfold voxel_of_point.
  apply Forall2_fmap_r, Forall_Forall2_diag.
  eapply Forall_impl; [exact Hfits|].
  intros c [Hlo Hhi]. unfold compose.
  rewrite (voxel_index_in_range _ _ Hres Hlo Hhi). apply np_round_nearest.
Qed.

(** The point (24, 37.5, -40): the quotients are 0.96, 1.5 and -1.6, the
    voxel is (1, 2, -2). *)
Lemma voxel_of_point_nearest_witness :
  voxel_of_point Examples.atlas [24; 75 # 2; -40]%Q = [1; 2; -2]
  ∧ Forall2 (λ c v,
      (Qabs (float_div c (resolution Examples.atlas) - inject_Z v) <= 1 # 2)%Q
      ∧ ((Qabs (float_div c (resolution Examples.atlas) - inject_Z v) == 1 # 2)%Q
         → Z.even v = true)
      ∧ (v = Qfloor (float_div c (resolution Examples.atlas))
         ∨ v = Qfloor (float_div c (resolution Examples.atlas)) + 1))
      [24; 75 # 2; -40]%Q (voxel_of_point Examples.atlas [24; 75 # 2; -40]%Q).
Proof.
  split; [vm_compute; reflexivity|].
  apply (voxel_of_point_nearest Examples.atlas [24; 75 # 2; -40]%Q).
  - intros Hz. vm_compute in Hz. discriminate.
  - repeat constructor; vm_compute; discriminate.
Defined.

(** C4, the claim as stated fails: the point with first coordinate 24 is in
    the voxel 1 of the code, and [floor (24 / 25)] is 0, for the exact
    quotient as for the float64 one. *)
Lemma voxel_of_point_not_floor :
  voxel_of_point Examples.atlas [24; 0; 0]%Q = [1; 0; 0]
  ∧ (λ c, Qfloor (c / resolution Examples.atlas)) <$> [24; 0; 0]%Q = [0; 0; 0]
  ∧ (λ c, Qfloor (float_div c (resolution Examples.atlas))) <$> [24; 0; 0]%Q
    = [0; 0; 0]
  ∧ voxel_of_point Examples.atlas [24; 0; 0]%Q
    ≠ (λ c, Qfloor (c / resolution Examples.atlas)) <$> [24; 0; 0]%Q.
Proof.
  split; [vm_compute; reflexivity|]. split; [vm_compute; reflexivity|].
  split; [vm_compute; reflexivity|].
  vm_compute. discriminate.
Qed.

(** Beyond the range of int64 the index is not near the quotient: the
    coordinate 1e21 has the index [INT64_MIN].  Beyond 2^53 the quotient is
    itself rounded: the coordinate 25 * (2^53 + 1) has the index
    2^53 + 2. *)
Lemma voxel_of_point_large :
  voxel_of_point Examples.atlas [inject_Z (10 ^ 21); 0; 0]%Q = [INT64_MIN; 0; 0]
  ∧ voxel_of_point Examples.atlas [inject_Z (25 * (2 ^ 53 + 1)); 0; 0]%Q
    = [2 ^ 53 + 2; 0; 0].
Proof. split; vm_compute; reflexivity. Qed.

(** ** Indexing the annotation volume *)

Lemma np_axis_beyond {A} (l : list A) (i : Z) :
  i < - Z.of_nat (length l) ∨ Z.of_nat (length l) ≤ i → np_axis l i = Raise IndexError.
Proof.
  intros Hi. unfold np_axis.
  destruct (decide _) as [?|_]; [lia|].
  destruct (decide _) as [?|_]; [lia|reflexivity].
Qed.

(** A negative index that is not below [-d] reads from the end. *)
Lemma np_axis_negative {A} (l : list A) (i : Z) :
  - Z.of_nat (length l) ≤ i < 0 → np_axis l i = np_axis l (i + Z.of_nat (length l)).
Proof.
  intros Hi. unfold np_axis.
  destruct (decide (0 ≤ i < _)) as [?|_]; [lia|].
  destruct (decide (- _ ≤ i < 0)) as [_|?]; [|lia].
  destruct (decide (0 ≤ i + _ < _)) as [_|?]; [reflexivity|lia].
Qed.

Lemma np_axis_negative_Ok {A} (l : list A) (i : Z) :
  - Z.of_nat (length l) ≤ i < 0 → ∃ x, np_axis l i = Ok x.
Proof.
  intros Hi. unfold np_axis.
  destruct (decide (0 ≤ i < _)) as [?|_]; [lia|].
  destruct (decide (- _ ≤ i < 0)) as [_|?]; [|lia].
  unfold getitem.
  destruct (l !! Z.to_nat (i + Z.of_nat (length l))) as [x|] eqn:Hx; [eauto|].
  apply lookup_ge_None in Hx. lia.
Qed.

(** A voxel index beyond the first axis of the volume, on either side,
    gives [None]. *)
Lemma get_structure_from_coordinates_beyond (self : ABA) (p0 : list Q)
    (just_acronym : bool) (i j k : Z) :
  voxel_of_point self p0 = [i; j; k] →
  i < - Z.of_nat (length (annotated_volume self))
  ∨ Z.of_nat (length (annotated_volume self)) ≤ i →
  get_structure_from_coordinates self p0 just_acronym = None.
Proof.
  intros Hv Hi. unfold get_structure_from_coordinates, lookup_voxel.
  rewrite Hv. simpl. unfold np_getitem3.
  rewrite np_axis_beyond by exact Hi. reflexivity.
Qed.

(** A point of fewer than three coordinates gives [None]. *)
Lemma get_structure_from_coordinates_short (self : ABA) (p0 : list Q)
    (just_acronym : bool) :
  (length p0 < 3)%nat → get_structure_from_coordinates self p0 just_acronym = None.
Proof.
  intros Hlen. unfold get_structure_from_coordinates, lookup_voxel, voxel_of_point.
  destruct p0 as [|x [|y [|z p0]]]; simpl in *; try reflexivity. lia.
Qed.

(** C3: a point whose first voxel index [i] is negative, but not below
    minus the size [d] of the first axis of the volume, is outside the
    volume and yet is not answered with [None]: no [IndexError] is raised
    on that axis, and the lookup answers as it does for a point of voxel
    index [i + d]. *)
Theorem get_structure_from_coordinates_negative_index (self : ABA)
    (p0 p1 : list Q) (just_acronym : bool) (i j k : Z) :
  voxel_of_point self p0 = [i; j; k] →
  - Z.of_nat (length (annotated_volume self)) ≤ i < 0 →
  voxel_of_point self p1 = [i + Z.of_nat (length (annotated_volume self)); j; k] →
  (∃ plane, np_axis (annotated_volume self) i = Ok plane)
  ∧ lookup_voxel self [i; j; k]
    = lookup_voxel self [i + Z.of_nat (length (annotated_volume self)); j; k]
  ∧ get_structure_from_coordinates self p0 just_acronym
    = get_structure_from_coordinates self p1 just_acronym.
Proof.
  intros Hv0 Hi Hv1.
  assert (Hlook : lookup_voxel self [i; j; k]
                  = lookup_voxel self [i + Z.of_nat (length (annotated_volume self)); j; k]).
  { unfold lookup_voxel. simpl. unfold np_getitem3.
    rewrite (np_axis_negative _ i Hi). reflexivity. }
  split; [apply np_axis_negative_Ok; exact Hi|].
  split; [exact Hlook|].
  unfold get_structure_from_coordinates. rewrite Hv0, Hv1, Hlook. reflexivity.
Qed.

(** The point (-25, 0, 0) has the voxel index (-1, 0, 0) and is answered
    with the thalamus, as the point (25, 0, 0) of the last plane is. *)
Lemma get_structure_from_coordinates_negative_index_witness :
  voxel_of_point Examples.atlas [-25; 0; 0]%Q = [-1; 0; 0]
  ∧ get_structure_from_coordinates Examples.atlas [-25; 0; 0]%Q true
    = Some (Acronym "TH")
  ∧ (∃ plane, np_axis (annotated_volume Examples.atlas) (-1) = Ok plane)
  ∧ lookup_voxel Examples.atlas [-1; 0; 0] = lookup_voxel Examples.atlas [1; 0; 0]
  ∧ get_structure_from_coordinates Examples.atlas [-25; 0; 0]%Q true
    = get_structure_from_coordinates Examples.atlas [25; 0; 0]%Q true.
Proof.
  split; [reflexivity|]. split; [reflexivity|].
  apply (get_structure_from_coordinates_negative_index Examples.atlas
           [-25; 0; 0]%Q [25; 0; 0]%Q true (-1) 0 0).
  - reflexivity.
  - simpl. lia.
  - reflexivity.
Defined.

(** ** Hemispheres *)

Lemma Qltb_lt (a b : Q) : Qltb a b = true ↔ (a < b)%Q.
Proof.
  unfold Qltb. rewrite Qlt_alt.
  destruct (a ?= b)%Q; split; congruence.
Qed.

Lemma Qltb_ge (a b : Q) : Qltb a b = false ↔ (b <= a)%Q.
Proof.
  split.
  - intros Hf. apply Qnot_lt_le. intros Hlt. apply Qltb_lt in Hlt. congruence.
  - intros Hle. destruct (Qltb a b) eqn:Hb; [|reflexivity].
    apply Qltb_lt in Hb. lra.
Qed.

Lemma getitem_Some {A} (l : list A) (i : nat) (x : A) :
  l !! i = Some x → getitem l i = Ok x.
Proof. intros Hx. unfold getitem. rewrite Hx. reflexivity. Qed.

Lemma get_hemisphere_from_point_eq (self : ABA) (point : list Q) (z m : Q) :
  point !! 2%nat = Some z → _root_midpoint self !! 2%nat = Some m →
  get_hemisphere_from_point self point = Ok (if Qltb z m then "left" else "right").
Proof.
  intros Hz Hm. unfold get_hemisphere_from_point.
  rewrite (getitem_Some _ _ _ Hz), (getitem_Some _ _ _ Hm). reflexivity.
Qed.

Lemma get_hemispere_from_point_eq (self : ABA) (p0 : list Q) (z m : Q) :
  p0 !! 2%nat = Some z → _root_midpoint self !! 2%nat = Some m →
  get_hemispere_from_point self p0 = Ok (if Qltb m z then "right" else "left").
Proof.
  intros Hz Hm. unfold get_hemispere_from_point.
  rewrite (getitem_Some _ _ _ Hz), (getitem_Some _ _ _ Hm). reflexivity.
Qed.

Lemma mirror_point_eq (self : ABA) (point : list Q) (z m : Q) :
  point !! 2%nat = Some z → _root_midpoint self !! 2%nat = Some m →
  mirror_point_across_hemispheres self point
  = Ok (<[2%nat := float_sub m (float_sub z m)]> point).
Proof.
  intros Hz Hm. unfold mirror_point_across_hemispheres.
  rewrite (getitem_Some _ _ _ Hz), (getitem_Some _ _ _ Hm). reflexivity.
Qed.

Lemma Forall2_Qeq_refl (l : list Q) : Forall2 Qeq l l.
Proof. induction l; constructor; [reflexivity | assumption]. Qed.

(** *** Subtraction in float64 *)

#[global] Instance float_sub_proper : Proper (Qeq ==> Qeq ==> Qeq) float_sub.
Proof.
  intros a a' Ha b b' Hb. unfold float_sub. rewrite Ha, Hb. reflexivity.
Qed.

(** A subtraction of float64 numbers whose exact result is a float64 is
    exact. *)
Lemma float_sub_exact (a b : Q) :
  is_double a → is_double b → is_double (a - b) → (float_sub a b == a - b)%Q.
Proof.
  intros [Ha _] [Hb _] [Hab _]. unfold float_sub. rewrite Ha, Hb. exact Hab.
Qed.

Lemma is_double_comp (x y : Q) : (x == y)%Q → is_double x → is_double y.
Proof.
  intros Hxy [H1 H2]. split; rewrite <- Hxy; assumption.
Qed.

Lemma is_double_opp (x : Q) : is_double x → is_double (- x).
Proof.
  intros [H1 H2]. split.
  - rewrite fl_opp, H1. reflexivity.
  - rewrite Qabs_opp. exact H2.
Qed.

Lemma float_sub_le_0 (a b : Q) : (a <= b)%Q → (float_sub a b <= 0)%Q.
Proof.
  intros Hab. unfold float_sub.
  assert (H : (fl (fl a - fl b) <= fl 0)%Q).
  { apply fl_mono. pose proof (fl_mono a b Hab). lra. }
  rewrite (fl_zero 0) in H by reflexivity. exact H.
Qed.

Lemma float_sub_ge_0 (a b : Q) : (b <= a)%Q → (0 <= float_sub a b)%Q.
Proof.
  intros Hab. unfold float_sub. apply fl_nonneg.
  pose proof (fl_mono b a Hab). lra.
Qed.

Lemma float_sub_idem (a b : Q) : (fl (float_sub a b) == float_sub a b)%Q.
Proof. unfold float_sub. apply fl_idem. Qed.
(** *** Mirroring *)

(** A number [k * 2^j] with [|k| < 2^53] and [-1074 <= j <= 970] is a
    finite float64: so are the integers and the halves of integers below
    [2^52]. *)
Lemma is_double_dyadic (x : Q) (k j : Z) :
  (x == inject_Z k * 2 ^ j)%Q → Z.abs k < 2 ^ 53 → -1074 ≤ j ≤ 970 → is_double x.
Proof.
  intros Hx Hk Hj. split; [apply (fl_exact x k j); [exact Hx|exact Hk|lia]|].
  rewrite Hx, Qabs_Qmult, (Qabs_pos (2 ^ j)) by (apply Qlt_le_weak, pow2_pos).
  assert (Hi : (Qabs (inject_Z k) == inject_Z (Z.abs k))%Q) by reflexivity.
  rewrite Hi.
  apply Qlt_le_trans with (2 ^ 53 * 2 ^ j)%Q.
  - rewrite <- (pow2_inject 53) by lia.
    apply Qmult_lt_compat_r; [apply pow2_pos|]. rewrite <- Zlt_Qlt. exact Hk.
  - rewrite <- pow2_plus. apply pow2_le. lia.
Qed.

(** Coordinates and a midline that are halves of integers below [2^50]
    are mirrored exactly. *)
Lemma half_integers_mirror_exactly (a b : Z) :
  Z.abs a < 2 ^ 51 → Z.abs b < 2 ^ 51 →
  is_double (inject_Z a / 2)
  ∧ is_double (inject_Z b / 2)
  ∧ is_double (inject_Z a / 2 - inject_Z b / 2)
  ∧ is_double (inject_Z b / 2 - (inject_Z a / 2 - inject_Z b / 2)).
Proof.
  intros Ha Hb.
  assert (Hhalf : (2 ^ (-1) == 1 # 2)%Q) by reflexivity.
  split; [|split; [|split]].
  - apply (is_double_dyadic _ a (-1)); [rewrite Hhalf; field|lia|lia].
  - apply (is_double_dyadic _ b (-1)); [rewrite Hhalf; field|lia|lia].
  - apply (is_double_dyadic _ (a - b) (-1)); [|lia|lia].
    unfold Z.sub. rewrite inject_Z_plus, inject_Z_opp, Hhalf. field.
  - apply (is_double_dyadic _ (2 * b - a) (-1)); [|lia|lia].
    unfold Z.sub. rewrite inject_Z_plus, inject_Z_opp, inject_Z_mult, Hhalf.
    change (inject_Z 2) with 2%Q. field.
Qed.




(** C9, as the code has it: the third coordinate is compared with the
    midline [_root_midpoint[2]], below it is "left" and above it "right".
    With a midline of 3600 the coordinate 3000 is left, 4200 is right and
    3000 is mirrored to 4200.  The midline of the class [ABA] is the mean
    of 486 and 10891, that is 5688.5: there 3000 and 4200 are both left and
    3000 is mirrored to 8377. *)
Theorem get_hemisphere_from_point_midline (self : ABA) (point : list Q) (z m : Q) :
  point !! 2%nat = Some z →
  _root_midpoint self !! 2%nat = Some m →
  ((z < m)%Q → get_hemisphere_from_point self point = Ok "left")
  ∧ ((m < z)%Q → get_hemisphere_from_point self point = Ok "right")
  ∧ ((m == 3600)%Q →
       ((z == 3000)%Q →
          get_hemisphere_from_point self point = Ok "left"
          ∧ ∃ p z1, mirror_point_across_hemispheres self point = Ok p
                    ∧ p !! 2%nat = Some z1 ∧ (z1 == 4200)%Q)
       ∧ ((z == 4200)%Q → get_hemisphere_from_point self point = Ok "right"))
  ∧ (_root_midpoint self = ABA_root_midpoint →
       (m == 11377 # 2)%Q
       ∧ ((z == 3000)%Q →
            get_hemisphere_from_point self point = Ok "left"
            ∧ ∃ p z1, mirror_point_across_hemispheres self point = Ok p
                      ∧ p !! 2%nat = Some z1 ∧ (z1 == 8377)%Q)
       ∧ ((z == 4200)%Q → get_hemisphere_from_point self point = Ok "left")).
Proof.
  intros Hz Hm.
  assert (Hlen : (2 < length point)%nat) by (eapply lookup_lt_Some; exact Hz).
  assert (Hleft : (z < m)%Q → get_hemisphere_from_point self point = Ok "left").
  { intros Hlt. rewrite (get_hemisphere_from_point_eq self point z m Hz Hm).
    apply Qltb_lt in Hlt. rewrite Hlt. reflexivity. }
  assert (Hright : (m <= z)%Q → get_hemisphere_from_point self point = Ok "right").
  { intros Hle. rewrite (get_hemisphere_from_point_eq self point z m Hz Hm).
    apply Qltb_ge in Hle. rewrite Hle. reflexivity. }
  assert (Hmirror : ∃ p z1, mirror_point_across_hemispheres self point = Ok p
                            ∧ p !! 2%nat = Some z1
                            ∧ (z1 == float_sub m (float_sub z m))%Q).
  { exists (<[2%nat := float_sub m (float_sub z m)]> point),
      (float_sub m (float_sub z m)).
    split; [apply mirror_point_eq; assumption|].
    split; [apply list_lookup_insert_eq; exact Hlen | reflexivity]. }
  split; [exact Hleft|].
  split; [intros Hlt; apply Hright; lra|].
  split.
  - intros Hm3600. split.
    + intros Hz3000. split; [apply Hleft; lra|].
      destruct Hmirror as (p & z1 & Hp & Hp2 & Hz1).
      exists p, z1. repeat split; [assumption..|].
      rewrite Hz1, Hm3600, Hz3000. vm_compute. reflexivity.
    + intros Hz4200. apply Hright. lra.
  - intros Hclass. rewrite Hclass in Hm. simpl in Hm. injection Hm as <-.
    assert (Hmid : (np_mean [486; 10891]%Q == 11377 # 2)%Q) by reflexivity.
    split; [exact Hmid|]. split.
    + intros Hz3000. split; [apply Hleft; lra|].
      destruct Hmirror as (p & z1 & Hp & Hp2 & Hz1).
      exists p, z1. repeat split; [assumption..|].
      rewrite Hz1, Hz3000. vm_compute. reflexivity.
    + intros Hz4200. apply Hleft. lra.
Qed.

Lemma get_hemisphere_from_point_midline_witness :
  (get_hemisphere_from_point Examples.midline_3600 [0; 0; 3000]%Q = Ok "left"
   ∧ ∃ p z1, mirror_point_across_hemispheres Examples.midline_3600 [0; 0; 3000]%Q = Ok p
             ∧ p !! 2%nat = Some z1 ∧ (z1 == 4200)%Q)
  ∧ get_hemisphere_from_point Examples.midline_3600 [0; 0; 4200]%Q = Ok "right"
  ∧ get_hemisphere_from_point Examples.atlas [0; 0; 4200]%Q = Ok "left".
Proof.
  split; [|split].
  - apply (get_hemisphere_from_point_midline Examples.midline_3600 [0; 0; 3000]%Q 3000 3600);
      reflexivity.
  - apply (get_hemisphere_from_point_midline Examples.midline_3600 [0; 0; 4200]%Q 4200 3600);
      reflexivity.
  - apply (get_hemisphere_from_point_midline Examples.atlas [0; 0; 4200]%Q 4200
             (np_mean [486; 10891]%Q)); reflexivity.
Defined.

(** C9, the claim as stated fails: with [_root_midpoint[2]] of the class, a
    point of third coordinate 4200 is "left", and 3000 is mirrored to 8377. *)
Lemma get_hemisphere_from_point_4200 :
  get_hemisphere_from_point Examples.atlas [0; 0; 4200]%Q = Ok "left"
  ∧ get_hemisphere_from_point Examples.atlas [0; 0; 4200]%Q ≠ Ok "right"
  ∧ ∃ z1, mirror_point_across_hemispheres Examples.atlas [0; 0; 3000]%Q = Ok [0; 0; z1]%Q
          ∧ (z1 == 8377)%Q ∧ ¬ (z1 == 4200)%Q.
Proof.
  split; [reflexivity|]. split; [discriminate|].
  eexists. split; [reflexivity|]. split; [reflexivity|].
  intros Heq. vm_compute in Heq. discriminate.
Qed.

(** C10: the two operations that classify a point disagree on the
    midline, where [get_hemisphere_from_point] answers "right" and
    [get_hemispere_from_point] answers "left"; off the midline they agree,
    "left" below it and "right" above it. *)
Theorem hemisphere_operations_differ_on_midline (self : ABA) (point : list Q)
    (z m : Q) :
  point !! 2%nat = Some z →
  _root_midpoint self !! 2%nat = Some m →
  ((z == m)%Q →
     get_hemisphere_from_point self point = Ok "right"
     ∧ get_hemispere_from_point self point = Ok "left"
     ∧ get_hemisphere_from_point self point ≠ get_hemispere_from_point self point)
  ∧ ((z < m)%Q →
       get_hemisphere_from_point self point = Ok "left"
       ∧ get_hemispere_from_point self point = Ok "left")
  ∧ ((m < z)%Q →
       get_hemisphere_from_point self point = Ok "right"
       ∧ get_hemispere_from_point self point = Ok "right").
Proof.
  intros Hz Hm.
  rewrite (get_hemisphere_from_point_eq self point z m Hz Hm).
  rewrite (get_hemispere_from_point_eq self point z m Hz Hm).
  split; [|split]; intros Hcmp.
  - assert (H1 : Qltb z m = false) by (apply Qltb_ge; lra).
    assert (H2 : Qltb m z = false) by (apply Qltb_ge; lra).
    rewrite H1, H2. split; [reflexivity|]. split; [reflexivity|discriminate].
  - assert (H1 : Qltb z m = true) by (apply Qltb_lt; exact Hcmp).
    assert (H2 : Qltb m z = false) by (apply Qltb_ge; lra).
    rewrite H1, H2. split; reflexivity.
  - assert (H1 : Qltb z m = false) by (apply Qltb_ge; lra).
    assert (H2 : Qltb m z = true) by (apply Qltb_lt; exact Hcmp).
    rewrite H1, H2. split; reflexivity.
Qed.

(** On the midline of the class, at the third coordinate 5688.5, the two
    operations give different answers. *)
Lemma hemisphere_operations_differ_on_midline_witness :
  get_hemisphere_from_point Examples.atlas [0; 0; 11377 # 2]%Q = Ok "right"
  ∧ get_hemispere_from_point Examples.atlas [0; 0; 11377 # 2]%Q = Ok "left"
  ∧ get_hemisphere_from_point Examples.atlas [0; 0; 11377 # 2]%Q
    ≠ get_hemispere_from_point Examples.atlas [0; 0; 11377 # 2]%Q.
Proof.
  apply (hemisphere_operations_differ_on_midline Examples.atlas [0; 0; 11377 # 2]%Q
           (11377 # 2) (np_mean [486; 10891]%Q)); reflexivity.
Defined.

(** ** get_neurons *)

Lemma raises_Raise {A} (e : exn) : raises (@Raise A e).
Proof. exists e. reflexivity. Qed.

Lemma raises_not_Ok {A} (m : result A) (a : A) : raises m → m ≠ Ok a.
Proof. intros [e ->]. discriminate. Qed.

Lemma bind_Ok {A B} (a : A) (f : A → result B) : Ok a ≫= f = f a.
Proof. reflexivity. Qed.

Lemma raises_bind {A B} (m : result A) (f : A → result B) :
  raises m → raises (m ≫= f).
Proof. intros [e ->]. exists e. reflexivity. Qed.

Lemma for_each_raises {A B} (f : A → result B) (l : list A) (x : A) :
  x ∈ l → raises (f x) → raises (for_each f l).
Proof.
  intros Hin Hx. induction l as [|y l IH]; simpl.
  - inversion Hin.
  - destruct (f y) as [b|e] eqn:Hy; simpl; [|apply raises_Raise].
    apply elem_of_cons in Hin as [->|Hin].
    + destruct Hx as [e He]. congruence.
    + apply raises_bind. apply IH. exact Hin.
Qed.

Lemma remove_dups_same {A} `{EqDecision A} (x : A) (l : list A) :
  Forall (λ y, y = x) l → (length (remove_dups l) ≤ 1)%nat.
Proof.
  induction l as [|y l IH]; simpl; [lia|].
  intros Hall. apply Forall_cons in Hall as [Hy Hl]. subst y.
  specialize (IH Hl).
  destruct (decide_rel elem_of x l) as [Hin|Hnin]; [exact IH|].
  destruct l as [|z l]; simpl; [lia|].
  exfalso. apply Hnin. apply Forall_cons in Hl as [-> _]. left.
Qed.

Section NeuronsProperties.
Context `{Imports}.

Lemma dict_dendrites_apical_only (d : gmap string pyval) (ap : pyval) :
  d !! "apical_dendrites" = Some ap →
  d !! "basal_dendrites" = None →
  dict_dendrites (PDict d) = Ok ap.
Proof.
  intros Hap Hba. unfold dict_dendrites. simpl.
  rewrite Hap, Hba. reflexivity.
Qed.

Lemma dict_dendrites_basal_only (d : gmap string pyval) (ba : pyval) :
  d !! "apical_dendrites" = None →
  d !! "basal_dendrites" = Some ba →
  dict_dendrites (PDict d) = Ok ba.
Proof.
  intros Hap Hba. unfold dict_dendrites. simpl.
  rewrite Hap, Hba. reflexivity.
Qed.

Lemma dict_dendrites_neither (d : gmap string pyval) :
  d !! "apical_dendrites" = None →
  d !! "basal_dendrites" = None →
  dict_dendrites (PDict d) = Ok (default PNone (d !! "dendrites")).
Proof.
  intros Hap Hba. unfold dict_dendrites. simpl.
  rewrite Hap, Hba. reflexivity.
Qed.

Lemma dict_dendrites_both (d : gmap string pyval) (ap ba : pyval) :
  d !! "apical_dendrites" = Some ap →
  d !! "basal_dendrites" = Some ba →
  dict_dendrites (PDict d) = (merge ap ba ≫= λ _, Raise NameError).
Proof.
  intros Hap Hba. unfold dict_dendrites. simpl.
  rewrite Hap, Hba. reflexivity.
Qed.

Lemma render_neuron_raises (da dd : bool) (rad neuron : pyval) :
  raises (neuron_actors_of rad neuron) → raises (render_neuron da dd rad neuron).
Proof. intros Hr. unfold render_neuron. apply raises_bind. exact Hr. Qed.

Lemma get_neurons_raises_at (neurons color : pyval) (da dd : bool) (rad : pyval)
    (σ : actor_colors) (neuron : pyval) :
  neuron ∈ as_neuron_list neurons →
  raises (neuron_actors_of rad neuron) →
  raises (get_neurons neurons color da dd rad σ).
Proof.
  intros Hin Hr. unfold get_neurons.
  destruct (prepare_colors _ color) as [colors|e]; simpl; [|apply raises_Raise].
  apply raises_bind.
  apply (for_each_raises _ _ neuron Hin).
  apply render_neuron_raises. exact Hr.
Qed.

(** C1: for a neuron given as a dict with the key "apical_dendrites", the
    dendrites of the record are the apical part itself when there is no
    "basal_dendrites"; when both keys are there the code does not merge
    them: the neuron, and with it the whole call, ends in an exception,
    [NameError] once [merge] has returned. *)
Theorem get_neurons_dict_dendrites (d : gmap string pyval) (ap rad : pyval) :
  d !! "apical_dendrites" = Some ap →
  (d !! "basal_dendrites" = None →
     neuron_actors_of rad (PDict d)
     = Ok {| soma := default PNone (d !! "soma");
             axon := default PNone (d !! "axon");
             dendrites := ap |})
  ∧ (∀ ba, d !! "basal_dendrites" = Some ba →
       raises (neuron_actors_of rad (PDict d))
       ∧ (∀ merged, merge ap ba = Ok merged →
            neuron_actors_of rad (PDict d) = Raise NameError)
       ∧ (∀ neurons color da dd σ,
            PDict d ∈ as_neuron_list neurons →
            raises (get_neurons neurons color da dd rad σ))).
Proof.
  intros Hap. split.
  - intros Hba. unfold neuron_actors_of. simpl.
    rewrite (dict_dendrites_apical_only d ap Hap Hba). reflexivity.
  - intros ba Hba.
    assert (Hn : neuron_actors_of rad (PDict d)
                 = (merge ap ba ≫= λ _, Raise NameError)).
    { unfold neuron_actors_of. simpl.
      rewrite (dict_dendrites_both d ap ba Hap Hba).
      destruct (merge ap ba); reflexivity. }
    assert (Hr : raises (neuron_actors_of rad (PDict d))).
    { rewrite Hn. destruct (merge ap ba) as [m|e]; simpl; apply raises_Raise. }
    split; [exact Hr|]. split.
    + intros merged Hm. rewrite Hn, Hm. reflexivity.
    + intros neurons color da dd σ Hin.
      apply (get_neurons_raises_at _ _ _ _ _ _ (PDict d) Hin Hr).
Qed.

Lemma prepare_colors_length_mismatch (N : nat) (color : pyval) (l : list pyval) :
  color = PList l ∨ color = PTuple l →
  length l ≠ N →
  prepare_colors N color = Raise ValueError.
Proof.
  intros [-> | ->] Hlen; unfold prepare_colors; simpl;
    destruct (decide (length l ≠ N)); [reflexivity|contradiction|reflexivity|contradiction].
Qed.

Lemma get_neurons_length_mismatch (neurons color : pyval) (l : list pyval)
    (da dd : bool) (rad : pyval) (σ : actor_colors) :
  color = PList l ∨ color = PTuple l →
  length l ≠ length (as_neuron_list neurons) →
  get_neurons neurons color da dd rad σ = Raise ValueError.
Proof.
  intros Hc Hlen. unfold get_neurons.
  rewrite (prepare_colors_length_mismatch _ color l Hc Hlen). reflexivity.
Qed.

Lemma is_color_dict_type (c : pyval) : is_color_dict c → type_of c = TDict.
Proof. intros (d & -> & _). reflexivity. Qed.

Lemma prepare_colors_list_of_dicts (N : nat) (l : list pyval) :
  length l = N →
  Forall is_color_dict l →
  prepare_colors N (PList l)
  = Raise (if decide (l = []) then IndexError else AttributeError).
Proof.
  intros Hlen Hall. unfold prepare_colors. simpl.
  destruct (decide (length l ≠ N)) as [?|_]; [contradiction|].
  assert (Hty : (length (remove_dups (type_of <$> l)) ≤ 1)%nat).
  { apply (remove_dups_same TDict). apply Forall_fmap.
    eapply Forall_impl; [exact Hall|]. intros c Hc. apply is_color_dict_type, Hc. }
  destruct (decide (1 < length (remove_dups (type_of <$> l)))%nat) as [?|_]; [lia|].
  destruct l as [|c0 l]; simpl; [reflexivity|].
  inversion Hall as [|? ? (d & -> & _) _]; subst.
  reflexivity.
Qed.

(** C2: with a list of [N] dicts of colours, each with the key "soma", as
    [color], the call does not complete: the loop over the dicts runs over
    the keys of [colors] instead, and asks the string "soma" for its keys;
    with no neuron at all, [color[0]] does not exist. *)
Theorem get_neurons_list_of_dicts (neurons : pyval) (l : list pyval)
    (da dd : bool) (rad : pyval) (σ : actor_colors) :
  length l = length (as_neuron_list neurons) →
  Forall is_color_dict l →
  get_neurons neurons (PList l) da dd rad σ
  = Raise (if decide (l = []) then IndexError else AttributeError).
Proof.
  intros Hlen Hall. unfold get_neurons.
  rewrite (prepare_colors_list_of_dicts _ l Hlen Hall). reflexivity.
Qed.

End NeuronsProperties.

(** *** Colouring *)

Lemma set_color_Ok (σ σ' : actor_colors) (part : pyval) (col : result pyval) :
  set_color σ part col = Ok σ' →
  ∃ a c, part = PActor a ∧ col = Ok c ∧ σ' = <[a := c]> σ.
Proof.
  unfold set_color. destruct part; try discriminate.
  destruct col as [c|e]; simpl; [|discriminate].
  intros [= <-]. eauto.
Qed.

Lemma has_color_insert (σ : actor_colors) (a : actor) (c : pyval) :
  has_color (<[a := c]> σ) (PActor a).
Proof. exists a. split; [reflexivity|]. rewrite lookup_insert_eq. eauto. Qed.

Lemma is_Some_insert_mono (σ : actor_colors) (a b : actor) (c : pyval) :
  is_Some (σ !! b) → is_Some (<[a := c]> σ !! b).
Proof.
  intros Hb. destruct (decide (a = b)) as [->|Hne].
  - rewrite lookup_insert_eq. eauto.
  - rewrite lookup_insert_ne by exact Hne. exact Hb.
Qed.

Lemma has_color_mono (σ σ' : actor_colors) (part : pyval) :
  (∀ a, is_Some (σ !! a) → is_Some (σ' !! a)) →
  has_color σ part → has_color σ' part.
Proof. intros Hmono (a & -> & Ha). exists a. split; [reflexivity|]. apply Hmono, Ha. Qed.

Lemma colored_mono (σ σ' : actor_colors) (r : parts) :
  (∀ a, is_Some (σ !! a) → is_Some (σ' !! a)) →
  colored σ r → colored σ' r.
Proof.
  intros Hmono (Hs & Ha & Hd). split; [|split].
  - eapply has_color_mono; eauto.
  - destruct Ha as [?|Ha]; [left; assumption|right; eapply has_color_mono; eauto].
  - destruct Hd as [?|Hd]; [left; assumption|right; eapply has_color_mono; eauto].
Qed.

Section ColoringProperties.
Context `{Imports}.

Lemma color_neuron_colored (colors : parts) (σ σ' : actor_colors) (n : nat)
    (r : parts) :
  color_neuron colors σ n r = Ok σ' →
  colored σ' r ∧ (∀ a, is_Some (σ !! a) → is_Some (σ' !! a)).
Proof.
  unfold color_neuron. intros Hc.
  (* the axon *)
  destruct (if negb (is_none (axon r))
            then set_color σ (axon r) (py_getitem (axon colors) n)
            else mret σ) as [σ1|e] eqn:Hax; simpl in Hc; [|discriminate].
  assert (Hσ1 : (axon r = PNone ∨ has_color σ1 (axon r))
                ∧ ∀ a, is_Some (σ !! a) → is_Some (σ1 !! a)).
  { destruct (is_none (axon r)) eqn:Hn; simpl in Hax.
    - injection Hax as <-. split; [left|intros a Ha; exact Ha].
      destruct (axon r); try discriminate. reflexivity.
    - apply set_color_Ok in Hax as (a & c & Hpa & _ & ->).
      split; [right; rewrite Hpa; apply has_color_insert|].
      intros b Hb. apply is_Some_insert_mono, Hb. }
  destruct Hσ1 as [Haxon Hm1].
  (* the soma *)
  destruct (set_color σ1 (soma r) (py_getitem (soma colors) n)) as [σ2|e] eqn:Hso;
    simpl in Hc; [|discriminate].
  apply set_color_Ok in Hso as (a & c & Hps & _ & ->).
  assert (Hm2 : ∀ b, is_Some (σ1 !! b) → is_Some (<[a := c]> σ1 !! b))
    by (intros b Hb; apply is_Some_insert_mono, Hb).
  assert (Hsoma : has_color (<[a := c]> σ1) (soma r))
    by (rewrite Hps; apply has_color_insert).
  (* the dendrites *)
  destruct (is_none (dendrites r)) eqn:Hn; simpl in Hc.
  - injection Hc as <-. split.
    + split; [exact Hsoma|]. split.
      * destruct Haxon as [?|Ha]; [left; assumption|].
        right. eapply has_color_mono; eauto.
      * left. destruct (dendrites r); try discriminate. reflexivity.
    + intros b Hb. apply Hm2, Hm1, Hb.
  - apply set_color_Ok in Hc as (a' & c' & Hpd & _ & ->).
    assert (Hm3 : ∀ b, is_Some (<[a := c]> σ1 !! b)
                       → is_Some (<[a' := c']> (<[a := c]> σ1) !! b))
      by (intros b Hb; apply is_Some_insert_mono, Hb).
    split.
    + split; [eapply has_color_mono; eauto|]. split.
      * destruct Haxon as [?|Ha]; [left; assumption|].
        right. eapply has_color_mono; [|exact Ha].
        intros b Hb. apply Hm3, Hm2, Hb.
      * right. rewrite Hpd. apply has_color_insert.
    + intros b Hb. apply Hm3, Hm2, Hm1, Hb.
Qed.

Lemma for_enumerate_colored (colors : parts) (recs : list parts) :
  ∀ (i : nat) (σ σ' : actor_colors),
    for_enumerate (color_neuron colors) i recs σ = Ok σ' →
    Forall (colored σ') recs ∧ (∀ a, is_Some (σ !! a) → is_Some (σ' !! a)).
Proof.
  induction recs as [|r recs IH]; intros i σ σ'; simpl.
  - intros [= <-]. split; [constructor|tauto].
  - destruct (color_neuron colors σ i r) as [σ1|e] eqn:Hr; simpl; [|discriminate].
    intros Hrest.
    apply color_neuron_colored in Hr as [Hcol Hm1].
    apply IH in Hrest as [Hall Hm2].
    split.
    + constructor; [|exact Hall]. eapply colored_mono; eauto.
    + intros a Ha. apply Hm2, Hm1, Ha.
Qed.

(** After the rendering loop, every part of a record is [None] or an
    actor, and a part switched off is [None]. *)
Lemma render_neuron_parts (da dd : bool) (rad neuron : pyval) (r : parts) :
  render_neuron da dd rad neuron = Ok r →
  (da = false → axon r = PNone) ∧ (dd = false → dendrites r = PNone).
Proof.
  unfold render_neuron.
  destruct (neuron_actors_of rad neuron) as [na|e]; simpl; [|discriminate].
  destruct (check_actor (soma na)); simpl; [|discriminate].
  destruct (check_actor (dendrites na)); simpl; [|discriminate].
  destruct (check_actor (axon na)); simpl; [|discriminate].
  intros [= <-].
  split; intros ->; simpl; [destruct dd|]; reflexivity.
Qed.

(** The [return] at the end of [get_neurons]. *)
Lemma get_neurons_return (recs : list parts) (σ : actor_colors) :
  (if decide (length recs = 1%nat) then
     r ← getitem recs 0; mret (RTuple (RNeuron r) RNone, σ)
   else if decide (recs = []) then mret (RTuple RNone RNone, σ)
   else mret (RTuple (RNeurons recs) RNone, σ))
  = Ok (RTuple (unwrapped recs) RNone, σ).
Proof. destruct recs as [|r [|r' recs]]; reflexivity. Qed.

(** *** Neurons given as actors, one colour name for all *)

Lemma for_each_const {A B} (b : B) (l : list A) :
  for_each (λ _, Ok b) l = Ok (replicate (length l) b).
Proof.
  induction l as [|x l IH]; simpl; [reflexivity|].
  rewrite IH. reflexivity.
Qed.

Lemma for_each_fmap {A B C} (f : B → result C) (g : A → B) (h : A → C)
    (l : list A) :
  (∀ x, f (g x) = Ok (h x)) → for_each f (g <$> l) = Ok (h <$> l).
Proof.
  intros Hf. induction l as [|x l IH]; [reflexivity|].
  rewrite !fmap_cons. cbn [for_each].
  rewrite Hf, IH. reflexivity.
Qed.

Lemma prepare_colors_name (N : nat) (c : string) (col : pyval) :
  c ∉ _mapscales_cmaps →
  getColor c = Ok col →
  prepare_colors N (PStr c)
  = Ok {| soma := PList (replicate N col);
          axon := PList (replicate N col);
          dendrites := PList (replicate N col) |}.
Proof.
  intros Hc Hcol. unfold prepare_colors.
  destruct (decide (c ∈ _mapscales_cmaps)) as [?|_]; [contradiction|].
  rewrite Hcol, for_each_const, length_seq. simpl.
  unfold check_len. simpl. rewrite length_replicate.
  destruct (decide (N ≠ N)) as [?|_]; [congruence|]. reflexivity.
Qed.

Lemma render_neuron_actor (da dd : bool) (rad : pyval) (a : actor) :
  render_neuron da dd rad (PActor a) = Ok (soma_only a).
Proof. destruct da, dd; reflexivity. Qed.

Lemma render_neurons_actors (da dd : bool) (rad : pyval) (actors : list actor) :
  for_each (render_neuron da dd rad) (PActor <$> actors) = Ok (soma_only <$> actors).
Proof.
  apply for_each_fmap. intros a. apply render_neuron_actor.
Qed.

Lemma color_neuron_actor (N : nat) (col : pyval) (a : actor) (i : nat)
    (σ : actor_colors) :
  (i < N)%nat →
  color_neuron {| soma := PList (replicate N col);
                  axon := PList (replicate N col);
                  dendrites := PList (replicate N col) |} σ i (soma_only a)
  = Ok (<[a := col]> σ).
Proof.
  intros Hi. unfold color_neuron. simpl. unfold getitem.
  rewrite lookup_replicate_2 by exact Hi. reflexivity.
Qed.

Lemma color_neurons_actors (N : nat) (col : pyval) (actors : list actor) :
  ∀ (i : nat) (σ : actor_colors),
    (i + length actors ≤ N)%nat →
    for_enumerate
      (color_neuron {| soma := PList (replicate N col);
                       axon := PList (replicate N col);
                       dendrites := PList (replicate N col) |})
      i (soma_only <$> actors) σ
    = Ok (foldl (λ σ a, <[a := col]> σ) σ actors).
Proof.
  induction actors as [|a actors IH]; intros i σ Hi; [reflexivity|].
  rewrite fmap_cons. simpl in Hi. cbn [for_enumerate foldl].
  rewrite color_neuron_actor by lia.
  apply IH. lia.
Qed.

(** C6, as the code has it: a call that returns, returns a tuple of two
    values, the second always [None].  The first is built from one record
    per neuron, the record of the neuron at the same position, with its
    parts coloured and without the parts switched off: it is the record
    itself, not a list, for exactly one neuron, [None] for no neuron, and
    the list of the records otherwise.  The call does return when the
    neurons are actors and [color] is the name of one colour. *)
Theorem get_neurons_returns (neurons color : pyval) (da dd : bool) (rad : pyval)
    (σ : actor_colors) :
  (∀ v σ',
     get_neurons neurons color da dd rad σ = Ok (v, σ') →
     ∃ recs,
       Forall2 (λ n r, render_neuron da dd rad n = Ok r) (as_neuron_list neurons) recs
       ∧ length recs = length (as_neuron_list neurons)
       ∧ Forall (colored σ') recs
       ∧ Forall (λ r, (da = false → axon r = PNone)
                      ∧ (dd = false → dendrites r = PNone)) recs
       ∧ v = RTuple (unwrapped recs) RNone)
  ∧ (∀ actors c col,
       neurons = PList (PActor <$> actors) →
       color = PStr c →
       c ∉ _mapscales_cmaps →
       getColor c = Ok col →
       get_neurons neurons color da dd rad σ
       = Ok (RTuple (unwrapped (soma_only <$> actors)) RNone,
             foldl (λ σ a, <[a := col]> σ) σ actors)).
Proof.
  split.
  - unfold get_neurons. intros v σ' Hg.
    destruct (prepare_colors _ color) as [colors|e]; simpl in Hg; [|discriminate].
    destruct (for_each _ (as_neuron_list neurons)) as [recs|e] eqn:Hrecs;
      simpl in Hg; [|discriminate].
    destruct (for_enumerate _ 0%nat recs σ) as [σ1|e] eqn:Hcol;
      simpl in Hg; [|discriminate].
    rewrite get_neurons_return in Hg. injection Hg as <- <-.
    apply for_each_Forall2 in Hrecs.
    exists recs.
    split; [exact Hrecs|].
    split; [symmetry; eapply Forall2_length; exact Hrecs|].
    split; [apply for_enumerate_colored in Hcol as [Hall _]; exact Hall|].
    split; [|reflexivity].
    apply Forall_forall. intros r Hr.
    apply list_elem_of_lookup in Hr as [n Hn].
    destruct (Forall2_lookup_r _ _ _ _ _ Hrecs Hn) as (neuron & _ & Hrender).
    eapply render_neuron_parts. exact Hrender.
  - intros actors c col -> -> Hc Hcol. unfold get_neurons.
    cbn [as_neuron_list].
    rewrite (prepare_colors_name _ c col Hc Hcol), bind_Ok.
    rewrite render_neurons_actors, bind_Ok.
    rewrite color_neurons_actors by (rewrite length_fmap; lia).
    rewrite bind_Ok. apply get_neurons_return.
Qed.

End ColoringProperties.

Lemma get_neurons_dict_dendrites_witness :
  @neuron_actors_of Examples.imports PNone (PDict Examples.apical_only)
  = Ok {| soma := PActor 1; axon := PNone; dendrites := PActor 2 |}
  ∧ @neuron_actors_of Examples.imports PNone (PDict Examples.apical_and_basal)
    = Raise NameError
  ∧ raises (@get_neurons Examples.imports (PDict Examples.apical_and_basal)
              (PStr "red") true true PNone ∅).
Proof.
  split; [|split].
  - exact (proj1 (@get_neurons_dict_dendrites Examples.imports
                    Examples.apical_only (PActor 2) PNone eq_refl) eq_refl).
  - destruct (proj2 (@get_neurons_dict_dendrites Examples.imports
                       Examples.apical_and_basal (PActor 2) PNone eq_refl)
                (PActor 3) eq_refl) as (_ & Hname & _).
    exact (Hname (PActor 99) eq_refl).
  - destruct (proj2 (@get_neurons_dict_dendrites Examples.imports
                       Examples.apical_and_basal (PActor 2) PNone eq_refl)
                (PActor 3) eq_refl) as (_ & _ & Hcall).
    apply Hcall. simpl. left.
Defined.

Lemma get_neurons_list_of_dicts_witness :
  @get_neurons Examples.imports (PList [PActor 1; PActor 2])
    (PList [PDict {[ "soma" := PStr "red" ]};
            PDict {[ "soma" := PStr "blue"; "axon" := PStr "green" ]}])
    true true PNone ∅
  = Raise AttributeError.
Proof.
  apply (@get_neurons_list_of_dicts Examples.imports (PList [PActor 1; PActor 2])
           [PDict {[ "soma" := PStr "red" ]};
            PDict {[ "soma" := PStr "blue"; "axon" := PStr "green" ]}]).
  - reflexivity.
  - repeat constructor; eexists; (split; [reflexivity|]); vm_compute; eauto.
Defined.

(** The example of a single neuron with only a soma, no axon and no
    dendrites displayed; and two neurons given as actors. *)
Lemma get_neurons_returns_witness :
  (∃ recs,
     Forall2 (λ n r, @render_neuron Examples.imports false false PNone n = Ok r)
       [PDict {[ "soma" := PActor 1 ]}] recs
     ∧ length recs = 1%nat
     ∧ Forall (colored (<[1%positive := PStr "red"]> ∅)) recs
     ∧ Forall (λ r, (false = false → axon r = PNone)
                    ∧ (false = false → dendrites r = PNone)) recs
     ∧ RTuple (RNeuron (soma_only 1%positive)) RNone = RTuple (unwrapped recs) RNone)
  ∧ @get_neurons Examples.imports (PList [PActor 1; PActor 2]) (PStr "red")
      true true PNone ∅
    = Ok (RTuple (RNeurons [soma_only 1%positive; soma_only 2%positive]) RNone,
          <[2%positive := PStr "red"]> (<[1%positive := PStr "red"]> ∅)).
Proof.
  split.
  - apply (proj1 (@get_neurons_returns Examples.imports
                    (PDict {[ "soma" := PActor 1 ]}) (PStr "red") false false PNone ∅)).
    reflexivity.
  - apply (proj2 (@get_neurons_returns Examples.imports
                    (PList [PActor 1; PActor 2]) (PStr "red") true true PNone ∅)
             [1%positive; 2%positive] "red" (PStr "red")).
    + reflexivity.
    + reflexivity.
    + vm_compute. intros Hin. inversion Hin as [|? ? ? Hin']; subst.
      inversion Hin' as [|? ? ? Hin'']; subst. inversion Hin''.
    + reflexivity.
Defined.

(** C6, the claim as stated fails: what the call returns for no neuron is
    the tuple [(None, None)], not [None], and for one neuron the tuple of
    the record and [None], not the record. *)
Lemma get_neurons_returns_tuple :
  @get_neurons Examples.imports (PList []) (PStr "red") true true PNone ∅
  = Ok (RTuple RNone RNone, ∅)
  ∧ @get_neurons Examples.imports (PList []) (PStr "red") true true PNone ∅
    ≠ Ok (RNone, ∅)
  ∧ @get_neurons Examples.imports (PActor 1) (PStr "red") false false PNone ∅
    = Ok (RTuple (RNeuron (soma_only 1%positive)) RNone, <[1%positive := PStr "red"]> ∅)
  ∧ @get_neurons Examples.imports (PActor 1) (PStr "red") false false PNone ∅
    ≠ Ok (RNeuron (soma_only 1%positive), <[1%positive := PStr "red"]> ∅).
Proof.
  split; [reflexivity|]. split; [discriminate|].
  split; [reflexivity|]. discriminate.
Qed.

(** ** get_tractography *)

Section TractographyProperties.
Context `{Imports}.

(** An iteration of the loop only appends to [actors]. *)
Lemma tract_step_app (self : ABA) (color_by : string) (others_alpha : Q)
    (vip : list string) (incl : bool) (extract : extract_arg) (display : bool)
    (actors : list shape) (tc : tract_item * pyval) :
  tract_step self color_by others_alpha vip incl extract display actors tc
  = (tract_step self color_by others_alpha vip incl extract display [] tc
     ≫= λ shapes, Ok (actors ++ shapes)).
Proof.
  unfold tract_step. destruct tc as [it color].
  destruct (item_tract it) as [t|e]; simpl; [|reflexivity].
  destruct (tract_inj_structures self incl t) as [inj|e]; simpl; [|reflexivity].
  destruct (Qeq_bool _ 0); simpl; [rewrite app_nil_r; reflexivity|].
  destruct (check_injection_coords self extract t) as [keep|e]; simpl; [|reflexivity].
  destruct keep; simpl; [|rewrite app_nil_r; reflexivity].
  destruct display; simpl; [|reflexivity].
  rewrite <- app_assoc. reflexivity.
Qed.

(** The list built by the loop is the shapes of the records, one record
    after the other. *)
Lemma tract_loop_concat (self : ABA) (color_by : string) (others_alpha : Q)
    (vip : list string) (incl : bool) (extract : extract_arg) (display : bool)
    (l : list (tract_item * pyval)) :
  ∀ actors result,
    for_fold (tract_step self color_by others_alpha vip incl extract display)
      l actors = Ok result →
    ∃ shapes,
      Forall2 (λ tc s,
        tract_step self color_by others_alpha vip incl extract display [] tc = Ok s)
        l shapes
      ∧ result = actors ++ concat shapes.
Proof.
  induction l as [|tc l IH]; intros actors result; simpl.
  - intros [= <-]. exists []. split; [constructor|]. simpl. rewrite app_nil_r. reflexivity.
  - rewrite tract_step_app.
    destruct (tract_step _ _ _ _ _ _ _ [] tc) as [s|e] eqn:Hs; simpl; [|discriminate].
    intros Hrest. apply IH in Hrest as (shapes & Hall & ->).
    exists (s :: shapes). split; [constructor; assumption|].
    simpl. rewrite app_assoc. reflexivity.
Qed.

(** A record whose opacity is zero leaves the loop at [continue]. *)
Lemma tract_step_transparent (self : ABA) (color_by : string) (others_alpha : Q)
    (vip : list string) (incl : bool) (extract : extract_arg) (display : bool)
    (actors : list shape) (t : tract) (color : pyval) (inj : list string) :
  tract_inj_structures self incl t = Ok inj →
  (tract_alpha color_by others_alpha vip inj == 0)%Q →
  tract_step self color_by others_alpha vip incl extract display actors
    (TractDict t, color) = Ok actors.
Proof.
  intros Hinj Hzero. unfold tract_step. simpl. rewrite Hinj. simpl.
  apply Qeq_bool_iff in Hzero. rewrite Hzero. reflexivity.
Qed.

(** The shapes of one record: at most a sphere, then a tube, the tube with
    the opacity of the record, which is not zero. *)
Lemma tract_step_shapes (self : ABA) (color_by : string) (others_alpha : Q)
    (vip : list string) (incl : bool) (extract : extract_arg) (display : bool)
    (t : tract) (color : pyval) (s : list shape) :
  tract_step self color_by others_alpha vip incl extract display []
    (TractDict t, color) = Ok s →
  s = []
  ∨ ∃ inj,
      tract_inj_structures self incl t = Ok inj
      ∧ ¬ (tract_alpha color_by others_alpha vip inj == 0)%Q
      ∧ s = (if display
             then [Sphere (injection_coordinates t) color
                     (INJECTION_VOLUME_SIZE * injection_volume t) TRACTO_ALPHA]
             else [])
            ++ [Tube (path t) TRACTO_RADIUS color
                  (tract_alpha color_by others_alpha vip inj) TRACTO_RES].
Proof.
  unfold tract_step. simpl.
  destruct (tract_inj_structures self incl t) as [inj|e]; simpl; [|discriminate].
  destruct (Qeq_bool _ 0) eqn:Hz; simpl; [intros [= <-]; left; reflexivity|].
  destruct (check_injection_coords self extract t) as [keep|e]; simpl; [|discriminate].
  destruct keep; simpl; [|intros [= <-]; left; reflexivity].
  intros [= <-]. right. exists inj. split; [reflexivity|]. split.
  - intros Hzero. apply Qeq_bool_iff in Hzero. congruence.
  - destruct display; reflexivity.
Qed.

(** [COLORS] holds one colour for each record. *)
Lemma tractography_colors_length (self : ABA) (items : list tract_item)
    (color : pyval) (color_by : string) (vip : list string)
    (VIP_color others_color : pyval) (incl : bool) (COLORS : list pyval) :
  tractography_colors self items color color_by vip VIP_color others_color incl
  = Ok COLORS →
  length COLORS = length items.
Proof.
  unfold tractography_colors.
  destruct (String.eqb color_by "manual").
  { destruct color; simpl;
      try (destruct (check_colors _); simpl; [|discriminate];
           intros [= <-]; apply length_replicate).
    - intros [= <-]. apply length_replicate.
    - destruct (bool_decide (length l = length items)) eqn:Hlen; simpl; [|discriminate].
      apply bool_decide_eq_true in Hlen.
      destruct (for_each require_color l); simpl; [|discriminate].
      intros [= <-]. exact Hlen. }
  destruct (String.eqb color_by "region"); [apply for_each_length|].
  destruct (String.eqb color_by "target_region"); [|discriminate].
  destruct (negb (is_none VIP_color)); [|apply for_each_length].
  destruct (negb (check_colors VIP_color) || negb (check_colors others_color));
    [discriminate|].
  destruct incl.
  - destruct (for_each _ items) as [cs|e] eqn:Hcs; [|discriminate].
    intros [= <-]. eapply for_each_length; exact Hcs.
  - destruct (for_each _ items) as [cs|e] eqn:Hcs; [|discriminate].
    intros [= <-]. eapply for_each_length; exact Hcs.
Qed.

(** C7: the list returned by [get_tractography] is made of the shapes of
    the records, in their order, and a record whose opacity comes out as
    zero has no shape in it, neither the sphere of its injection site nor
    the tube of its path. *)
Theorem get_tractography_drops_transparent (self : ABA)
    (tractography : tractography_arg) (color : pyval) (color_by : string)
    (others_alpha : Q) (VIP_regions : regions_arg) (VIP_color others_color : pyval)
    (incl : bool) (extract : extract_arg) (display : bool) (actors : list shape) :
  get_tractography self tractography color color_by others_alpha VIP_regions
    VIP_color others_color incl extract display = Ok actors →
  ∃ items vip COLORS shapes,
    check_tractography tractography = Ok items
    ∧ VIP_regions = RegionsList vip
    ∧ tractography_colors self items color color_by vip VIP_color others_color incl
      = Ok COLORS
    ∧ length COLORS = length items
    ∧ actors = concat shapes
    ∧ Forall2 (λ tc s,
        tract_step self color_by others_alpha vip incl extract display [] tc = Ok s
        ∧ ∀ t inj,
            tc.1 = TractDict t →
            tract_inj_structures self incl t = Ok inj →
            ((tract_alpha color_by others_alpha vip inj == 0)%Q → s = [])
            ∧ (s = []
               ∨ s = (if display
                      then [Sphere (injection_coordinates t) tc.2
                              (INJECTION_VOLUME_SIZE * injection_volume t) TRACTO_ALPHA]
                      else [])
                     ++ [Tube (path t) TRACTO_RADIUS tc.2
                           (tract_alpha color_by others_alpha vip inj) TRACTO_RES]))
        (zip items COLORS) shapes.
Proof.
  unfold get_tractography. intros Hg.
  destruct (check_tractography tractography) as [items|e] eqn:Hitems;
    simpl in Hg; [|discriminate].
  destruct VIP_regions as [vip|]; simpl in Hg; [|discriminate].
  destruct (tractography_colors self items color color_by vip VIP_color
              others_color incl) as [COLORS|e] eqn:Hcolors; simpl in Hg; [|discriminate].
  apply tract_loop_concat in Hg as (shapes & Hall & ->).
  exists items, vip, COLORS, shapes.
  split; [reflexivity|]. split; [reflexivity|]. split; [exact Hcolors|].
  split; [eapply tractography_colors_length; exact Hcolors|].
  split; [reflexivity|].
  eapply Forall2_impl; [exact Hall|].
  intros [it c] s Hs. split; [exact Hs|].
  intros t inj Hit Hinj. simpl in Hit. subst it. split.
  - intros Hzero.
    rewrite (tract_step_transparent _ _ _ _ _ _ _ [] t c inj Hinj Hzero) in Hs.
    congruence.
  - apply tract_step_shapes in Hs as [->|(inj' & Hinj' & _ & ->)]; [left; reflexivity|].
    right. simpl. congruence.
Qed.

(** The tubes of the returned list all have an opacity that is not zero. *)
Corollary get_tractography_tubes_visible (self : ABA)
    (tractography : tractography_arg) (color : pyval) (color_by : string)
    (others_alpha : Q) (VIP_regions : regions_arg) (VIP_color others_color : pyval)
    (incl : bool) (extract : extract_arg) (display : bool) (actors : list shape)
    (points : list (list Q)) (r alpha : Q) (c : pyval) (res : Z) :
  get_tractography self tractography color color_by others_alpha VIP_regions
    VIP_color others_color incl extract display = Ok actors →
  Tube points r c alpha res ∈ actors →
  ¬ (alpha == 0)%Q.
Proof.
  unfold get_tractography. intros Hg Hin.
  destruct (check_tractography tractography) as [items|e]; simpl in Hg; [|discriminate].
  destruct VIP_regions as [vip|]; simpl in Hg; [|discriminate].
  destruct (tractography_colors _ _ _ _ _ _ _ _) as [COLORS|e]; simpl in Hg; [|discriminate].
  apply tract_loop_concat in Hg as (shapes & Hall & ->). simpl in Hin.
  apply list_elem_of_In, in_concat in Hin as (s & Hs & Hin).
  apply list_elem_of_In in Hs. apply list_elem_of_In in Hin.
  apply list_elem_of_lookup in Hs as [n Hn].
  destruct (Forall2_lookup_r _ _ _ _ _ Hall Hn) as ([it col] & _ & Hstep).
  destruct it as [t|]; [|discriminate].
  apply tract_step_shapes in Hstep as [->|(inj & _ & Hnz & ->)]; [inversion Hin|].
  apply elem_of_app in Hin as [Hin|Hin].
  - destruct display; [|inversion Hin].
    apply list_elem_of_singleton in Hin. discriminate.
  - apply list_elem_of_singleton in Hin. injection Hin as _ _ _ -> _. exact Hnz.
Qed.

Lemma get_tractography_length_mismatch (self : ABA) (items : list tract_item)
    (l : list pyval) (others_alpha : Q) (VIP_regions : regions_arg)
    (VIP_color others_color : pyval) (incl : bool) (extract : extract_arg)
    (display : bool) :
  items ≠ [] →
  length l ≠ length items →
  get_tractography self (TractographyList items) (PList l) "manual" others_alpha
    VIP_regions VIP_color others_color incl extract display = Raise ValueError.
Proof.
  intros Hne Hlen. unfold get_tractography.
  destruct items as [|it items]; [contradiction|].
  simpl. destruct it; simpl; [|reflexivity].
  destruct VIP_regions; simpl; [|reflexivity].
  unfold tractography_colors. simpl.
  rewrite bool_decide_false by exact Hlen. reflexivity.
Qed.

Lemma get_tractography_dict_length_mismatch (self : ABA) (t : tract)
    (l : list pyval) (others_alpha : Q) (VIP_regions : regions_arg)
    (VIP_color others_color : pyval) (incl : bool) (extract : extract_arg)
    (display : bool) :
  length l ≠ 1%nat →
  get_tractography self (TractographyDict t) (PList l) "manual" others_alpha
    VIP_regions VIP_color others_color incl extract display = Raise ValueError.
Proof.
  intros Hlen. unfold get_tractography. simpl.
  destruct VIP_regions; simpl; [|reflexivity].
  unfold tractography_colors. simpl.
  rewrite bool_decide_false by exact Hlen. reflexivity.
Qed.

End TractographyProperties.

(** ** get_brain_regions *)

Section BrainRegionsProperties.
Context `{Imports}.

Lemma get_brain_regions_length_mismatch (self : ABA) (brain_regions : pyval)
    (l : list pyval) :
  region_acronyms self ≠ None →
  (∃ c0 l', l = c0 :: l' ∧ (type_of c0 = TList ∨ type_of c0 = TTuple)) →
  length l ≠ length (as_region_list brain_regions) →
  get_brain_regions_args self brain_regions (PList l) = Raise ValueError.
Proof.
  intros Hra (c0 & l' & -> & Hty) Hlen. unfold get_brain_regions_args.
  destruct (region_acronyms self); [|contradiction].
  simpl. unfold getitem. simpl.
  destruct Hty as [Hty|Hty]; destruct c0; try discriminate; simpl;
    rewrite bool_decide_false by exact Hlen; reflexivity.
Qed.

(** An atlas without regions data returns at once, whatever the colours. *)
Lemma get_brain_regions_no_data (self : ABA) (brain_regions colors : pyval) :
  region_acronyms self = None →
  get_brain_regions_args self brain_regions colors = Ok NoRegionsData.
Proof. intros Hra. unfold get_brain_regions_args. rewrite Hra. reflexivity. Qed.

(** C5, as the code has it: a list of colours whose length is not the
    number of entities makes [get_neurons] raise [ValueError], makes
    [get_tractography] in "manual" mode raise [ValueError] when there is at
    least one record (a list of records or a single one), and makes [get_brain_regions] raise [ValueError] when
    the atlas has regions data and the first colour of the list is itself a
    list or a tuple. *)
Theorem color_list_length_mismatch (self : ABA) (l : list pyval)
    (neurons : pyval) (da dd : bool) (rad : pyval) (σ : actor_colors)
    (items : list tract_item) (others_alpha : Q) (VIP_regions : regions_arg)
    (VIP_color others_color : pyval) (incl : bool) (extract : extract_arg)
    (display : bool) (t : tract) (brain_regions : pyval) :
  (length l ≠ length (as_neuron_list neurons) →
     get_neurons neurons (PList l) da dd rad σ = Raise ValueError)
  ∧ (items ≠ [] →
     length l ≠ length items →
     get_tractography self (TractographyList items) (PList l) "manual"
       others_alpha VIP_regions VIP_color others_color incl extract display
     = Raise ValueError)
  ∧ (length l ≠ 1%nat →
     get_tractography self (TractographyDict t) (PList l) "manual"
       others_alpha VIP_regions VIP_color others_color incl extract display
     = Raise ValueError)
  ∧ (region_acronyms self ≠ None →
     (∃ c0 l', l = c0 :: l' ∧ (type_of c0 = TList ∨ type_of c0 = TTuple)) →
     length l ≠ length (as_region_list brain_regions) →
     get_brain_regions_args self brain_regions (PList l) = Raise ValueError).
Proof.
  split; [|split; [|split]].
  - intros Hlen. apply (get_neurons_length_mismatch _ _ l); [left; reflexivity|exact Hlen].
  - apply get_tractography_length_mismatch.
  - apply get_tractography_dict_length_mismatch.
  - apply get_brain_regions_length_mismatch.
Qed.

End BrainRegionsProperties.

(** Two records coloured by target region, the thalamus the only VIP
    region and the others fully transparent: the record of the thalamus
    gives its sphere and its tube, the record of MOs gives nothing. *)
Lemma get_tractography_drops_transparent_witness :
  ∃ items vip COLORS shapes,
    @check_tractography
      (TractographyList [TractDict Examples.experiment; TractDict Examples.experiment_MOs])
    = Ok items
    ∧ RegionsList ["TH"] = RegionsList vip
    ∧ @tractography_colors Examples.imports Examples.atlas items PNone "target_region"
        vip PNone (PStr "white") true
      = Ok COLORS
    ∧ length COLORS = length items
    ∧ [Sphere [40; 10; 10]%Q (rgb [255; 112; 128]) (120 * (1 # 2))%Q 1%Q;
       Tube [[40; 10; 10]; [60; 20; 30]]%Q 1%Q (rgb [255; 112; 128]) 1%Q 12]
      = concat shapes
    ∧ Forall2 (λ tc s,
        @tract_step Examples.imports Examples.atlas "target_region" 0%Q vip true
          (ExtractBool false) true [] tc = Ok s
        ∧ ∀ t inj,
            tc.1 = TractDict t →
            tract_inj_structures Examples.atlas true t = Ok inj →
            ((@tract_alpha Examples.imports "target_region" 0%Q vip inj == 0)%Q → s = [])
            ∧ (s = []
               ∨ s = [Sphere (injection_coordinates t) tc.2
                        (120 * injection_volume t)%Q 1%Q]
                     ++ [Tube (path t) 1%Q tc.2
                           (@tract_alpha Examples.imports "target_region" 0%Q vip inj) 12]))
        (zip items COLORS) shapes.
Proof.
  apply (@get_tractography_drops_transparent Examples.imports Examples.atlas
           (TractographyList [TractDict Examples.experiment;
                              TractDict Examples.experiment_MOs])
           PNone "target_region" 0%Q (RegionsList ["TH"]) PNone (PStr "white")
           true (ExtractBool false) true).
  reflexivity.
Defined.

Lemma color_list_length_mismatch_witness :
  @get_neurons Examples.imports (PList [PActor 1; PActor 2])
    (PList [Examples.red; Examples.green; Examples.blue]) true true PNone ∅
  = Raise ValueError
  ∧ @get_tractography Examples.imports Examples.atlas
      (TractographyList [TractDict Examples.experiment; TractDict Examples.experiment_MOs])
      (PList [Examples.red; Examples.green; Examples.blue]) "manual" 1%Q
      (RegionsList []) PNone (PStr "white") false (ExtractBool false) true
    = Raise ValueError
  ∧ @get_tractography Examples.imports Examples.atlas
      (TractographyDict Examples.experiment)
      (PList [Examples.red; Examples.green; Examples.blue]) "manual" 1%Q
      (RegionsList []) PNone (PStr "white") false (ExtractBool false) true
    = Raise ValueError
  ∧ @get_brain_regions_args Examples.imports Examples.atlas
      (PList [PStr "TH"; PStr "MOs"])
      (PList [Examples.red; Examples.green; Examples.blue])
    = Raise ValueError.
Proof.
  destruct (@color_list_length_mismatch Examples.imports Examples.atlas
              [Examples.red; Examples.green; Examples.blue]
              (PList [PActor 1; PActor 2]) true true PNone ∅
              [TractDict Examples.experiment; TractDict Examples.experiment_MOs]
              1%Q (RegionsList []) PNone (PStr "white") false (ExtractBool false) true
              Examples.experiment
              (PList [PStr "TH"; PStr "MOs"])) as (Hn & Ht & Hd & Hb).
  split; [|split; [|split]].
  - apply Hn. simpl. lia.
  - apply Ht; [discriminate | simpl; lia].
  - apply Hd. simpl. lia.
  - apply Hb; [discriminate | | simpl; lia].
    exists Examples.red, [Examples.green; Examples.blue].
    split; [reflexivity | left; reflexivity].
Defined.

(** C5, the claim as stated fails for [get_brain_regions]: an atlas without
    regions data returns with no error for two colours and three regions;
    and with regions data, a list of two colour names for three regions is
    taken as one colour, given to each region, when [check_colors] accepts
    it. *)
Lemma get_brain_regions_unchecked_color_list :
  @get_brain_regions_args Examples.imports Examples.offline
    (PList [PStr "TH"; PStr "MOs"; PStr "CA1"])
    (PList [Examples.red; Examples.green])
  = Ok NoRegionsData
  ∧ @get_brain_regions_args Examples.imports Examples.offline
      (PList [PStr "TH"; PStr "MOs"; PStr "CA1"])
      (PList [Examples.red; Examples.green])
    ≠ Raise ValueError
  ∧ @get_brain_regions_args Examples.imports Examples.atlas
      (PList [PStr "TH"; PStr "MOs"; PStr "CA1"])
      (PList [PStr "red"; PStr "blue"])
    = Ok (RegionsLoop [PStr "TH"; PStr "MOs"; PStr "CA1"]
            (PList [PList [PStr "red"; PStr "blue"];
                    PList [PStr "red"; PStr "blue"];
                    PList [PStr "red"; PStr "blue"]])).
Proof.
  split; [reflexivity|]. split; [discriminate|]. reflexivity.
Qed.

(** * Further properties *)

(** ** Coordinates *)

Lemma np_axis_Ok_iff {A} (l : list A) (i : Z) :
  (∃ x, np_axis l i = Ok x) ↔ in_axis (length l) i.
Proof.
  unfold in_axis, np_axis, getitem. split.
  - intros [x Hx].
    destruct (decide (0 ≤ i < _)) as [?|?]; [lia|].
    destruct (decide (- _ ≤ i < 0)) as [?|?]; [lia|discriminate].
  - intros Hi.
    destruct (decide (0 ≤ i < Z.of_nat (length l))) as [Hpos|Hneg].
    + destruct (l !! Z.to_nat i) as [x|] eqn:Hx; [eauto|].
      apply lookup_ge_None in Hx. lia.
    + destruct (decide (- Z.of_nat (length l) ≤ i < 0)) as [Hn|?]; [|lia].
      destruct (l !! Z.to_nat (i + Z.of_nat (length l))) as [x|] eqn:Hx; [eauto|].
      apply lookup_ge_None in Hx. lia.
Qed.

Lemma np_axis_elem {A} (l : list A) (i : Z) (x : A) :
  np_axis l i = Ok x → x ∈ l.
Proof.
  unfold np_axis, getitem. intros Hx.
  destruct (decide (0 ≤ i < _)) as [?|?].
  - destruct (l !! Z.to_nat i) eqn:Hl; [|discriminate].
    injection Hx as <-. eapply list_elem_of_lookup_2. exact Hl.
  - destruct (decide (- _ ≤ i < 0)) as [?|?]; [|discriminate].
    destruct (l !! Z.to_nat (i + _)) eqn:Hl; [|discriminate].
    injection Hx as <-. eapply list_elem_of_lookup_2. exact Hl.
Qed.

(** X1: for an annotation volume of shape (d0, d1, d2), the indexing of the
    volume succeeds exactly when each voxel index is within [-d, d) of its
    axis; outside of that the lookup is answered with [None]. *)
Theorem lookup_voxel_in_range (self : ABA) (d0 d1 d2 : nat) (i j k : Z) :
  has_shape (annotated_volume self) d0 d1 d2 →
  ((∃ structure_id, lookup_voxel self [i; j; k] = Ok structure_id)
   ↔ in_axis d0 i ∧ in_axis d1 j ∧ in_axis d2 k)
  ∧ (¬ (in_axis d0 i ∧ in_axis d1 j ∧ in_axis d2 k) →
     ∀ p0 just_acronym,
       voxel_of_point self p0 = [i; j; k] →
       get_structure_from_coordinates self p0 just_acronym = None).
Proof.
  intros [Hd0 Hplanes].
  assert (Hiff : (∃ structure_id, lookup_voxel self [i; j; k] = Ok structure_id)
                 ↔ in_axis d0 i ∧ in_axis d1 j ∧ in_axis d2 k).
  { unfold lookup_voxel. simpl. unfold np_getitem3. split.
    - intros [sid Hsid].
      destruct (np_axis (annotated_volume self) i) as [plane|e] eqn:Hplane;
        simpl in Hsid; [|discriminate].
      destruct (np_axis plane j) as [row|e] eqn:Hrow; simpl in Hsid; [|discriminate].
      pose proof (np_axis_elem _ _ _ Hplane) as Hin.
      rewrite Forall_forall in Hplanes. destruct (Hplanes _ Hin) as [Hd1 Hrows].
      pose proof (np_axis_elem _ _ _ Hrow) as Hin'.
      rewrite Forall_forall in Hrows. specialize (Hrows _ Hin').
      split; [|split].
      + rewrite <- Hd0. apply np_axis_Ok_iff. eauto.
      + rewrite <- Hd1. apply np_axis_Ok_iff. eauto.
      + rewrite <- Hrows. apply np_axis_Ok_iff. eauto.
    - intros (Hi & Hj & Hk).
      rewrite <- Hd0 in Hi. apply np_axis_Ok_iff in Hi as [plane Hplane].
      rewrite Hplane. simpl.
      pose proof (np_axis_elem _ _ _ Hplane) as Hin.
      rewrite Forall_forall in Hplanes. destruct (Hplanes _ Hin) as [Hd1 Hrows].
      rewrite <- Hd1 in Hj. apply np_axis_Ok_iff in Hj as [row Hrow].
      rewrite Hrow. simpl.
      pose proof (np_axis_elem _ _ _ Hrow) as Hin'.
      rewrite Forall_forall in Hrows. specialize (Hrows _ Hin').
      rewrite <- Hrows in Hk. apply np_axis_Ok_iff in Hk as [sid Hsid].
      exists sid. exact Hsid. }
  split; [exact Hiff|].
  intros Hout p0 just_acronym Hv. unfold get_structure_from_coordinates.
  rewrite Hv.
  destruct (lookup_voxel self [i; j; k]) as [sid|e] eqn:Hl; [|reflexivity].
  exfalso. apply Hout, Hiff. eauto.
Qed.

Lemma lookup_voxel_in_range_witness :
  has_shape (annotated_volume Examples.atlas) 2 2 2
  ∧ ((∃ structure_id, lookup_voxel Examples.atlas [1; -2; 0] = Ok structure_id)
     ↔ in_axis 2 1 ∧ in_axis 2 (-2) ∧ in_axis 2 0)
  ∧ (¬ (in_axis 2 1 ∧ in_axis 2 2 ∧ in_axis 2 0) →
     ∀ p0 just_acronym,
       voxel_of_point Examples.atlas p0 = [1; 2; 0] →
       get_structure_from_coordinates Examples.atlas p0 just_acronym = None).
Proof.
  assert (Hshape : has_shape (annotated_volume Examples.atlas) 2 2 2).
  { split; [reflexivity|]. repeat constructor. }
  split; [exact Hshape|]. split.
  - apply (proj1 (lookup_voxel_in_range Examples.atlas 2 2 2 1 (-2) 0 Hshape)).
  - apply (proj2 (lookup_voxel_in_range Examples.atlas 2 2 2 1 2 0 Hshape)).
Defined.

Lemma getitem_head {A} (x : A) (l : list A) : getitem (x :: l) 0 = Ok x.
Proof. reflexivity. Qed.

(** X2: the lookups of one point agree: the acronym, the structure and the
    colour that are returned are those of one structure, and they are
    [None] together. *)
Theorem point_lookups_agree (self : ABA) (p : list Q) :
  p ≠ [] →
  match get_structure_from_coordinates self p false with
  | None =>
      get_structure_from_coordinates self p true = None
      ∧ get_colors_from_coordinates self (OnePoint p) = Ok (OneColor None)
  | Some (Structure s) =>
      get_structure_from_coordinates self p true = Some (Acronym (acronym s))
      ∧ get_colors_from_coordinates self (OnePoint p)
        = Ok (OneColor (Some (rgb_triplet s)))
  | Some (Acronym _) => False
  end.
Proof.
  intros Hp. unfold get_colors_from_coordinates.
  destruct p as [|x p]; [contradiction|]. rewrite getitem_head, bind_Ok.
  unfold get_structure_from_coordinates.
  destruct (lookup_voxel self _) as [sid|e]; [|split; reflexivity].
  destruct (get_structures_by_id self sid) as [s|]; split; reflexivity.
Qed.

Lemma point_lookups_agree_witness :
  get_structure_from_coordinates Examples.atlas [30; 10; 10]%Q true
  = Some (Acronym "TH")
  ∧ get_colors_from_coordinates Examples.atlas (OnePoint [30; 10; 10]%Q)
    = Ok (OneColor (Some [255; 112; 128])).
Proof.
  assert (Hne : [30; 10; 10]%Q ≠ []) by discriminate.
  exact (point_lookups_agree Examples.atlas [30; 10; 10]%Q Hne).
Defined.

Lemma for_each_struct_color (self : ABA) (ps : list (list Q)) :
  ∃ cs,
    for_each struct_color ((λ p, get_structure_from_coordinates self p false) <$> ps)
    = Ok cs
    ∧ Forall2 (λ p c,
        struct_color (get_structure_from_coordinates self p false) = Ok c) ps cs.
Proof.
  induction ps as [|p ps (cs & Hcs & Hall)].
  - exists []. split; [reflexivity|constructor].
  - assert (Hp : ∃ c, struct_color (get_structure_from_coordinates self p false) = Ok c).
    { unfold get_structure_from_coordinates.
      destruct (lookup_voxel self _); [|eexists; reflexivity].
      destruct (get_structures_by_id self _); eexists; reflexivity. }
    destruct Hp as [c Hc].
    exists (c :: cs). rewrite fmap_cons. cbn [for_each].
    rewrite Hc, Hcs. split; [reflexivity|]. constructor; assumption.
Qed.

(** X3: for a sequence of points that is not empty,
    [get_colors_from_coordinates] does not raise and returns one entry for
    each point, in the order of the points, the entry of a point being what
    the call returns for that point alone ([None] where the point has no
    structure); for an empty sequence it raises [IndexError]. *)
Theorem get_colors_from_coordinates_batch (self : ABA) (ps : list (list Q)) :
  (ps = [] → get_colors_from_coordinates self (ManyPoints ps) = Raise IndexError)
  ∧ (ps ≠ [] →
     ∃ cs,
       get_colors_from_coordinates self (ManyPoints ps) = Ok (ManyColors cs)
       ∧ length cs = length ps
       ∧ ∀ i p, ps !! i = Some p → p ≠ [] →
           ∃ c, cs !! i = Some c
                ∧ get_colors_from_coordinates self (OnePoint p) = Ok (OneColor c)).
Proof.
  split.
  - intros ->. reflexivity.
  - intros Hps. destruct (for_each_struct_color self ps) as (cs & Hcs & Hall).
    exists cs. split; [|split].
    + unfold get_colors_from_coordinates.
      destruct ps as [|p0 ps]; [contradiction|].
      rewrite getitem_head, bind_Ok, Hcs. reflexivity.
    + symmetry. eapply Forall2_length. exact Hall.
    + intros i p Hi Hp.
      destruct (Forall2_lookup_l _ _ _ _ _ Hall Hi) as (c & Hc & Hcol).
      exists c. split; [exact Hc|].
      unfold get_colors_from_coordinates.
      destruct p as [|x p]; [contradiction|].
      rewrite getitem_head, bind_Ok, Hcol. reflexivity.
Qed.

Lemma get_colors_from_coordinates_batch_witness :
  get_colors_from_coordinates Examples.atlas (ManyPoints []) = Raise IndexError
  ∧ ∃ cs,
      get_colors_from_coordinates Examples.atlas
        (ManyPoints [[30; 10; 10]; [900; 10; 10]]%Q) = Ok (ManyColors cs)
      ∧ length cs = 2%nat
      ∧ ∀ i p, [[30; 10; 10]; [900; 10; 10]]%Q !! i = Some p → p ≠ [] →
          ∃ c, cs !! i = Some c
               ∧ get_colors_from_coordinates Examples.atlas (OnePoint p)
                 = Ok (OneColor c).
Proof.
  split.
  - apply (proj1 (get_colors_from_coordinates_batch Examples.atlas [])). reflexivity.
  - apply (proj2 (get_colors_from_coordinates_batch Examples.atlas
                    [[30; 10; 10]; [900; 10; 10]]%Q)). discriminate.
Defined.

(** The float64 numbers next to 5688.5, the midline of the class, are
    [2^-40] away from it. *)
Lemma double_below_midline (z : Q) :
  (fl z == z)%Q → (z < 11377 # 2)%Q → (z <= (11377 # 2) - 2 ^ (-40))%Q.
Proof.
  intros Hfl Hlt. apply Qnot_lt_le. intros Hgt.
  change (2 ^ (-40))%Q with (1 # 1099511627776)%Q in Hgt.
  assert (Hlog : ilog2 z = 12).
  { apply ilog2_unique; rewrite Qabs_pos by lra.
    - change (2 ^ 12)%Q with 4096%Q. lra.
    - change (2 ^ (12 + 1))%Q with 8192%Q. lra. }
  unfold fl, fexp in Hfl. rewrite Hlog in Hfl.
  change (Z.max (12 - 52) (-1074)) with (-40) in Hfl.
  change (2 ^ (-40))%Q with (1 # 1099511627776)%Q in Hfl.
  set (r := round_half_even (z / (1 # 1099511627776))) in *.
  assert (H1 : (inject_Z (11377 * 2 ^ 39 - 1) < inject_Z r)%Q).
  { change (inject_Z (11377 * 2 ^ 39 - 1)) with (6254571894603775 # 1)%Q. lra. }
  assert (H2 : (inject_Z r < inject_Z (11377 * 2 ^ 39))%Q).
  { change (inject_Z (11377 * 2 ^ 39)) with (6254571894603776 # 1)%Q. lra. }
  rewrite <- Zlt_Qlt in H1, H2. lia.
Qed.

Lemma double_above_midline (z : Q) :
  (fl z == z)%Q → (11377 # 2 < z)%Q → ((11377 # 2) + 2 ^ (-40) <= z)%Q.
Proof.
  intros Hfl Hlt. apply Qnot_lt_le. intros Hgt.
  change (2 ^ (-40))%Q with (1 # 1099511627776)%Q in Hgt.
  assert (Hlog : ilog2 z = 12).
  { apply ilog2_unique; rewrite Qabs_pos by lra.
    - change (2 ^ 12)%Q with 4096%Q. lra.
    - change (2 ^ (12 + 1))%Q with 8192%Q. lra. }
  unfold fl, fexp in Hfl. rewrite Hlog in Hfl.
  change (Z.max (12 - 52) (-1074)) with (-40) in Hfl.
  change (2 ^ (-40))%Q with (1 # 1099511627776)%Q in Hfl.
  set (r := round_half_even (z / (1 # 1099511627776))) in *.
  assert (H1 : (inject_Z (11377 * 2 ^ 39) < inject_Z r)%Q).
  { change (inject_Z (11377 * 2 ^ 39)) with (6254571894603776 # 1)%Q. lra. }
  assert (H2 : (inject_Z r < inject_Z (11377 * 2 ^ 39 + 1))%Q).
  { change (inject_Z (11377 * 2 ^ 39 + 1)) with (6254571894603777 # 1)%Q. lra. }
  rewrite <- Zlt_Qlt in H1, H2. lia.
Qed.

(** X4: mirroring a point given in float64 moves it to the other side of
    the midline, or onto it: a point left of the midline is mirrored to a
    point that [get_hemisphere_from_point] calls "right", and a point right
    of it to one that [get_hemispere_from_point] calls "left".  With the
    midline of the class, 5688.5, the mirrored point is off the midline
    and both classifications call it "right", respectively "left".  A
    point on the midline stays on it. *)
Theorem mirror_point_changes_hemisphere (self : ABA) (point : list Q) (z m : Q) :
  point !! 2%nat = Some z →
  _root_midpoint self !! 2%nat = Some m →
  is_double z →
  is_double m →
  ∃ mirrored z1,
    mirror_point_across_hemispheres self point = Ok mirrored
    ∧ mirrored !! 2%nat = Some z1
    ∧ ((z < m)%Q →
         get_hemisphere_from_point self point = Ok "left"
         ∧ get_hemispere_from_point self point = Ok "left"
         ∧ get_hemisphere_from_point self mirrored = Ok "right"
         ∧ ((m == 11377 # 2)%Q →
              get_hemispere_from_point self mirrored = Ok "right"))
    ∧ ((m < z)%Q →
         get_hemisphere_from_point self point = Ok "right"
         ∧ get_hemispere_from_point self point = Ok "right"
         ∧ get_hemispere_from_point self mirrored = Ok "left"
         ∧ ((m == 11377 # 2)%Q →
              get_hemisphere_from_point self mirrored = Ok "left"))
    ∧ ((z == m)%Q → (z1 == m)%Q).
Proof.
  intros Hz Hm [Dz _] [Dm _].
  assert (Hlen : (2 < length point)%nat) by (eapply lookup_lt_Some; exact Hz).
  set (z1 := float_sub m (float_sub z m)).
  assert (Hz1 : <[2%nat := z1]> point !! 2%nat = Some z1)
    by (apply list_lookup_insert_eq; exact Hlen).
  assert (Hz1' : (z1 == fl (m - float_sub z m))%Q).
  { unfold z1. unfold float_sub at 1. rewrite Dm, float_sub_idem. reflexivity. }
  assert (Hd : (float_sub z m == fl (z - m))%Q).
  { unfold float_sub. rewrite Dz, Dm. reflexivity. }
  exists (<[2%nat := z1]> point), z1.
  split; [apply mirror_point_eq; assumption|].
  split; [exact Hz1|].
  rewrite (get_hemisphere_from_point_eq self point z m Hz Hm).
  rewrite (get_hemispere_from_point_eq self point z m Hz Hm).
  rewrite (get_hemisphere_from_point_eq self _ z1 m Hz1 Hm).
  rewrite (get_hemispere_from_point_eq self _ z1 m Hz1 Hm).
  split; [|split].
  - intros Hlt.
    assert (H1 : Qltb z m = true) by (apply Qltb_lt; exact Hlt).
    assert (H2 : Qltb m z = false) by (apply Qltb_ge; lra).
    assert (Hdelta : (float_sub z m <= 0)%Q) by (apply float_sub_le_0; lra).
    assert (Hge : (m <= z1)%Q).
    { apply Qle_trans with (fl m); [rewrite Dm; lra|].
      rewrite Hz1'. apply fl_mono. lra. }
    assert (H3 : Qltb z1 m = false) by (apply Qltb_ge; exact Hge).
    rewrite H1, H2, H3. repeat (split; [reflexivity|]).
    intros Hclass.
    assert (Hz' : (z <= (11377 # 2) - 2 ^ (-40))%Q).
    { apply double_below_midline; [exact Dz|lra]. }
    assert (Hdelta' : (float_sub z m <= - 2 ^ (-40))%Q).
    { rewrite Hd.
      assert (Hex : (fl (- 2 ^ (-40)) == - 2 ^ (-40))%Q) by (vm_compute; reflexivity).
      rewrite <- Hex. apply fl_mono. lra. }
    assert (Hgt : (m < z1)%Q).
    { rewrite Hz1'.
      assert (Hex : (fl ((11377 # 2) + 2 ^ (-40)) == (11377 # 2) + 2 ^ (-40))%Q)
        by (vm_compute; reflexivity).
      apply Qlt_le_trans with ((11377 # 2) + 2 ^ (-40))%Q.
      - change (2 ^ (-40))%Q with (1 # 1099511627776)%Q. lra.
      - rewrite <- Hex. apply fl_mono. lra. }
    apply Qltb_lt in Hgt. rewrite Hgt. reflexivity.
  - intros Hlt.
    assert (H1 : Qltb z m = false) by (apply Qltb_ge; lra).
    assert (H2 : Qltb m z = true) by (apply Qltb_lt; exact Hlt).
    assert (Hdelta : (0 <= float_sub z m)%Q) by (apply float_sub_ge_0; lra).
    assert (Hle : (z1 <= m)%Q).
    { apply Qle_trans with (fl m); [|rewrite Dm; lra].
      rewrite Hz1'. apply fl_mono. lra. }
    assert (H3 : Qltb m z1 = false) by (apply Qltb_ge; exact Hle).
    rewrite H1, H2, H3. repeat (split; [reflexivity|]).
    intros Hclass.
    assert (Hz' : ((11377 # 2) + 2 ^ (-40) <= z)%Q).
    { apply double_above_midline; [exact Dz|lra]. }
    assert (Hdelta' : (2 ^ (-40) <= float_sub z m)%Q).
    { rewrite Hd.
      assert (Hex : (fl (2 ^ (-40)) == 2 ^ (-40))%Q) by (vm_compute; reflexivity).
      rewrite <- Hex. apply fl_mono. lra. }
    assert (Hgt : (z1 < m)%Q).
    { rewrite Hz1'.
      assert (Hex : (fl ((11377 # 2) - 2 ^ (-40)) == (11377 # 2) - 2 ^ (-40))%Q)
        by (vm_compute; reflexivity).
      apply Qle_lt_trans with ((11377 # 2) - 2 ^ (-40))%Q.
      - rewrite <- Hex. apply fl_mono. lra.
      - change (2 ^ (-40))%Q with (1 # 1099511627776)%Q. lra. }
    apply Qltb_lt in Hgt. rewrite Hgt. reflexivity.
  - intros Heq.
    assert (Hzero : (float_sub z m == 0)%Q).
    { rewrite Hd. apply fl_zero. lra. }
    rewrite Hz1', Hzero.
    assert (Hm0 : (m - 0 == m)%Q) by ring.
    rewrite Hm0. exact Dm.
Qed.

Lemma mirror_point_changes_hemisphere_witness :
  ∃ mirrored z1,
    mirror_point_across_hemispheres Examples.atlas [0; 0; 3000]%Q = Ok mirrored
    ∧ mirrored !! 2%nat = Some z1
    ∧ ((3000 < np_mean [486; 10891])%Q →
         get_hemisphere_from_point Examples.atlas [0; 0; 3000]%Q = Ok "left"
         ∧ get_hemispere_from_point Examples.atlas [0; 0; 3000]%Q = Ok "left"
         ∧ get_hemisphere_from_point Examples.atlas mirrored = Ok "right"
         ∧ ((np_mean [486; 10891] == 11377 # 2)%Q →
              get_hemispere_from_point Examples.atlas mirrored = Ok "right"))
    ∧ ((np_mean [486; 10891] < 3000)%Q →
         get_hemisphere_from_point Examples.atlas [0; 0; 3000]%Q = Ok "right"
         ∧ get_hemispere_from_point Examples.atlas [0; 0; 3000]%Q = Ok "right"
         ∧ get_hemispere_from_point Examples.atlas mirrored = Ok "left"
         ∧ ((np_mean [486; 10891] == 11377 # 2)%Q →
              get_hemisphere_from_point Examples.atlas mirrored = Ok "left"))
    ∧ ((3000 == np_mean [486; 10891])%Q → (z1 == np_mean [486; 10891])%Q).
Proof.
  apply (mirror_point_changes_hemisphere Examples.atlas [0; 0; 3000]%Q 3000
           (np_mean [486; 10891]%Q)).
  - reflexivity.
  - reflexivity.
  - split; vm_compute; reflexivity.
  - split; vm_compute; reflexivity.
Defined.

(** With a midline that is a power of two the mirrored point can be on the
    midline: about 4096, the float64 below 4096 is mirrored to 4096, which
    [get_hemispere_from_point] calls "left", as it calls the point. *)
Lemma mirror_point_onto_midline :
  is_double (4096 - (1 # 2199023255552))
  ∧ get_hemispere_from_point Examples.midline_4096
      [0; 0; 4096 - (1 # 2199023255552)]%Q = Ok "left"
  ∧ ∃ mirrored z1,
      mirror_point_across_hemispheres Examples.midline_4096
        [0; 0; 4096 - (1 # 2199023255552)]%Q = Ok mirrored
      ∧ mirrored !! 2%nat = Some z1
      ∧ (z1 == 4096)%Q
      ∧ get_hemispere_from_point Examples.midline_4096 mirrored = Ok "left".
Proof.
  split; [split; vm_compute; reflexivity|].
  split; [vm_compute; reflexivity|].
  eexists _, _. split; [reflexivity|]. split; [reflexivity|].
  split; vm_compute; reflexivity.
Qed.

(** X5: a point with fewer than three coordinates makes the hemisphere
    operations and the mirroring raise [IndexError], while the structure
    lookup answers [None] without raising. *)
Theorem short_point_errors (self : ABA) (point : list Q) (just_acronym : bool) :
  (length point < 3)%nat →
  get_hemisphere_from_point self point = Raise IndexError
  ∧ get_hemispere_from_point self point = Raise IndexError
  ∧ mirror_point_across_hemispheres self point = Raise IndexError
  ∧ get_structure_from_coordinates self point just_acronym = None.
Proof.
  intros Hlen.
  assert (Hnone : point !! 2%nat = None) by (apply lookup_ge_None; lia).
  unfold get_hemisphere_from_point, get_hemispere_from_point,
    mirror_point_across_hemispheres, getitem.
  rewrite Hnone. repeat (split; [reflexivity|]).
  apply get_structure_from_coordinates_short. exact Hlen.
Qed.

Lemma short_point_errors_witness :
  get_hemisphere_from_point Examples.atlas [1; 2]%Q = Raise IndexError
  ∧ get_hemispere_from_point Examples.atlas [1; 2]%Q = Raise IndexError
  ∧ mirror_point_across_hemispheres Examples.atlas [1; 2]%Q = Raise IndexError
  ∧ get_structure_from_coordinates Examples.atlas [1; 2]%Q true = None.
Proof.
  apply (short_point_errors Examples.atlas [1; 2]%Q true). simpl. lia.
Defined.

(** *** The voxel of a point *)

Lemma float_div_mono (a b r : Q) :
  (0 < fl r)%Q → (a <= b)%Q → (float_div a r <= float_div b r)%Q.
Proof.
  intros Hr Hab. unfold float_div. apply fl_mono.
  unfold Qdiv. apply Qmult_le_compat_r; [apply fl_mono; exact Hab|].
  apply Qlt_le_weak, Qinv_lt_0_compat. exact Hr.
Qed.

(** X6: the voxel index does not decrease along an axis: for a resolution
    that is a positive float64, points ordered coordinate by coordinate,
    the float64 quotients of the greater one being within the range of
    int64, have voxel indices ordered the same way. *)
Theorem voxel_of_point_monotone (self : ABA) (p q : list Q) :
  is_double (resolution self) →
  (0 < resolution self)%Q →
  Forall2 Qle p q →
  Forall (λ c, fits_int64 (float_div c (resolution self))) q →
  Forall2 Z.le (voxel_of_point self p) (voxel_of_point self q).
Proof.
  intros [Dres _] Hres Hpq Hfits. unfold voxel_of_point.
  assert (Hpos : (0 < fl (resolution self))%Q) by (rewrite Dres; exact Hres).
  assert (Hnz : ¬ (fl (resolution self) == 0)%Q) by lra.
  induction Hpq as [|c1 c2 p q Hc Hpq IH]; [constructor|].
  apply Forall_cons in Hfits as [[Hlo Hhi] Hfits].
  rewrite !fmap_cons. constructor; [|apply IH; exact Hfits].
  rewrite (voxel_index_in_range _ c2 Hnz Hlo Hhi).
  pose proof (np_round_in_range _ Hlo Hhi) as Hr2.
  pose proof (np_round_mono _ _ (float_div_mono c1 c2 _ Hpos Hc)) as Hmono.
  unfold voxel_index.
  destruct (Qeq_bool (fl (resolution self)) 0) eqn:Hz;
    [apply Qeq_bool_iff in Hz; contradiction|].
  unfold astype_int, INT64_MIN. destruct (decide _); lia.
Qed.

Lemma voxel_of_point_monotone_witness :
  Forall2 Z.le (voxel_of_point Examples.atlas [10; 30; 62]%Q)
               (voxel_of_point Examples.atlas [12; 40; 63]%Q).
Proof.
  apply (voxel_of_point_monotone Examples.atlas [10; 30; 62]%Q [12; 40; 63]%Q).
  - split; vm_compute; reflexivity.
  - reflexivity.
  - repeat constructor; discriminate.
  - repeat constructor; vm_compute; discriminate.
Defined.

(** X7: for a resolution that is a float64 other than zero, the point at
    [n] times the resolution along each axis, where [|n| < 2^53] and the
    product is a float64, is in the voxel [n]: going from voxel indices to
    coordinates and back gives the indices again. *)
Theorem voxel_of_grid_point (self : ABA) (ns : list Z) :
  is_double (resolution self) →
  ¬ (resolution self == 0)%Q →
  Forall (λ n, Z.abs n < 2 ^ 53 ∧ is_double (inject_Z n * resolution self)) ns →
  voxel_of_point self ((λ n, inject_Z n * resolution self)%Q <$> ns) = ns.
Proof.
  intros [Dres _] Hres Hns. unfold voxel_of_point.
  rewrite <- list_fmap_compose.
  rewrite <- (list_fmap_id ns) at 2.
  apply list_fmap_ext. intros i n Hi. unfold compose. simpl.
  rewrite Forall_forall in Hns.
  destruct (Hns n) as [Hn [Dn _]]; [eapply list_elem_of_lookup_2; exact Hi|].
  assert (Hq : (float_div (inject_Z n * resolution self) (resolution self)
                == inject_Z n)%Q).
  { unfold float_div. rewrite Dn, Dres.
    assert (Hd : (inject_Z n * resolution self / resolution self == inject_Z n)%Q)
      by (field; exact Hres).
    rewrite Hd. apply (fl_exact _ n 0); [|exact Hn|lia].
    change (2 ^ 0)%Q with 1%Q. ring. }
  unfold voxel_index.
  destruct (Qeq_bool (fl (resolution self)) 0) eqn:Hz.
  { apply Qeq_bool_iff in Hz. rewrite Dres in Hz. contradiction. }
  rewrite (np_round_comp _ _ Hq), np_round_inject_Z.
  apply astype_int_in_range. lia.
Qed.

Lemma voxel_of_grid_point_witness :
  voxel_of_point Examples.atlas
    ((λ n, inject_Z n * resolution Examples.atlas)%Q <$> [3; -1; 0])
  = [3; -1; 0].
Proof.
  apply (voxel_of_grid_point Examples.atlas [3; -1; 0]).
  - split; vm_compute; reflexivity.
  - discriminate.
  - repeat constructor; vm_compute; reflexivity.
Defined.

(** ** Colours of neurons *)

Lemma remove_dups_two {A} `{EqDecision A} (x y : A) (l : list A) :
  x ∈ l → y ∈ l → x ≠ y → (1 < length (remove_dups l))%nat.
Proof.
  intros Hx Hy Hne.
  apply elem_of_remove_dups in Hx. apply elem_of_remove_dups in Hy.
  destruct (remove_dups l) as [|a [|b r]]; simpl; [inversion Hx| |lia].
  apply list_elem_of_singleton in Hx. apply list_elem_of_singleton in Hy.
  congruence.
Qed.

Lemma foldl_insert_notin (σ : actor_colors) (acs : list (actor * pyval)) (a : actor) :
  a ∉ acs.*1 →
  foldl (λ σ ac, <[ac.1 := ac.2]> σ) σ acs !! a = σ !! a.
Proof.
  revert σ. induction acs as [|[a0 c0] acs IH]; intros σ Hnin; [reflexivity|].
  rewrite fmap_cons in Hnin. apply not_elem_of_cons in Hnin as [Hne Hnin].
  simpl in *. rewrite IH by exact Hnin. apply lookup_insert_ne. congruence.
Qed.

(** With actors that are all different, each one ends with the colour at
    its own position. *)
Lemma foldl_insert_zip_lookup (actors : list actor) :
  ∀ (cs : list pyval) (σ : actor_colors) (n : nat) (a : actor) (c : pyval),
    NoDup actors →
    actors !! n = Some a →
    cs !! n = Some c →
    foldl (λ σ ac, <[ac.1 := ac.2]> σ) σ (zip actors cs) !! a = Some c.
Proof.
  induction actors as [|a0 actors IH]; intros cs σ n a c Hnd Ha Hc; [discriminate|].
  destruct cs as [|c0 cs]; [discriminate|].
  apply NoDup_cons in Hnd as [Hnin Hnd].
  destruct n as [|n]; simpl in Ha, Hc.
  - injection Ha as ->. injection Hc as ->. simpl.
    rewrite foldl_insert_notin.
    + apply lookup_insert_eq.
    + intros Hin. apply Hnin.
      apply list_elem_of_fmap in Hin as ([a' c'] & -> & Hin).
      apply elem_of_zip_l in Hin. exact Hin.
  - simpl. eapply IH; eassumption.
Qed.

Section NeuronColours.
Context `{Imports}.

Lemma prepare_colors_soma_len (N : nat) (color : pyval) (colors : parts) :
  prepare_colors N color = Ok colors → py_len (soma colors) = Ok N.
Proof.
  unfold prepare_colors. intros Hp.
  match type of Hp with
  | (?m ≫= _) = _ => destruct m as [colors'|e]; simpl in Hp; [|discriminate]
  end.
  unfold check_len in Hp.
  destruct (py_len (soma colors')) as [n|e] eqn:Hn; simpl in Hp; [|discriminate].
  destruct (decide (n ≠ N)) as [?|Heq]; simpl in Hp; [discriminate|].
  destruct (py_len (axon colors')) as [n1|e]; simpl in Hp; [|discriminate].
  destruct (decide (n1 ≠ N)); simpl in Hp; [discriminate|].
  destruct (py_len (dendrites colors')) as [n2|e]; simpl in Hp; [|discriminate].
  destruct (decide (n2 ≠ N)); simpl in Hp; [discriminate|].
  injection Hp as <-. rewrite Hn. f_equal.
  destruct (decide (n = N)); [assumption|contradiction].
Qed.

Lemma color_neuron_soma_only (colors : parts) (cs : list pyval) (σ : actor_colors)
    (i : nat) (a : actor) (c : pyval) :
  soma colors = PList cs →
  cs !! i = Some c →
  color_neuron colors σ i (soma_only a) = Ok (<[a := c]> σ).
Proof.
  intros Hs Hc. unfold color_neuron. simpl. rewrite Hs. simpl.
  unfold getitem. rewrite Hc. reflexivity.
Qed.

Lemma color_neurons_soma_only (colors : parts) (cs : list pyval)
    (actors : list actor) :
  soma colors = PList cs →
  ∀ (i : nat) (σ : actor_colors),
    (i + length actors ≤ length cs)%nat →
    for_enumerate (color_neuron colors) i (soma_only <$> actors) σ
    = Ok (foldl (λ σ ac, <[ac.1 := ac.2]> σ) σ (zip actors (drop i cs))).
Proof.
  intros Hs. induction actors as [|a actors IH]; intros i σ Hi; [reflexivity|].
  simpl in Hi.
  destruct (cs !! i) as [c|] eqn:Hc; [|apply lookup_ge_None in Hc; lia].
  rewrite fmap_cons. cbn [for_enumerate].
  rewrite (color_neuron_soma_only colors cs σ i a c Hs Hc), bind_Ok.
  rewrite IH by lia.
  rewrite (drop_S _ _ _ Hc). reflexivity.
Qed.

(** Neurons given as actors: the call returns as soon as the colours are
    prepared, and the actors get the colours prepared for the somas, each
    the one at its position. *)
Lemma get_neurons_actors (actors : list actor) (color : pyval) (colors : parts)
    (cs : list pyval) (da dd : bool) (rad : pyval) (σ : actor_colors) :
  prepare_colors (length actors) color = Ok colors →
  soma colors = PList cs →
  length cs = length actors
  ∧ get_neurons (PList (PActor <$> actors)) color da dd rad σ
    = Ok (RTuple (unwrapped (soma_only <$> actors)) RNone,
          foldl (λ σ ac, <[ac.1 := ac.2]> σ) σ (zip actors cs)).
Proof.
  intros Hp Hs.
  assert (Hlen : length cs = length actors).
  { apply prepare_colors_soma_len in Hp. rewrite Hs in Hp. simpl in Hp. congruence. }
  split; [exact Hlen|].
  unfold get_neurons. cbn [as_neuron_list]. rewrite length_fmap.
  rewrite Hp, bind_Ok, render_neurons_actors, bind_Ok.
  rewrite (color_neurons_soma_only colors cs actors Hs) by (simpl; lia).
  rewrite bind_Ok, drop_0. apply get_neurons_return.
Qed.

Lemma prepare_colors_plain_list (N : nat) (cs : list pyval) (t : pytype) :
  length cs = N →
  cs ≠ [] →
  Forall (λ c, type_of c = t) cs →
  t ≠ TDict →
  prepare_colors N (PList cs)
  = Ok {| soma := PList cs; axon := PList cs; dendrites := PList cs |}
  ∧ prepare_colors N (PTuple cs) = Raise AttributeError.
Proof.
  intros Hlen Hne Hall Ht.
  assert (Hty : (length (remove_dups (type_of <$> cs)) ≤ 1)%nat).
  { apply (remove_dups_same t). apply Forall_fmap. exact Hall. }
  destruct cs as [|c0 cs]; [contradiction|].
  apply Forall_cons in Hall as H0. destruct H0 as [Hc0 _].
  unfold prepare_colors. cbn [py_getitem].
  destruct (decide (length (c0 :: cs) ≠ N)) as [?|_]; [contradiction|].
  destruct (decide (1 < length (remove_dups (type_of <$> c0 :: cs)))%nat) as [?|_]; [lia|].
  rewrite getitem_head, !bind_Ok.
  split.
  - destruct c0; try (simpl in Hc0; congruence);
      simpl; unfold check_len; simpl;
      (destruct (decide (S (length cs) ≠ N)) as [?|_]; [contradiction|reflexivity]).
  - destruct c0; try (simpl in Hc0; congruence); reflexivity.
Qed.



(** X10: a list of colours in which two elements have different types
    makes the call raise [ValueError], whatever the neurons. *)
Theorem get_neurons_color_list_mixed (neurons : pyval) (l : list pyval)
    (c1 c2 : pyval) (da dd : bool) (rad : pyval) (σ : actor_colors) :
  c1 ∈ l →
  c2 ∈ l →
  type_of c1 ≠ type_of c2 →
  get_neurons neurons (PList l) da dd rad σ = Raise ValueError
  ∧ get_neurons neurons (PTuple l) da dd rad σ = Raise ValueError.
Proof.
  intros H1 H2 Hne.
  assert (Hty : (1 < length (remove_dups (type_of <$> l)))%nat).
  { apply (remove_dups_two (type_of c1) (type_of c2));
      [apply list_elem_of_fmap_2; exact H1 | apply list_elem_of_fmap_2; exact H2 | exact Hne]. }
  unfold get_neurons, prepare_colors.
  destruct (decide (length l ≠ length (as_neuron_list neurons))); [split; reflexivity|].
  destruct (decide (1 < length (remove_dups (type_of <$> l)))%nat); [|contradiction].
  split; reflexivity.
Qed.

(** X11: a [color] that is not [None], a string, a dict, a list or a
    tuple, and a dict without the key "soma", make the call raise
    [ValueError] before any neuron is looked at. *)
Theorem get_neurons_color_invalid (neurons color : pyval) (da dd : bool)
    (rad : pyval) (σ : actor_colors) :
  (type_of color ∉ [TNoneType; TStr; TDict; TList; TTuple] →
     get_neurons neurons color da dd rad σ = Raise ValueError)
  ∧ (∀ d, color = PDict d → d !! "soma" = None →
       get_neurons neurons color da dd rad σ = Raise ValueError).
Proof.
  split.
  - intros Hty. unfold get_neurons, prepare_colors.
    destruct color; try reflexivity; exfalso; apply Hty; simpl;
      repeat (first [left | right]).
  - intros d -> Hd. unfold get_neurons, prepare_colors. simpl.
    rewrite Hd. reflexivity.
Qed.

End NeuronColours.

Lemma for_each_ext_in {A B} (g : A → result B) (f : A → B) (l : list A) :
  (∀ x, x ∈ l → g x = Ok (f x)) → for_each g l = Ok (f <$> l).
Proof.
  induction l as [|x l IH]; intros Hg; [reflexivity|].
  rewrite fmap_cons. cbn [for_each].
  rewrite (Hg x) by left. rewrite bind_Ok, IH, bind_Ok; [reflexivity|].
  intros y Hy. apply Hg. right. exact Hy.
Qed.

Section NeuronColours2.
Context `{Imports}.

(** X12: with neurons given as different actors and the name of a
    colormap as [color], the call returns and the actor of the n-th of the
    N neurons carries the colour [colorMap(n, name, vmin=-2, vmax=N+2)]. *)
Theorem get_neurons_colormap (actors : list actor) (c : string) (f : nat → pyval)
    (da dd : bool) (rad : pyval) (σ : actor_colors) :
  NoDup actors →
  c ∈ _mapscales_cmaps →
  (∀ n, (n < length actors)%nat →
     colorMap n c (-2) (Z.of_nat (length actors) + 2) = Ok (f n)) →
  ∃ σ',
    get_neurons (PList (PActor <$> actors)) (PStr c) da dd rad σ
    = Ok (RTuple (unwrapped (soma_only <$> actors)) RNone, σ')
    ∧ ∀ n a, actors !! n = Some a → σ' !! a = Some (f n).
Proof.
  intros Hnd Hc Hmap.
  set (cs := f <$> seq 0 (length actors)).
  assert (Hp : prepare_colors (length actors) (PStr c)
               = Ok {| soma := PList cs; axon := PList cs; dendrites := PList cs |}).
  { unfold prepare_colors.
    destruct (decide (c ∈ _mapscales_cmaps)) as [_|?]; [|contradiction].
    rewrite (for_each_ext_in _ f).
    - rewrite bind_Ok. unfold copies. simpl. unfold check_len. simpl.
      unfold cs. rewrite length_fmap, length_seq.
      destruct (decide (length actors ≠ length actors)) as [?|_]; [congruence|].
      reflexivity.
    - intros n Hn. apply elem_of_seq in Hn. apply Hmap. lia. }
  destruct (get_neurons_actors actors (PStr c) _ cs da dd rad σ Hp eq_refl) as [_ Hg].
  eexists. split; [exact Hg|].
  intros n a Ha. eapply foldl_insert_zip_lookup; [exact Hnd|exact Ha|].
  unfold cs. rewrite list_lookup_fmap, lookup_seq_lt; [reflexivity|].
  eapply lookup_lt_Some. exact Ha.
Qed.

(** X13: a dict as [color] gives its colours to the parts of the neuron:
    the soma the colour of "soma", and the axon and the dendrites the
    colours of "axon" and "dendrites", or the colour of "soma" where the
    dict does not have them. *)
Theorem get_neurons_color_dict (d cd : gmap string pyval) (a_s a_a a_d : actor)
    (s rad : pyval) (σ : actor_colors) :
  d !! "soma" = Some (PActor a_s) →
  d !! "axon" = Some (PActor a_a) →
  d !! "dendrites" = Some (PActor a_d) →
  d !! "apical_dendrites" = None →
  d !! "basal_dendrites" = None →
  cd !! "soma" = Some s →
  a_s ≠ a_a → a_s ≠ a_d → a_a ≠ a_d →
  ∃ σ',
    get_neurons (PDict d) (PDict cd) true true rad σ
    = Ok (RTuple (RNeuron {| soma := PActor a_s; axon := PActor a_a;
                             dendrites := PActor a_d |}) RNone, σ')
    ∧ σ' !! a_s = Some s
    ∧ σ' !! a_a = Some (default s (cd !! "axon"))
    ∧ σ' !! a_d = Some (default s (cd !! "dendrites")).
Proof.
  intros Hs Ha Hd Hap Hba Hcs Hsa Hsd Had.
  exists (<[a_d := default s (cd !! "dendrites")]>
            (<[a_s := s]> (<[a_a := default s (cd !! "axon")]> σ))).
  split.
  - unfold get_neurons, prepare_colors, render_neuron, neuron_actors_of,
      dict_dendrites. simpl.
    rewrite Hcs, Hs, Ha, Hd, Hap, Hba. reflexivity.
  - split; [|split].
    + rewrite lookup_insert_ne by congruence. apply lookup_insert_eq.
    + rewrite lookup_insert_ne by congruence.
      rewrite lookup_insert_ne by congruence. apply lookup_insert_eq.
    + apply lookup_insert_eq.
Qed.

Lemma render_neuron_dict_soma (da dd : bool) (rad : pyval)
    (d : gmap string pyval) (r : parts) :
  render_neuron da dd rad (PDict d) = Ok r →
  soma r = default PNone (d !! "soma").
Proof.
  unfold render_neuron, neuron_actors_of. simpl.
  destruct (dict_dendrites (PDict d)) as [dn|e]; simpl; [|discriminate].
  destruct (check_actor (default PNone (d !! "soma"))); simpl; [|discriminate].
  destruct (check_actor dn); simpl; [|discriminate].
  destruct (check_actor (default PNone (d !! "axon"))); simpl; [|discriminate].
  intros [= <-]. destruct da, dd; reflexivity.
Qed.

(** X14: a neuron given as a dict without a soma (no key "soma", or [None]
    under it) makes the call end in an exception: the soma of every neuron
    is coloured without a check for [None]. *)
Theorem get_neurons_dict_without_soma (neurons color : pyval)
    (d : gmap string pyval) (da dd : bool) (rad : pyval) (σ : actor_colors) :
  PDict d ∈ as_neuron_list neurons →
  d !! "soma" = None ∨ d !! "soma" = Some PNone →
  raises (get_neurons neurons color da dd rad σ).
Proof.
  intros Hin Hsoma.
  destruct (get_neurons neurons color da dd rad σ) as [[v σ']|e] eqn:Hg;
    [|apply raises_Raise].
  exfalso. unfold get_neurons in Hg.
  destruct (prepare_colors _ color) as [colors|e]; simpl in Hg; [|discriminate].
  destruct (for_each _ (as_neuron_list neurons)) as [recs|e] eqn:Hrecs;
    simpl in Hg; [|discriminate].
  destruct (for_enumerate _ 0%nat recs σ) as [σ1|e] eqn:Hcol;
    simpl in Hg; [|discriminate].
  apply for_each_Forall2 in Hrecs.
  apply for_enumerate_colored in Hcol as [Hall _].
  apply list_elem_of_lookup in Hin as [n Hn].
  destruct (Forall2_lookup_l _ _ _ _ _ Hrecs Hn) as (r & Hr & Hrender).
  apply render_neuron_dict_soma in Hrender.
  rewrite Forall_forall in Hall.
  destruct (Hall r) as [(a & Ha & _) _]; [eapply list_elem_of_lookup_2; exact Hr|].
  rewrite Hrender in Ha. destruct Hsoma as [Hs|Hs]; rewrite Hs in Ha; discriminate.
Qed.

Lemma get_neurons_first_raises (neuron : pyval) (rest : list pyval)
    (color : pyval) (colors : parts) (da dd : bool) (rad : pyval)
    (σ : actor_colors) (e : exn) :
  prepare_colors (S (length rest)) color = Ok colors →
  neuron_actors_of rad neuron = Raise e →
  get_neurons (PList (neuron :: rest)) color da dd rad σ = Raise e.
Proof.
  intros Hp Hn. unfold get_neurons. cbn [as_neuron_list length].
  rewrite Hp, bind_Ok. cbn [for_each]. unfold render_neuron. rewrite Hn. reflexivity.
Qed.

(** X15: once the colours are prepared, a first neuron that is not a valid
    input ends the call: a string that is not the path of a file, or a
    value that is no string, actor, dict or morphapi neuron, with
    [ValueError]; the path of a file that is not an swc file with
    [NotImplementedError]. *)
Theorem get_neurons_invalid_neuron (neuron : pyval) (rest : list pyval)
    (color : pyval) (colors : parts) (da dd : bool) (rad : pyval)
    (σ : actor_colors) :
  prepare_colors (S (length rest)) color = Ok colors →
  (∀ file, neuron = PStr file → isfile file = false →
     get_neurons (PList (neuron :: rest)) color da dd rad σ = Raise ValueError)
  ∧ (∀ file, neuron = PStr file → isfile file = true →
       endswith file ".swc" = false →
       get_neurons (PList (neuron :: rest)) color da dd rad σ
       = Raise NotImplementedError)
  ∧ (type_of neuron ∉ [TStr; TActor; TDict; TNeuron] →
       get_neurons (PList (neuron :: rest)) color da dd rad σ = Raise ValueError).
Proof.
  intros Hp. split; [|split].
  - intros file -> Hf. apply (get_neurons_first_raises _ _ _ colors); [exact Hp|].
    simpl. rewrite Hf. reflexivity.
  - intros file -> Hf Hsw. apply (get_neurons_first_raises _ _ _ colors); [exact Hp|].
    simpl. rewrite Hf, Hsw. reflexivity.
  - intros Hty. apply (get_neurons_first_raises _ _ _ colors); [exact Hp|].
    destruct neuron; try reflexivity; exfalso; apply Hty; simpl;
      repeat (first [left | right]).
Qed.

End NeuronColours2.



Lemma get_neurons_color_list_mixed_witness :
  @get_neurons Examples.imports (PList [PActor 1; PActor 2])
    (PList [PStr "red"; PDict {[ "soma" := PStr "blue" ]}]) true true PNone ∅
  = Raise ValueError
  ∧ @get_neurons Examples.imports (PList [PActor 1; PActor 2])
      (PTuple [PStr "red"; PDict {[ "soma" := PStr "blue" ]}]) true true PNone ∅
    = Raise ValueError.
Proof.
  apply (@get_neurons_color_list_mixed Examples.imports (PList [PActor 1; PActor 2])
           [PStr "red"; PDict {[ "soma" := PStr "blue" ]}]
           (PStr "red") (PDict {[ "soma" := PStr "blue" ]})).
  - left.
  - right. left.
  - discriminate.
Defined.

Lemma get_neurons_color_invalid_witness :
  @get_neurons Examples.imports (PActor 1) (PInt 3) true true PNone ∅
  = Raise ValueError
  ∧ @get_neurons Examples.imports (PActor 1) (PDict {[ "axon" := PStr "red" ]})
      true true PNone ∅
    = Raise ValueError.
Proof.
  split.
  - apply (proj1 (@get_neurons_color_invalid Examples.imports (PActor 1) (PInt 3)
                    true true PNone ∅)).
    simpl. intros Hin.
    repeat (apply elem_of_cons in Hin as [Hin|Hin]; [discriminate|]).
    inversion Hin.
  - apply (proj2 (@get_neurons_color_invalid Examples.imports (PActor 1)
                    (PDict {[ "axon" := PStr "red" ]}) true true PNone ∅)
             {[ "axon" := PStr "red" ]}); reflexivity.
Defined.

Lemma get_neurons_colormap_witness :
  ∃ σ',
    @get_neurons Examples.imports (PList (PActor <$> [1%positive; 2%positive]))
      (PStr "viridis") true true PNone ∅
    = Ok (RTuple (unwrapped (soma_only <$> [1%positive; 2%positive])) RNone, σ')
    ∧ ∀ n a, [1%positive; 2%positive] !! n = Some a →
        σ' !! a = Some (PTuple [PStr "viridis"; PInt (Z.of_nat n)]).
Proof.
  apply (@get_neurons_colormap Examples.imports [1%positive; 2%positive] "viridis"
           (λ n, PTuple [PStr "viridis"; PInt (Z.of_nat n)])).
  - repeat constructor; intros Hin; inversion Hin as [|? ? ? Hin']; subst;
      inversion Hin'.
  - left.
  - intros n _. reflexivity.
Defined.

Lemma get_neurons_color_dict_witness :
  ∃ σ',
    @get_neurons Examples.imports
      (PDict {[ "soma" := PActor 1; "axon" := PActor 2; "dendrites" := PActor 3 ]})
      (PDict {[ "soma" := PStr "red"; "axon" := PStr "blue" ]}) true true PNone ∅
    = Ok (RTuple (RNeuron {| soma := PActor 1; axon := PActor 2;
                             dendrites := PActor 3 |}) RNone, σ')
    ∧ σ' !! 1%positive = Some (PStr "red")
    ∧ σ' !! 2%positive = Some (PStr "blue")
    ∧ σ' !! 3%positive = Some (PStr "red").
Proof.
  assert (H12 : 1%positive ≠ 2%positive) by discriminate.
  assert (H13 : 1%positive ≠ 3%positive) by discriminate.
  assert (H23 : 2%positive ≠ 3%positive) by discriminate.
  exact (@get_neurons_color_dict Examples.imports
           {[ "soma" := PActor 1; "axon" := PActor 2; "dendrites" := PActor 3 ]}
           {[ "soma" := PStr "red"; "axon" := PStr "blue" ]}
           1%positive 2%positive 3%positive (PStr "red") PNone ∅
           eq_refl eq_refl eq_refl eq_refl eq_refl eq_refl H12 H13 H23).
Defined.

Lemma get_neurons_dict_without_soma_witness :
  raises (@get_neurons Examples.imports
            (PList [PActor 1; PDict {[ "axon" := PActor 2 ]}])
            (PStr "red") true true PNone ∅).
Proof.
  apply (@get_neurons_dict_without_soma Examples.imports
           (PList [PActor 1; PDict {[ "axon" := PActor 2 ]}]) (PStr "red")
           {[ "axon" := PActor 2 ]}).
  - right. left.
  - left. reflexivity.
Defined.

Lemma get_neurons_invalid_neuron_witness :
  @get_neurons MoreExamples.imports_with_files
    (PList [PStr "missing.swc"; PActor 1]) (PStr "red") true true PNone ∅
  = Raise ValueError
  ∧ @get_neurons MoreExamples.imports_with_files
      (PList [PStr "neuron.json"; PActor 1]) (PStr "red") true true PNone ∅
    = Raise NotImplementedError
  ∧ @get_neurons MoreExamples.imports_with_files
      (PList [PInt 7; PActor 1]) (PStr "red") true true PNone ∅
    = Raise ValueError.
Proof.
  destruct (@get_neurons_invalid_neuron MoreExamples.imports_with_files
              (PStr "missing.swc") [PActor 1] (PStr "red")
              {| soma := PList [PStr "red"; PStr "red"];
                 axon := PList [PStr "red"; PStr "red"];
                 dendrites := PList [PStr "red"; PStr "red"] |}
              true true PNone ∅ eq_refl) as (Hfile & _ & _).
  destruct (@get_neurons_invalid_neuron MoreExamples.imports_with_files
              (PStr "neuron.json") [PActor 1] (PStr "red")
              {| soma := PList [PStr "red"; PStr "red"];
                 axon := PList [PStr "red"; PStr "red"];
                 dendrites := PList [PStr "red"; PStr "red"] |}
              true true PNone ∅ eq_refl) as (_ & Hswc & _).
  destruct (@get_neurons_invalid_neuron MoreExamples.imports_with_files (PInt 7)
              [PActor 1] (PStr "red")
              {| soma := PList [PStr "red"; PStr "red"];
                 axon := PList [PStr "red"; PStr "red"];
                 dendrites := PList [PStr "red"; PStr "red"] |}
              true true PNone ∅ eq_refl) as (_ & _ & Hty).
  split; [|split].
  - apply (Hfile "missing.swc"); reflexivity.
  - apply (Hswc "neuron.json"); reflexivity.
  - apply Hty. simpl. intros Hin.
    repeat (apply elem_of_cons in Hin as [Hin|Hin]; [discriminate|]).
    inversion Hin.
Defined.

(** ** Tractography *)

Section TractographyMore.
Context `{Imports}.

(** X16: the checks of the arguments of [get_tractography]: a
    [tractography] that is neither a list nor a dict, or a list whose first
    element is not a dict, raises [ValueError], and an empty list
    [IndexError]; after that a [VIP_regions] that is not a list raises
    [ValueError], and after that so does a [color_by] that is none of
    "manual", "region" and "target_region". *)
Theorem get_tractography_argument_errors (self : ABA)
    (tractography : tractography_arg) (color : pyval) (color_by : string)
    (others_alpha : Q) (VIP_regions : regions_arg) (VIP_color others_color : pyval)
    (incl : bool) (extract : extract_arg) (display : bool) :
  (tractography = TractographyOther →
     get_tractography self tractography color color_by others_alpha VIP_regions
       VIP_color others_color incl extract display = Raise ValueError)
  ∧ (tractography = TractographyList [] →
       get_tractography self tractography color color_by others_alpha VIP_regions
         VIP_color others_color incl extract display = Raise IndexError)
  ∧ (∀ rest, tractography = TractographyList (TractOther :: rest) →
       get_tractography self tractography color color_by others_alpha VIP_regions
         VIP_color others_color incl extract display = Raise ValueError)
  ∧ (∀ items, check_tractography tractography = Ok items →
       VIP_regions = RegionsOther →
       get_tractography self tractography color color_by others_alpha VIP_regions
         VIP_color others_color incl extract display = Raise ValueError)
  ∧ (∀ items vip, check_tractography tractography = Ok items →
       VIP_regions = RegionsList vip →
       color_by ∉ ["manual"; "region"; "target_region"] →
       get_tractography self tractography color color_by others_alpha VIP_regions
         VIP_color others_color incl extract display = Raise ValueError).
Proof.
  repeat split.
  - intros ->. reflexivity.
  - intros ->. reflexivity.
  - intros rest ->. reflexivity.
  - intros items Hitems ->. unfold get_tractography. rewrite Hitems. reflexivity.
  - intros items vip Hitems -> Hby. unfold get_tractography.
    rewrite Hitems, !bind_Ok. unfold tractography_colors.
    destruct (String.eqb_spec color_by "manual") as [->|_];
      [exfalso; apply Hby; left|].
    destruct (String.eqb_spec color_by "region") as [->|_];
      [exfalso; apply Hby; right; left|].
    destruct (String.eqb_spec color_by "target_region") as [->|_];
      [exfalso; apply Hby; right; right; left|].
    reflexivity.
Qed.

(** When the opacity is not that of a target region, no injection
    coordinates are checked and [TRACTO_ALPHA] is not zero, the loop keeps
    every record. *)
Lemma tract_loop_keeps_all (self : ABA) (color_by : string) (others_alpha : Q)
    (vip : list string) (incl : bool) (extract : extract_arg) (display : bool)
    (ts : list tract) :
  String.eqb color_by "target_region" = false →
  extract_truthy extract = false →
  ¬ (TRACTO_ALPHA == 0)%Q →
  Forall (λ t, ∃ inj, tract_inj_structures self incl t = Ok inj) ts →
  ∀ (COLORS : list pyval) (actors : list shape),
    for_fold (tract_step self color_by others_alpha vip incl extract display)
      (zip (TractDict <$> ts) COLORS) actors
    = Ok (actors ++ concat (zip_with (tract_shapes display TRACTO_ALPHA) ts COLORS)).
Proof.
  intros Hby Hex Halpha Hinj.
  induction Hinj as [|t ts [inj Ht] _ IH]; intros COLORS actors.
  - simpl. rewrite app_nil_r. reflexivity.
  - destruct COLORS as [|c COLORS]; [simpl; rewrite app_nil_r; reflexivity|].
    rewrite fmap_cons. cbn [zip zip_with for_fold concat].
    assert (Hstep : tract_step self color_by others_alpha vip incl extract display
                      actors (TractDict t, c)
                    = Ok (actors ++ tract_shapes display TRACTO_ALPHA t c)).
    { unfold tract_step. cbn [item_tract]. rewrite bind_Ok, Ht, bind_Ok.
      unfold tract_alpha. rewrite Hby. cbn [andb].
      destruct (Qeq_bool TRACTO_ALPHA 0) eqn:Hz;
        [apply Qeq_bool_iff in Hz; contradiction|].
      unfold check_injection_coords. rewrite Hex, bind_Ok. cbn [negb].
      unfold tract_shapes. destruct display; [|reflexivity].
      rewrite <- app_assoc. reflexivity. }
    rewrite Hstep, bind_Ok, IH, <- app_assoc. reflexivity.
Qed.


End TractographyMore.

Lemma for_each_fmap_in {A B C} (f : B → result C) (g : A → B) (h : A → C)
    (l : list A) :
  (∀ x, x ∈ l → f (g x) = Ok (h x)) → for_each f (g <$> l) = Ok (h <$> l).
Proof.
  induction l as [|x l IH]; intros Hf; [reflexivity|].
  rewrite !fmap_cons. cbn [for_each].
  rewrite (Hf x) by left. rewrite bind_Ok, IH, bind_Ok; [reflexivity|].
  intros y Hy. apply Hf. right. exact Hy.
Qed.

Section TractographyMore2.
Context `{Imports}.

(** In "region" mode a colour of [COLORS] is that of the source structure
    of its record. *)
Lemma region_colors (self : ABA) (items : list tract_item) (color : pyval)
    (vip : list string) (VIP_color others_color : pyval) (incl : bool)
    (COLORS : list pyval) :
  tractography_colors self items color "region" vip VIP_color others_color incl
  = Ok COLORS →
  Forall2 (λ it col, ∃ t st,
    it = TractDict t
    ∧ get_structures_by_acronym self (structure_abbrev t) = Ok st
    ∧ col = rgb (rgb_triplet st)) items COLORS.
Proof.
  unfold tractography_colors. cbn [String.eqb Ascii.eqb Bool.eqb].
  intros Hc. apply for_each_Forall2 in Hc.
  eapply Forall2_impl; [exact Hc|].
  intros it col Hcol. destruct it as [t|]; [|discriminate].
  cbn [item_tract] in Hcol. rewrite bind_Ok in Hcol. unfold get_region_color in Hcol.
  destruct (get_structures_by_acronym self (structure_abbrev t)) as [st|e] eqn:Hst;
    [|discriminate].
  injection Hcol as <-. exists t, st. split; [reflexivity|].
  split; [exact Hst|reflexivity].
Qed.

(** X18: in "region" mode the argument [color] is not read: the result
    does not depend on it, and every shape that is returned has the colour
    that the source structure of a record has in the structure tree.  When
    the injection coordinates are not checked, [TRACTO_ALPHA] is not zero
    and the structures are found, every record is drawn, in the order of
    the records. *)
Theorem get_tractography_by_region (self : ABA) (tractography : tractography_arg)
    (structure_of : tract → structure)
    (others_alpha : Q) (VIP_regions : regions_arg) (VIP_color others_color : pyval)
    (incl : bool) (extract : extract_arg) (display : bool) :
  (∀ color1 color2,
     get_tractography self tractography color1 "region" others_alpha VIP_regions
       VIP_color others_color incl extract display
     = get_tractography self tractography color2 "region" others_alpha VIP_regions
         VIP_color others_color incl extract display)
  ∧ (∀ color actors,
       get_tractography self tractography color "region" others_alpha VIP_regions
         VIP_color others_color incl extract display = Ok actors →
       ∃ items,
         check_tractography tractography = Ok items
         ∧ Forall (λ s, ∃ t st,
             TractDict t ∈ items
             ∧ get_structures_by_acronym self (structure_abbrev t) = Ok st
             ∧ shape_color s = rgb (rgb_triplet st)) actors)
  ∧ (∀ ts vip color,
       tractography = TractographyList (TractDict <$> ts) →
       VIP_regions = RegionsList vip →
       ts ≠ [] →
       extract_truthy extract = false →
       ¬ (TRACTO_ALPHA == 0)%Q →
       Forall (λ t, ∃ inj, tract_inj_structures self incl t = Ok inj) ts →
       (∀ t, t ∈ ts →
          get_structures_by_acronym self (structure_abbrev t) = Ok (structure_of t)) →
       get_tractography self tractography color "region" others_alpha VIP_regions
         VIP_color others_color incl extract display
       = Ok (concat ((λ t, tract_shapes display TRACTO_ALPHA t
                             (rgb (rgb_triplet (structure_of t)))) <$> ts))).
Proof.
  split; [|split].
  - intros color1 color2. reflexivity.
  - intros color actors Hg. unfold get_tractography in Hg.
    destruct (check_tractography tractography) as [items|e]; simpl in Hg;
      [|discriminate].
    destruct VIP_regions as [vip|]; simpl in Hg; [|discriminate].
    destruct (tractography_colors self items color "region" vip VIP_color
                others_color incl) as [COLORS|e] eqn:Hc; [|discriminate].
    rewrite bind_Ok in Hg.
    apply region_colors in Hc.
    apply tract_loop_concat in Hg as (shapes & Hall & ->). simpl.
    exists items. split; [reflexivity|].
    apply Forall_forall. intros s Hs.
    apply list_elem_of_In, in_concat in Hs as (sh & Hsh & Hs).
    apply list_elem_of_In in Hsh. apply list_elem_of_In in Hs.
    apply list_elem_of_lookup in Hsh as [n Hn].
    destruct (Forall2_lookup_r _ _ _ _ _ Hall Hn) as ([it col] & Hzip & Hstep).
    apply lookup_zip_Some in Hzip as [Hit Hcol].
    destruct (Forall2_lookup_l _ _ _ _ _ Hc Hit) as (col' & Hcol' & t & st & -> & Hst & ->).
    assert (col = rgb (rgb_triplet st)) as -> by congruence.
    exists t, st. split; [eapply list_elem_of_lookup_2; exact Hit|].
    split; [exact Hst|].
    apply tract_step_shapes in Hstep as [->|(inj & _ & _ & ->)]; [inversion Hs|].
    apply elem_of_app in Hs as [Hs|Hs].
    + destruct display; [|inversion Hs].
      apply list_elem_of_singleton in Hs. subst s. reflexivity.
    + apply list_elem_of_singleton in Hs. subst s. reflexivity.
  - intros ts vip color -> -> Hts Hex Halpha Hinj Hstruct.
    assert (Hcheck : check_tractography (TractographyList (TractDict <$> ts))
                     = Ok (TractDict <$> ts)).
    { destruct ts as [|t ts]; [contradiction|]. reflexivity. }
    unfold get_tractography. rewrite Hcheck, !bind_Ok.
    unfold tractography_colors. cbn [String.eqb Ascii.eqb Bool.eqb].
    rewrite (for_each_fmap_in _ TractDict (λ t, rgb (rgb_triplet (structure_of t)))).
    + rewrite bind_Ok.
      rewrite (tract_loop_keeps_all self "region" others_alpha vip incl extract
                 display ts eq_refl Hex Halpha Hinj).
      cbn [app]. do 2 f_equal. clear. induction ts as [|t ts IH]; [reflexivity|].
      rewrite !fmap_cons. cbn [zip_with]. rewrite IH. reflexivity.
    + intros t Ht. cbn [item_tract]. rewrite bind_Ok.
      unfold get_region_color. rewrite (Hstruct t Ht). reflexivity.
Qed.

Lemma tract_steps_size (self : ABA) (color_by : string) (others_alpha : Q)
    (vip : list string) (incl : bool) (extract : extract_arg) (display : bool)
    (l : list (tract_item * pyval)) (shapes : list (list shape)) :
  Forall2 (λ tc s,
    tract_step self color_by others_alpha vip incl extract display [] tc = Ok s)
    l shapes →
  (length (concat shapes) ≤ (if display then 2 else 1) * length l)%nat
  ∧ (display = false → Forall is_tube (concat shapes))
  ∧ Forall (λ s, match s with
                 | Sphere _ _ _ alpha => alpha = TRACTO_ALPHA
                 | Tube _ _ _ alpha _ => ¬ (alpha == 0)%Q
                 end) (concat shapes).
Proof.
  induction 1 as [|[it c] s l shapes Hs _ (IHlen & IHtube & IHalpha)].
  - simpl. split; [lia|]. split; [intros _|]; constructor.
  - destruct it as [t|]; [|discriminate].
    apply tract_step_shapes in Hs as [->|(inj & _ & Hnz & ->)].
    + simpl. split; [destruct display; lia|]. split; assumption.
    + cbn [concat]. rewrite length_app. split; [|split].
      * destruct display; simpl in *; lia.
      * intros ->. apply Forall_app. split; [|apply IHtube; reflexivity].
        repeat constructor.
      * apply Forall_app. split; [|exact IHalpha].
        destruct display; repeat constructor; exact Hnz.
Qed.

(** X19: what [get_tractography] returns holds at most two shapes for each
    record, and at most one when no injection volume is displayed, in
    which case they are all tubes; every sphere in it has the opacity
    [TRACTO_ALPHA] and every tube an opacity that is not zero. *)
Theorem get_tractography_size (self : ABA) (tractography : tractography_arg)
    (color : pyval) (color_by : string) (others_alpha : Q)
    (VIP_regions : regions_arg) (VIP_color others_color : pyval) (incl : bool)
    (extract : extract_arg) (display : bool) (actors : list shape) :
  get_tractography self tractography color color_by others_alpha VIP_regions
    VIP_color others_color incl extract display = Ok actors →
  ∃ items,
    check_tractography tractography = Ok items
    ∧ (length actors ≤ (if display then 2 else 1) * length items)%nat
    ∧ (display = false → Forall is_tube actors)
    ∧ Forall (λ s, match s with
                   | Sphere _ _ _ alpha => alpha = TRACTO_ALPHA
                   | Tube _ _ _ alpha _ => ¬ (alpha == 0)%Q
                   end) actors.
Proof.
  unfold get_tractography. intros Hg.
  destruct (check_tractography tractography) as [items|e]; simpl in Hg; [|discriminate].
  destruct VIP_regions as [vip|]; simpl in Hg; [|discriminate].
  destruct (tractography_colors _ _ _ _ _ _ _ _) as [COLORS|e] eqn:Hc;
    simpl in Hg; [|discriminate].
  apply tractography_colors_length in Hc.
  apply tract_loop_concat in Hg as (shapes & Hall & ->). simpl.
  apply tract_steps_size in Hall as (Hlen & Htube & Halpha).
  exists items. split; [reflexivity|].
  rewrite length_zip, Hc, Nat.min_id in Hlen.
  split; [exact Hlen|]. split; assumption.
Qed.

(** A record whose injection coordinates have no structure leaves the
    loop at [continue]. *)
Lemma tract_step_not_located (self : ABA) (color_by : string) (others_alpha : Q)
    (vip : list string) (incl : bool) (extract : extract_arg) (display : bool)
    (actors : list shape) (t : tract) (c : pyval) (inj : list string) :
  extract_truthy extract = true →
  located self (TractDict t) = false →
  tract_inj_structures self incl t = Ok inj →
  tract_step self color_by others_alpha vip incl extract display actors
    (TractDict t, c) = Ok actors.
Proof.
  intros Hex Hloc Hinj. unfold tract_step. cbn [item_tract].
  rewrite bind_Ok, Hinj, bind_Ok.
  destruct (Qeq_bool _ 0); [reflexivity|].
  unfold check_injection_coords. rewrite Hex.
  unfold located in Hloc. apply bool_decide_eq_false in Hloc.
  destruct (get_structure_from_coordinates self (injection_coordinates t) false);
    [exfalso; apply Hloc; eauto|reflexivity].
Qed.

(** The loop gives what it gives without the records whose injection
    coordinates have no structure. *)
Lemma tract_loop_located (self : ABA) (color_by : string) (others_alpha : Q)
    (vip : list string) (incl : bool) (extract : extract_arg) (display : bool)
    (l : list (tract_item * pyval)) :
  extract_truthy extract = true →
  Forall (λ tc, ∀ t, tc.1 = TractDict t → located self (TractDict t) = false →
                     ∃ inj, tract_inj_structures self incl t = Ok inj) l →
  ∀ actors,
    for_fold (tract_step self color_by others_alpha vip incl extract display) l actors
    = for_fold (tract_step self color_by others_alpha vip incl extract display)
        (List.filter (λ tc, located self tc.1) l) actors.
Proof.
  intros Hex Hall. induction Hall as [|[it c] l Hinj _ IH]; intros actors;
    [reflexivity|].
  cbn [List.filter fst]. destruct (located self it) eqn:Hloc.
  - cbn [for_fold].
    destruct (tract_step _ _ _ _ _ _ _ actors (it, c)) as [actors'|e];
      [rewrite !bind_Ok; apply IH|reflexivity].
  - destruct it as [t|]; [|discriminate].
    destruct (Hinj t eq_refl Hloc) as [inj Hi].
    cbn [for_fold].
    rewrite (tract_step_not_located _ _ _ _ _ _ _ actors t c inj Hex Hloc Hi), bind_Ok.
    apply IH.
Qed.

(** X20: when the structure of the injection is taken from its
    coordinates, the records whose coordinates have no structure, as those
    outside the annotation volume, are left out and the others are treated
    as without them: the call gives what the loop gives on the other
    records with their colours, and an empty list if there is no other
    record.  The injection structures of a record that is left out are
    looked up before, which must not fail. *)
Theorem get_tractography_outside_volume (self : ABA)
    (tractography : tractography_arg) (items : list tract_item)
    (color : pyval) (color_by : string) (others_alpha : Q) (vip : list string)
    (VIP_color others_color : pyval) (incl : bool) (extract : extract_arg)
    (display : bool) (COLORS : list pyval) :
  extract_truthy extract = true →
  check_tractography tractography = Ok items →
  tractography_colors self items color color_by vip VIP_color others_color incl
  = Ok COLORS →
  (∀ t, TractDict t ∈ items → located self (TractDict t) = false →
        ∃ inj, tract_inj_structures self incl t = Ok inj) →
  get_tractography self tractography color color_by others_alpha (RegionsList vip)
    VIP_color others_color incl extract display
  = for_fold (tract_step self color_by others_alpha vip incl extract display)
      (List.filter (λ tc, located self tc.1) (zip items COLORS)) []
  ∧ (Forall (λ it, located self it = false) items →
     get_tractography self tractography color color_by others_alpha (RegionsList vip)
       VIP_color others_color incl extract display = Ok []).
Proof.
  intros Hex Hitems Hcolors Hinj.
  assert (Heq : get_tractography self tractography color color_by others_alpha
                  (RegionsList vip) VIP_color others_color incl extract display
                = for_fold (tract_step self color_by others_alpha vip incl extract
                              display)
                    (List.filter (λ tc, located self tc.1) (zip items COLORS)) []).
  { unfold get_tractography. rewrite Hitems, !bind_Ok, Hcolors, bind_Ok.
    apply tract_loop_located; [exact Hex|].
    apply Forall_forall. intros [it c] Hin t Hit Hloc. simpl in Hit. subst it.
    apply elem_of_zip_l in Hin. apply Hinj; assumption. }
  split; [exact Heq|].
  intros Hnone. rewrite Heq.
  assert (Hfilter : List.filter (λ tc : tract_item * pyval, located self tc.1)
                      (zip items COLORS) = []).
  { clear -Hnone. revert COLORS.
    induction Hnone as [|it items Hit _ IH]; intros COLORS; [reflexivity|].
    destruct COLORS as [|c COLORS]; [reflexivity|].
    cbn [zip zip_with List.filter fst]. rewrite Hit. apply IH. }
  rewrite Hfilter. reflexivity.
Qed.

End TractographyMore2.

Lemma get_tractography_argument_errors_witness :
  @get_tractography Examples.imports Examples.atlas (TractographyList []) PNone
    "manual" 1%Q (RegionsList []) PNone (PStr "white") false (ExtractBool false) true
  = Raise IndexError
  ∧ @get_tractography Examples.imports Examples.atlas
      (TractographyDict Examples.experiment) PNone "manual" 1%Q RegionsOther
      PNone (PStr "white") false (ExtractBool false) true
    = Raise ValueError
  ∧ @get_tractography Examples.imports Examples.atlas
      (TractographyDict Examples.experiment) PNone "source" 1%Q (RegionsList [])
      PNone (PStr "white") false (ExtractBool false) true
    = Raise ValueError.
Proof.
  split; [|split].
  - destruct (@get_tractography_argument_errors Examples.imports Examples.atlas
                (TractographyList []) PNone "manual" 1%Q (RegionsList []) PNone
                (PStr "white") false (ExtractBool false) true) as (_ & Hempty & _).
    apply Hempty. reflexivity.
  - destruct (@get_tractography_argument_errors Examples.imports Examples.atlas
                (TractographyDict Examples.experiment) PNone "manual" 1%Q RegionsOther
                PNone (PStr "white") false (ExtractBool false) true)
      as (_ & _ & _ & Hvip & _).
    apply (Hvip [TractDict Examples.experiment]); reflexivity.
  - destruct (@get_tractography_argument_errors Examples.imports Examples.atlas
                (TractographyDict Examples.experiment) PNone "source" 1%Q
                (RegionsList []) PNone (PStr "white") false (ExtractBool false) true)
      as (_ & _ & _ & _ & Hby).
    apply (Hby [TractDict Examples.experiment] []); [reflexivity..|].
    intros Hin.
    repeat (apply elem_of_cons in Hin as [Hin|Hin]; [discriminate|]).
    inversion Hin.
Defined.


Lemma get_tractography_by_region_witness :
  @get_tractography Examples.imports Examples.atlas
    (TractographyList (TractDict <$> [Examples.experiment; Examples.experiment_MOs]))
    (PStr "red") "region" 1%Q (RegionsList []) PNone (PStr "white") true
    (ExtractBool false) false
  = Ok [Tube (path Examples.experiment) 1%Q (rgb [255; 112; 128]) 1%Q 12;
        Tube (path Examples.experiment_MOs) 1%Q (rgb [31; 157; 90]) 1%Q 12].
Proof.
  destruct (@get_tractography_by_region Examples.imports Examples.atlas
              (TractographyList
                 (TractDict <$> [Examples.experiment; Examples.experiment_MOs]))
              (λ t, if String.eqb (structure_abbrev t) "TH"
                    then Examples.thalamus else Examples.motor)
              1%Q (RegionsList []) PNone (PStr "white") true (ExtractBool false) false)
    as (_ & _ & Hdrawn).
  apply (Hdrawn [Examples.experiment; Examples.experiment_MOs] [] (PStr "red")).
  - reflexivity.
  - reflexivity.
  - discriminate.
  - reflexivity.
  - discriminate.
  - repeat constructor; eexists; reflexivity.
  - intros t Ht.
    apply elem_of_cons in Ht as [->|Ht]; [reflexivity|].
    apply elem_of_cons in Ht as [->|Ht]; [reflexivity|inversion Ht].
Defined.

Lemma get_tractography_size_witness :
  ∃ items,
    check_tractography
      (TractographyList [TractDict Examples.experiment; TractDict Examples.experiment_MOs])
    = Ok items
    ∧ (length [Tube (path Examples.experiment) 1%Q (rgb [255; 112; 128]%Z) 1%Q 12%Z]
       ≤ 1 * length items)%nat
    ∧ (false = false →
       Forall is_tube [Tube (path Examples.experiment) 1%Q (rgb [255; 112; 128]) 1%Q 12])
    ∧ Forall (λ s, match s with
                   | Sphere _ _ _ alpha => alpha = @TRACTO_ALPHA Examples.imports
                   | Tube _ _ _ alpha _ => ¬ (alpha == 0)%Q
                   end)
        [Tube (path Examples.experiment) 1%Q (rgb [255; 112; 128]) 1%Q 12].
Proof.
  apply (@get_tractography_size Examples.imports Examples.atlas
           (TractographyList [TractDict Examples.experiment;
                              TractDict Examples.experiment_MOs])
           PNone "target_region" 0%Q (RegionsList ["TH"]) PNone (PStr "white")
           true (ExtractBool false) false).
  reflexivity.
Defined.

(** Of two experiments, the one injected outside the volume is left out
    and the one injected in the thalamus is drawn. *)
Lemma get_tractography_outside_volume_witness :
  @get_tractography Examples.imports Examples.atlas
    (TractographyList [TractDict Examples.experiment;
                       TractDict MoreExamples.experiment_inside])
    (PList [PStr "red"; PStr "blue"]) "manual" 1%Q
    (RegionsList []) PNone (PStr "white") true (ExtractBool true) false
  = Ok [Tube (path MoreExamples.experiment_inside) 1%Q (PStr "blue") 1%Q 12]
  ∧ @get_tractography Examples.imports Examples.atlas
      (TractographyList [TractDict Examples.experiment]) PNone "manual" 1%Q
      (RegionsList []) PNone (PStr "white") true (ExtractBool true) true
    = Ok [].
Proof.
  split.
  - destruct (@get_tractography_outside_volume Examples.imports Examples.atlas
                (TractographyList [TractDict Examples.experiment;
                                   TractDict MoreExamples.experiment_inside])
                [TractDict Examples.experiment; TractDict MoreExamples.experiment_inside]
                (PList [PStr "red"; PStr "blue"]) "manual" 1%Q [] PNone (PStr "white")
                true (ExtractBool true) false [PStr "red"; PStr "blue"])
      as [Heq _].
    + reflexivity.
    + reflexivity.
    + reflexivity.
    + intros t _ _. eexists. reflexivity.
    + rewrite Heq. reflexivity.
  - destruct (@get_tractography_outside_volume Examples.imports Examples.atlas
                (TractographyList [TractDict Examples.experiment])
                [TractDict Examples.experiment] PNone "manual" 1%Q [] PNone
                (PStr "white") true (ExtractBool true) true [PStr "salmon"])
      as [_ Hnone].
    + reflexivity.
    + reflexivity.
    + reflexivity.
    + intros t _ _. eexists. reflexivity.
    + apply Hnone. repeat constructor.
Defined.

(** ** Injection sites and the search of projections *)

Section SitesAndSearch.
Context `{Imports} `{MeshImports}.

Lemma injection_sites_loop (color : pyval) (es : list Experiment.t) :
  ∀ injection_sites,
    for_fold (λ injection_sites it,
      exp ← item_experiment it;
      mret (injection_sites
            ++ [Site [Experiment.injection_x exp; Experiment.injection_y exp;
                      Experiment.injection_z exp]
                  (INJECTION_VOLUME_SIZE * Experiment.injection_volume exp * 3)
                  color])) (ExperimentDict <$> es) injection_sites
    = Ok (injection_sites
          ++ ((λ exp, Site [Experiment.injection_x exp; Experiment.injection_y exp;
                            Experiment.injection_z exp]
                        (INJECTION_VOLUME_SIZE * Experiment.injection_volume exp * 3)
                        color) <$> es)).
Proof.
  induction es as [|e es IH]; intros sites.
  - simpl. rewrite app_nil_r. reflexivity.
  - rewrite !fmap_cons. cbn [for_fold item_experiment].
    unfold mret, result_ret. rewrite !bind_Ok, IH, <- app_assoc. reflexivity.
Qed.


Lemma np_int_floor (p : Q) : (0 <= p)%Q → np_int p = Qfloor p.
Proof.
  intros Hp. destruct p as [n d]. unfold np_int, Qfloor. simpl.
  apply Z.quot_div_nonneg; [|lia].
  unfold Qle in Hp. simpl in Hp. lia.
Qed.

Lemma np_int_ceiling (p : Q) : (p <= 0)%Q → np_int p = Qceiling p.
Proof.
  intros Hp. destruct p as [n d]. unfold np_int, Qceiling, Qfloor. simpl.
  unfold Qle in Hp. simpl in Hp.
  rewrite <- (Z.opp_involutive n) at 1. rewrite Z.quot_opp_l by lia.
  f_equal. apply Z.quot_div_nonneg; lia.
Qed.

Lemma np_int_integer_part (p : Q) : integer_part p (np_int p).
Proof.
  unfold integer_part.
  destruct (Qlt_le_dec p 0) as [Hneg|Hpos].
  - rewrite np_int_ceiling by lra.
    pose proof (Qle_ceiling p) as Hle. pose proof (Qceiling_lt p) as Hlt.
    assert (Hsub : (inject_Z (Qceiling p - 1) == inject_Z (Qceiling p) - 1)%Q)
      by (unfold Qeq; simpl; lia).
    rewrite Hsub in Hlt.
    assert (Hc : (inject_Z (Qceiling p) <= 0)%Q).
    { change 0%Q with (inject_Z 0). rewrite <- Zle_Qle.
      destruct (Z_le_gt_dec (Qceiling p) 0) as [?|Hgt]; [assumption|].
      exfalso. assert (H1 : (1 <= inject_Z (Qceiling p))%Q).
      { change 1%Q with (inject_Z 1). rewrite <- Zle_Qle. lia. }
      lra. }
    split.
    + rewrite Qabs_neg by lra. lra.
    + rewrite (Qabs_neg p) by lra. rewrite Qabs_neg by lra. lra.
  - rewrite np_int_floor by exact Hpos.
    destruct (Qfloor_bounds p) as [Hlo Hhi].
    assert (Hf : (0 <= inject_Z (Qfloor p))%Q).
    { change 0%Q with (inject_Z 0). rewrite <- Zle_Qle.
      destruct (Z_le_gt_dec 0 (Qfloor p)) as [?|Hgt]; [assumption|].
      exfalso. assert (H1 : (inject_Z (Qfloor p) + 1 <= 0)%Q).
      { change 1%Q with (inject_Z 1). rewrite <- inject_Z_plus.
        change 0%Q with (inject_Z 0). rewrite <- Zle_Qle. lia. }
      lra. }
    split.
    + rewrite Qabs_pos by lra. lra.
    + rewrite (Qabs_pos p) by lra. rewrite Qabs_pos by lra. lra.
Qed.

(** X22: [get_projection_tracts_to_target] raises [ValueError] when [p0]
    is [None] or no sequence, and when the search answers with a message;
    otherwise it returns the experiments that the search finds for the seed
    made of the integer parts, towards zero, of the coordinates. *)
Theorem get_projection_tracts_to_target_seed (p0 : seed_arg) :
  (p0 = SeedNone ∨ p0 = SeedOther →
     get_projection_tracts_to_target p0 = Raise ValueError)
  ∧ (∀ p, p0 = SeedPoint p →
       ∃ seed,
         Forall2 integer_part p seed
         ∧ match experiment_spatial_search seed with
           | ResponseMessage _ => get_projection_tracts_to_target p0 = Raise ValueError
           | ResponseData tract => get_projection_tracts_to_target p0 = Ok tract
           end).
Proof.
  split.
  - intros [-> | ->]; reflexivity.
  - intros p ->. exists (np_int <$> p). split.
    + apply Forall2_fmap_r, Forall_Forall2_diag, Forall_forall.
      intros c _. apply np_int_integer_part.
    + unfold get_projection_tracts_to_target.
      destruct (experiment_spatial_search (np_int <$> p)); reflexivity.
Qed.

End SitesAndSearch.


Lemma get_projection_tracts_to_target_seed_witness :
  ∃ seed,
    Forall2 integer_part [5 # 2; -(7 # 2); 4]%Q seed
    ∧ match @experiment_spatial_search MeshExamples.mesh_imports seed with
      | ResponseMessage _ =>
          @get_projection_tracts_to_target MeshExamples.mesh_imports
            (SeedPoint [5 # 2; -(7 # 2); 4]%Q) = Raise ValueError
      | ResponseData tract =>
          @get_projection_tracts_to_target MeshExamples.mesh_imports
            (SeedPoint [5 # 2; -(7 # 2); 4]%Q) = Ok tract
      end.
Proof.
  apply (proj2 (@get_projection_tracts_to_target_seed MeshExamples.mesh_imports
                  (SeedPoint [5 # 2; -(7 # 2); 4]%Q))).
  reflexivity.
Defined.

(** ** Meshes of brain regions *)

Lemma for_enumerate_inv {A St} (f : St → nat → A → result St) (Inv : St → Prop)
    (l : list A) :
  (∀ s i x s', x ∈ l → Inv s → f s i x = Ok s' → Inv s') →
  ∀ i s s', Inv s → for_enumerate f i l s = Ok s' → Inv s'.
Proof.
  induction l as [|x l IH]; intros Hstep i s s' Hs; simpl.
  - intros [= <-]. exact Hs.
  - destruct (f s i x) as [s1|e] eqn:Hx; simpl; [|discriminate].
    apply IH.
    + intros s2 j y s3 Hy. apply Hstep. right. exact Hy.
    + eapply Hstep; [left|exact Hs|exact Hx].
Qed.

Lemma for_enumerate_raises {A St} (f : St → nat → A → result St) (l : list A)
    (x : A) :
  x ∈ l →
  (∀ s i, raises (f s i x)) →
  ∀ i s, raises (for_enumerate f i l s).
Proof.
  intros Hin Hx. induction l as [|y l IH]; intros i s; [inversion Hin|].
  simpl. destruct (f s i y) as [s1|e] eqn:Hy; simpl; [|apply raises_Raise].
  apply elem_of_cons in Hin as [->|Hin].
  - destruct (Hx s i) as [e He]. congruence.
  - apply IH. exact Hin.
Qed.

Lemma for_enumerate_skip {A St} (f : St → nat → A → result St) (l : list A)
    (s : St) :
  (∀ i x, x ∈ l → f s i x = Ok s) →
  ∀ i, for_enumerate f i l s = Ok s.
Proof.
  induction l as [|x l IH]; intros Hskip i; [reflexivity|].
  simpl. rewrite Hskip by left. rewrite bind_Ok. apply IH.
  intros j y Hy. apply Hskip. right. exact Hy.
Qed.

Section MeshesProperties.
Context `{Imports} `{MeshImports}.
Context (edit_actor : rendered → rendered).

Lemma check_obj_file_files (self : ABA) (region : region_ref) (obj_file : string)
    (files files' : gset string) (ok : bool) :
  _check_obj_file self region obj_file files = Ok (ok, files') →
  files ⊆ files' ∧ (ok = true → obj_file ∈ files').
Proof.
  unfold _check_obj_file.
  destruct (bool_decide (obj_file ∈ files)) eqn:Hin; simpl.
  - intros [= <- <-]. apply bool_decide_eq_true in Hin. split; [set_solver|auto].
  - destruct (get_structures_by_acronym self _) as [s|e]; [|discriminate].
    destruct (download_structure_mesh (id s) obj_file); intros [= <- <-].
    + split; [set_solver|intros _; set_solver].
    + split; [set_solver|discriminate].
Qed.

Lemma check_obj_file_cached (self : ABA) (region : region_ref) (obj_file : string)
    (files : gset string) :
  obj_file ∈ files →
  _check_obj_file self region obj_file files = Ok (true, files).
Proof.
  intros Hin. unfold _check_obj_file.
  rewrite bool_decide_true by exact Hin. reflexivity.
Qed.

Lemma get_region_unilateral_files (self : ABA) (region hemisphere : string)
    (color : pyval) (alpha : Q) (files files' : gset string)
    (obj : option rendered) :
  get_region_unilateral self region hemisphere color alpha files = Ok (obj, files') →
  files ⊆ files'.
Proof.
  unfold get_region_unilateral, _get_structure_mesh.
  destruct (get_structures_by_acronym self region) as [s|e]; simpl; [|discriminate].
  destruct (_check_obj_file self _ _ files) as [[ok files1]|e] eqn:Hc; simpl;
    [|discriminate].
  apply check_obj_file_files in Hc as [Hsub _].
  destruct ok; simpl.
  - destruct (load_mesh_from_file _ _ _) as [m|e]; simpl; [|discriminate].
    destruct (split_hemispheres m) as [[l r]|e]; simpl; [|discriminate].
    destruct (String.eqb hemisphere "both"); [intros [= <- <-]; exact Hsub|].
    destruct (String.eqb hemisphere "left"); intros [= <- <-]; exact Hsub.
  - intros [= <- <-]. exact Hsub.
Qed.

Lemma region_step_inv (self : ABA) (acronyms VIP_regions : list string)
    (VIP_color colors : pyval) (uoc : bool) (_alpha : Q) (hemisphere : option string)
    (regions : list pyval) (files : gset string)
    (st st' : gset string * gmap string rendered) (i : nat) (region : pyval) :
  region ∈ regions →
  rendered_inv acronyms regions files st →
  region_step edit_actor self acronyms VIP_regions VIP_color colors uoc _alpha
    hemisphere st i region = Ok st' →
  rendered_inv acronyms regions files st'.
Proof.
  intros Hin Hinv. destruct st as [fs actors]. unfold region_step.
  destruct (_check_valid_region_arg region); simpl; [|discriminate].
  destruct region as [| | | |r| | | | | |]; try (intros [= <-]; exact Hinv).
  destruct (bool_decide (r ∈ ABA_ignore_regions)) eqn:Hign;
    [intros [= <-]; exact Hinv|].
  destruct (bool_decide (r ∈ acronyms)) eqn:Hacr; simpl;
    [|intros [= <-]; exact Hinv].
  apply bool_decide_eq_false in Hign. apply bool_decide_eq_true in Hacr.
  destruct (_check_obj_file self _ _ fs) as [[ok fs1]|e] eqn:Hc; simpl; [|discriminate].
  apply check_obj_file_files in Hc as [Hsub1 Hok].
  destruct Hinv as [Hsub Hkeys]. simpl in Hsub, Hkeys.
  assert (Hmono : ∀ fs2, fs1 ⊆ fs2 → ∀ acts,
            (∀ r', is_Some (acts !! r') → is_Some (actors !! r') ∨ r' = r) →
            os_path_join meshes_folder (r +:+ "." +:+ ABA_mesh_format) ∈ fs2 →
            rendered_inv acronyms regions files (fs2, acts)).
  { intros fs2 Hsub2 acts Hacts Hfile. split; simpl.
    { etrans; [exact Hsub|]. etrans; [exact Hsub1|exact Hsub2]. }
    intros r' Hr'. destruct (Hacts r' Hr') as [Hold| ->].
    - destruct (Hkeys r' Hold) as (? & ? & ? & Hf). repeat split; try assumption.
      eapply elem_of_weaken; [|exact Hsub2].
      eapply elem_of_weaken; [exact Hf|exact Hsub1].
    - repeat split; assumption. }
  assert (Hsame : ∀ fs2, fs ⊆ fs2 → rendered_inv acronyms regions files (fs2, actors)).
  { intros fs2 Hsub2. split; simpl; [etrans; [exact Hsub|exact Hsub2]|].
    intros r' Hr'. destruct (Hkeys r' Hr') as (? & ? & ? & Hf).
    repeat split; try assumption.
    eapply elem_of_weaken; [exact Hf|exact Hsub2]. }
  destruct ok; simpl; [|intros [= <-]; apply Hsame; exact Hsub1].
  specialize (Hok eq_refl).
  destruct (region_color self uoc VIP_regions VIP_color colors i r) as [color|e];
    simpl; [|discriminate].
  destruct hemisphere as [h|].
  - destruct (String.eqb (lower h) "left" || String.eqb (lower h) "right");
      [|discriminate].
    destruct (get_region_unilateral self r h color _ fs1) as [[obj fs2]|e] eqn:Hu;
      simpl; [|discriminate].
    apply get_region_unilateral_files in Hu.
    destruct obj as [obj|]; intros [= <-].
    + apply Hmono; [exact Hu| |eapply elem_of_weaken; [exact Hok|exact Hu]].
      intros r' Hr'. destruct (decide (r = r')) as [->|Hne]; [right; reflexivity|].
      left. rewrite lookup_insert_ne in Hr' by exact Hne. exact Hr'.
    + apply Hsame. etrans; [exact Hsub1|exact Hu].
  - simpl. destruct (load _ color _) as [m|]; simpl; intros [= <-].
    + apply Hmono; [reflexivity| |exact Hok].
      intros r' Hr'. destruct (decide (r = r')) as [->|Hne]; [right; reflexivity|].
      left. rewrite lookup_insert_ne in Hr' by exact Hne. exact Hr'.
    + apply Hsame. exact Hsub1.
Qed.

(** X23: the dict that [get_brain_regions] returns has keys only for
    regions that were asked for, that are acronyms of the atlas and that
    are not among the ignored regions ("retina", "brain", "fiber tracts",
    "grey"); the file of the mesh of every such region is on the disk after
    the call, and no file that was there is gone. *)
Theorem get_brain_regions_rendered (self : ABA) (acronyms : list string)
    (brain_regions : pyval) (VIP_regions : option (list string))
    (VIP_color colors : pyval) (uoc : bool) (alpha : option Q)
    (hemisphere : option string) (files files' : gset string)
    (actors : gmap string rendered) :
  region_acronyms self = Some acronyms →
  get_brain_regions edit_actor self brain_regions VIP_regions VIP_color colors uoc
    alpha hemisphere files = Ok (Some actors, files') →
  files ⊆ files'
  ∧ ∀ r, is_Some (actors !! r) →
      PStr r ∈ as_region_list brain_regions
      ∧ r ∈ acronyms
      ∧ (r ∉ ABA_ignore_regions)
      ∧ os_path_join meshes_folder (r +:+ "." +:+ ABA_mesh_format) ∈ files'.
Proof.
  intros Hacr. unfold get_brain_regions.
  destruct (get_brain_regions_args self brain_regions colors) as [args|e] eqn:Hargs;
    simpl; [|discriminate].
  destruct args as [|regions colors']; [discriminate|].
  assert (Hregions : regions = as_region_list brain_regions).
  { unfold get_brain_regions_args in Hargs. rewrite Hacr in Hargs.
    match type of Hargs with
    | (?m ≫= _) = _ => destruct m; simpl in Hargs; [|discriminate]
    end.
    injection Hargs as <- _. reflexivity. }
  destruct (for_enumerate _ 0%nat regions (files, ∅)) as [[fs acts]|e] eqn:Hloop;
    simpl; [|discriminate].
  intros [= <- <-]. rewrite Hacr in Hloop. simpl in Hloop.
  rewrite <- Hregions.
  apply (for_enumerate_inv _ (rendered_inv acronyms regions files)) in Hloop.
  - exact Hloop.
  - intros s i x s' Hx Hs Hstep. eapply region_step_inv; eassumption.
  - split; simpl; [set_solver|]. intros r Hr. rewrite lookup_empty in Hr.
    destruct Hr as [? Hr]. discriminate.
Qed.

End MeshesProperties.

Section MeshesProperties2.
Context `{Imports} `{MeshImports}.
Context (edit_actor : rendered → rendered).

Lemma get_brain_regions_args_loop (self : ABA) (acronyms : list string)
    (brain_regions colors : pyval) (args : brain_regions_args) :
  region_acronyms self = Some acronyms →
  get_brain_regions_args self brain_regions colors = Ok args →
  ∃ colors', args = RegionsLoop (as_region_list brain_regions) colors'.
Proof.
  intros Hacr Hargs. unfold get_brain_regions_args in Hargs. rewrite Hacr in Hargs.
  match type of Hargs with
  | (?m ≫= _) = _ => destruct m as [c|e]; simpl in Hargs; [|discriminate]
  end.
  injection Hargs as <-. exists c. reflexivity.
Qed.

(** X24: when the atlas has regions data, a region that is neither an
    integer nor a string makes [get_brain_regions] raise, wherever it is
    among the regions and whatever the other arguments are. *)
Theorem get_brain_regions_invalid_region (self : ABA) (acronyms : list string)
    (brain_regions : pyval) (VIP_regions : option (list string))
    (VIP_color colors : pyval) (uoc : bool) (alpha : option Q)
    (hemisphere : option string) (files : gset string) (region : pyval) :
  region_acronyms self = Some acronyms →
  region ∈ as_region_list brain_regions →
  type_of region ∉ [TInt; TBool; TStr] →
  raises (get_brain_regions edit_actor self brain_regions VIP_regions VIP_color
            colors uoc alpha hemisphere files).
Proof.
  intros Hacr Hin Hty. unfold get_brain_regions.
  destruct (get_brain_regions_args self brain_regions colors) as [args|e] eqn:Hargs;
    simpl; [|apply raises_Raise].
  destruct (get_brain_regions_args_loop _ _ _ _ _ Hacr Hargs) as [colors' ->].
  apply raises_bind. apply for_enumerate_raises with (x := region); [exact Hin|].
  intros [fs actors] i. unfold region_step.
  apply raises_bind.
  destruct region; try apply raises_Raise; exfalso; apply Hty; simpl.
  - right. left.
  - left.
  - right. right. left.
Qed.

Lemma region_step_passed_over (self : ABA) (acronyms VIP_regions : list string)
    (VIP_color colors : pyval) (uoc : bool) (_alpha : Q) (hemisphere : option string)
    (st : gset string * gmap string rendered) (i : nat) (region : pyval) :
  passed_over acronyms region →
  region_step edit_actor self acronyms VIP_regions VIP_color colors uoc _alpha
    hemisphere st i region = Ok st.
Proof.
  intros Hp. destruct st as [fs actors]. unfold region_step.
  destruct region as [| | | |r| | | | | |]; simpl in Hp; try contradiction;
    try reflexivity.
  simpl. destruct Hp as [Hign|Hacr].
  - rewrite bool_decide_true by exact Hign. reflexivity.
  - destruct (bool_decide (r ∈ ABA_ignore_regions)); [reflexivity|].
    rewrite bool_decide_false by exact Hacr. reflexivity.
Qed.

(** X25: regions that are integers, that are among the ignored regions
    or that are no acronym of the atlas are passed over.  When all the
    regions are such and the check of [colors] passes,
    [get_brain_regions] returns an empty dict and leaves the files as
    they are, whatever [hemisphere] is. *)
Theorem get_brain_regions_passed_over (self : ABA) (acronyms : list string)
    (brain_regions : pyval) (VIP_regions : option (list string))
    (VIP_color colors : pyval) (uoc : bool) (alpha : option Q)
    (hemisphere : option string) (files : gset string) :
  region_acronyms self = Some acronyms →
  ¬ raises (get_brain_regions_args self brain_regions colors) →
  Forall (passed_over acronyms) (as_region_list brain_regions) →
  get_brain_regions edit_actor self brain_regions VIP_regions VIP_color colors uoc
    alpha hemisphere files = Ok (Some ∅, files).
Proof.
  intros Hacr Hargs Hall. unfold get_brain_regions.
  destruct (get_brain_regions_args self brain_regions colors) as [args|e] eqn:Ha;
    [|exfalso; apply Hargs, raises_Raise].
  destruct (get_brain_regions_args_loop _ _ _ _ _ Hacr Ha) as [colors' ->].
  simpl. rewrite Hacr. simpl.
  rewrite for_enumerate_skip; [reflexivity|].
  intros i x Hx. apply region_step_passed_over.
  rewrite Forall_forall in Hall. apply Hall. exact Hx.
Qed.

(** X26: with [use_original_color=True], which is the default, [colors]
    is checked and then not used: two calls that differ only in [colors],
    and whose checks of [colors] both pass, give the same result. *)
Theorem get_brain_regions_original_color (self : ABA) (acronyms : list string)
    (brain_regions : pyval) (VIP_regions : option (list string))
    (VIP_color colors1 colors2 : pyval) (alpha : option Q)
    (hemisphere : option string) (files : gset string) :
  region_acronyms self = Some acronyms →
  ¬ raises (get_brain_regions_args self brain_regions colors1) →
  ¬ raises (get_brain_regions_args self brain_regions colors2) →
  get_brain_regions edit_actor self brain_regions VIP_regions VIP_color colors1 true
    alpha hemisphere files
  = get_brain_regions edit_actor self brain_regions VIP_regions VIP_color colors2 true
      alpha hemisphere files.
Proof.
  intros Hacr H1 H2. unfold get_brain_regions.
  destruct (get_brain_regions_args self brain_regions colors1) as [a1|e] eqn:Ha1;
    [|exfalso; apply H1, raises_Raise].
  destruct (get_brain_regions_args self brain_regions colors2) as [a2|e] eqn:Ha2;
    [|exfalso; apply H2, raises_Raise].
  destruct (get_brain_regions_args_loop _ _ _ _ _ Hacr Ha1) as [c1 ->].
  destruct (get_brain_regions_args_loop _ _ _ _ _ Hacr Ha2) as [c2 ->].
  reflexivity.
Qed.

End MeshesProperties2.

Section MeshesProperties3.
Context `{Imports} `{MeshImports}.
Context (edit_actor : rendered → rendered).

(** X27: the hemisphere of [get_brain_regions].  For one region of the
    atlas whose mesh file is on the disk and can be loaded and split,
    with the original colour: the mesh kept is the left one only when
    [hemisphere] is exactly "left"; for every other spelling that is
    "left" or "right" in lower case (such as "Left") it is the right one;
    any other value, "both" too, raises ValueError. *)
Theorem get_brain_regions_hemisphere (self : ABA) (acronyms : list string)
    (r : string) (s : structure) (VIP_regions : option (list string))
    (VIP_color colors : pyval) (alpha : option Q) (h : string)
    (files : gset string) (m left' right' : mesh) :
  region_acronyms self = Some acronyms →
  r ∈ acronyms →
  r ∉ ABA_ignore_regions →
  get_structures_by_acronym self r = Ok s →
  obj_file_of r ∈ files →
  ¬ raises (get_brain_regions_args self (PStr r) colors) →
  load_mesh_from_file (obj_file_of r)
    (PList ((λ x, PFloat (inject_Z x / 255)) <$> rgb_triplet s))
    (if bool_decide (r ∈ default DEFAULT_VIP_REGIONS VIP_regions) then 1%Q
     else default DEFAULT_STRUCTURE_ALPHA alpha) = Ok m →
  split_hemispheres m = Ok (left', right') →
  get_brain_regions edit_actor self (PStr r) VIP_regions VIP_color colors true alpha
    (Some h) files
  = if decide (h = "left")
    then Ok (Some {[r := edit_actor (Single left')]}, files)
    else if decide (lower h = "left" ∨ lower h = "right")
    then Ok (Some {[r := edit_actor (Single right')]}, files)
    else Raise ValueError.
Proof.
  intros Hacr Hr Hign Hs Hfile Hargs Hload Hsplit. unfold get_brain_regions.
  destruct (get_brain_regions_args self (PStr r) colors) as [args|e] eqn:Ha;
    [|exfalso; apply Hargs, raises_Raise].
  destruct (get_brain_regions_args_loop _ _ _ _ _ Hacr Ha) as [colors' ->].
  simpl. rewrite Hacr. simpl.
  rewrite (bool_decide_false _ Hign), (bool_decide_true _ Hr). simpl.
  fold (obj_file_of r).
  rewrite (check_obj_file_cached _ _ _ _ Hfile). simpl.
  unfold get_region_color. rewrite Hs. simpl.
  destruct (decide (h = "left")) as [->|Hleft].
  - simpl. unfold get_region_unilateral, _get_structure_mesh. rewrite Hs. simpl.
    change (os_path_join meshes_folder (r +:+ ".obj")) with (obj_file_of r).
    rewrite (check_obj_file_cached _ _ _ _ Hfile). simpl.
    rewrite Hload. simpl. rewrite Hsplit. simpl.
    rewrite insert_empty. reflexivity.
  - destruct (decide (lower h = "left" ∨ lower h = "right")) as [Hlow|Hlow].
    + assert (Hb : String.eqb (lower h) "left" || String.eqb (lower h) "right" = true).
      { destruct Hlow as [-> | ->]; reflexivity. }
      rewrite Hb.
      unfold get_region_unilateral, _get_structure_mesh. rewrite Hs. simpl.
      change (os_path_join meshes_folder (r +:+ ".obj")) with (obj_file_of r).
      rewrite (check_obj_file_cached _ _ _ _ Hfile). simpl.
      rewrite Hload. simpl. rewrite Hsplit. simpl.
      assert (Hboth : String.eqb h "both" = false).
      { apply String.eqb_neq. intros ->. destruct Hlow; discriminate. }
      assert (Hl : String.eqb h "left" = false) by (apply String.eqb_neq; exact Hleft).
      rewrite Hboth, Hl. simpl. rewrite insert_empty. reflexivity.
    + assert (Hb : String.eqb (lower h) "left" || String.eqb (lower h) "right" = false).
      { apply orb_false_iff. split; apply String.eqb_neq; intros Heq; apply Hlow;
          [left|right]; exact Heq. }
      rewrite Hb. reflexivity.
Qed.

Lemma region_step_cached (self : ABA) (acronyms VIP_regions : list string)
    (VIP_color : pyval) (cs : list pyval) (_alpha : Q) (files : gset string)
    (actors : gmap string rendered) (i : nat) (r : string) (c : pyval) :
  r ∈ acronyms →
  r ∉ ABA_ignore_regions →
  obj_file_of r ∈ files →
  cs !! i = Some c →
  region_step edit_actor self acronyms VIP_regions VIP_color (PList cs) false _alpha
    None (files, actors) i (PStr r)
  = Ok (files,
        match (if bool_decide (r ∈ VIP_regions)
               then load (obj_file_of r) VIP_color 1
               else load (obj_file_of r) c _alpha) with
        | Some m => <[r := edit_actor (Single m)]> actors
        | None => actors
        end).
Proof.
  intros Hr Hign Hfile Hc. unfold region_step. simpl.
  rewrite (bool_decide_false _ Hign), (bool_decide_true _ Hr). simpl.
  fold (obj_file_of r).
  rewrite (check_obj_file_cached _ _ _ _ Hfile). simpl.
  unfold region_color.
  destruct (bool_decide (r ∈ VIP_regions)); simpl.
  - destruct (load (obj_file_of r) VIP_color 1); reflexivity.
  - rewrite (getitem_Some _ _ _ Hc). simpl.
    destruct (load (obj_file_of r) c _alpha); reflexivity.
Qed.

Lemma region_loop_colors (self : ABA) (acronyms VIP_regions : list string)
    (VIP_color : pyval) (cs : list pyval) (_alpha : Q) (files : gset string)
    (rs : list string) :
  NoDup rs →
  (∀ r, r ∈ rs → r ∈ acronyms → r ∉ ABA_ignore_regions → obj_file_of r ∈ files) →
  ∀ (i : nat) (actors : gmap string rendered),
  (∀ j r, rs !! j = Some r → is_Some (cs !! (i + j)%nat)) →
  (∀ r, r ∈ rs → actors !! r = None) →
  ∃ actors',
    for_enumerate
      (region_step edit_actor self acronyms VIP_regions VIP_color (PList cs) false
         _alpha None) i (PStr <$> rs) (files, actors) = Ok (files, actors')
    ∧ (∀ r, r ∉ rs → actors' !! r = actors !! r)
    ∧ ∀ j r c, rs !! j = Some r → cs !! (i + j)%nat = Some c →
        r ∈ acronyms → r ∉ ABA_ignore_regions →
        actors' !! r
        = edit_actor ∘ Single
          <$> (if bool_decide (r ∈ VIP_regions)
               then load (obj_file_of r) VIP_color 1
               else load (obj_file_of r) c _alpha).
Proof.
  intros Hnd. induction Hnd as [|r0 rs Hnotin Hnd IH]; intros Hfiles i actors Hcs Hnone.
  - exists actors. split; [reflexivity|]. split; [reflexivity|].
    intros j r c Hj. discriminate.
  - rewrite fmap_cons. cbn [for_enumerate].
    destruct (Hcs 0%nat r0 eq_refl) as [c0 Hc0]. rewrite Nat.add_0_r in Hc0.
    assert (Hstep : ∃ actors1,
      region_step edit_actor self acronyms VIP_regions VIP_color (PList cs) false
        _alpha None (files, actors) i (PStr r0) = Ok (files, actors1)
      ∧ (∀ r, r ≠ r0 → actors1 !! r = actors !! r)
      ∧ (r0 ∈ acronyms → r0 ∉ ABA_ignore_regions →
         actors1 !! r0
         = edit_actor ∘ Single
           <$> (if bool_decide (r0 ∈ VIP_regions)
                then load (obj_file_of r0) VIP_color 1
                else load (obj_file_of r0) c0 _alpha))).
    { destruct (decide (r0 ∈ ABA_ignore_regions ∨ r0 ∉ acronyms)) as [Hp|Hp].
      - exists actors. split; [|split].
        + apply region_step_passed_over. exact Hp.
        + reflexivity.
        + intros Ha Hi. exfalso. destruct Hp; contradiction.
      - assert (Hi : r0 ∉ ABA_ignore_regions) by (intros Hi; apply Hp; left; exact Hi).
        assert (Ha : r0 ∈ acronyms).
        { destruct (decide (r0 ∈ acronyms)) as [Ha|Ha]; [exact Ha|].
          exfalso. apply Hp. right. exact Ha. }
        assert (Hf : obj_file_of r0 ∈ files) by (apply Hfiles; [left|exact Ha|exact Hi]).
        rewrite (region_step_cached _ _ _ _ _ _ _ _ _ _ c0 Ha Hi Hf Hc0).
        eexists. split; [reflexivity|]. split.
        + intros r Hne.
          destruct (if bool_decide (r0 ∈ VIP_regions) then _ else _); [|reflexivity].
          apply lookup_insert_ne. congruence.
        + intros _ _.
          destruct (if bool_decide (r0 ∈ VIP_regions) then _ else _); simpl.
          * apply lookup_insert_eq.
          * apply Hnone. left. }
    destruct Hstep as (actors1 & -> & Hother & Hr0). rewrite bind_Ok.
    destruct (IH (λ r Hr, Hfiles r (proj2 (elem_of_cons rs r r0) (or_intror Hr))) (S i) actors1)
      as (actors' & Hloop & Hrest & Hcol).
    { intros j r Hj. replace (S i + j)%nat with (i + S j)%nat by lia.
      apply (Hcs (S j) r). exact Hj. }
    { intros r Hr. rewrite Hother by (intros ->; contradiction).
      apply Hnone. right. exact Hr. }
    exists actors'. split; [exact Hloop|]. split.
    + intros r Hr. rewrite Hrest by (intros Hin; apply Hr; right; exact Hin).
      apply Hother. intros ->. apply Hr. left.
    + intros [|j] r c Hj Hc Ha Hi.
      * injection Hj as <-. rewrite Nat.add_0_r in Hc.
        rewrite Hrest by exact Hnotin. rewrite Hr0 by assumption.
        replace c with c0 by congruence. reflexivity.
      * apply (Hcol j r c); [exact Hj| |exact Ha|exact Hi].
        replace (S i + j)%nat with (i + S j)%nat by lia. exact Hc.
Qed.


End MeshesProperties3.

Lemma get_brain_regions_rendered_witness :
  ({["meshes/MOs.obj"]} : gset string) ⊆ {["meshes/TH.obj"]} ∪ {["meshes/MOs.obj"]}
  ∧ ∀ r,
      is_Some
        (({["TH" := @Single MeshExamples.mesh_imports (MeshExamples.Loaded "meshes/TH.obj" (PStr "grey") (1 # 2))]}
          : gmap string (@rendered MeshExamples.mesh_imports)) !! r) →
      PStr r ∈ as_region_list (PList [PStr "TH"; PStr "grey"; PInt 5])
      ∧ r ∈ ["MOs"; "TH"]
      ∧ (r ∉ ABA_ignore_regions)
      ∧ @os_path_join MeshExamples.mesh_imports
          (@meshes_folder MeshExamples.mesh_imports) (r +:+ "." +:+ ABA_mesh_format)
        ∈ ({["meshes/TH.obj"]} ∪ {["meshes/MOs.obj"]} : gset string).
Proof.
  apply (@get_brain_regions_rendered Examples.imports MeshExamples.mesh_imports
           MeshExamples.edit_actor Examples.atlas ["MOs"; "TH"]
           (PList [PStr "TH"; PStr "grey"; PInt 5]) None PNone PNone false None None).
  - reflexivity.
  - vm_compute. reflexivity.
Defined.

Lemma get_brain_regions_invalid_region_witness :
  raises (@get_brain_regions Examples.imports MeshExamples.mesh_imports
            MeshExamples.edit_actor Examples.atlas
            (PList [PStr "TH"; PFloat (3 # 2)]) None PNone PNone true None None ∅).
Proof.
  apply (@get_brain_regions_invalid_region Examples.imports MeshExamples.mesh_imports
           MeshExamples.edit_actor Examples.atlas ["MOs"; "TH"]
           (PList [PStr "TH"; PFloat (3 # 2)]) None PNone PNone true None None ∅
           (PFloat (3 # 2))).
  - reflexivity.
  - right. left.
  - simpl. intros Hin.
    repeat (apply elem_of_cons in Hin as [Hin|Hin]; [discriminate|]). inversion Hin.
Defined.

Lemma get_brain_regions_passed_over_witness :
  @get_brain_regions Examples.imports MeshExamples.mesh_imports
    MeshExamples.edit_actor Examples.atlas
    (PList [PStr "grey"; PInt 5; PStr "XYZ"]) None PNone PNone true None
    (Some "nowhere") {["meshes/MOs.obj"]}
  = Ok (Some ∅, {["meshes/MOs.obj"]}).
Proof.
  apply (@get_brain_regions_passed_over Examples.imports MeshExamples.mesh_imports
           MeshExamples.edit_actor Examples.atlas ["MOs"; "TH"]).
  - reflexivity.
  - intros [e He]. discriminate He.
  - simpl. constructor; [|constructor; [|constructor; [|constructor]]].
    + left. unfold ABA_ignore_regions. do 3 right. left.
    + exact I.
    + right. intros Hin.
      repeat (apply elem_of_cons in Hin as [Hin|Hin]; [discriminate|]). inversion Hin.
Defined.

Lemma get_brain_regions_original_color_witness :
  @get_brain_regions Examples.imports MeshExamples.mesh_imports
    MeshExamples.edit_actor Examples.atlas
    (PList [PStr "TH"; PStr "MOs"]) None PNone PNone true None None ∅
  = @get_brain_regions Examples.imports MeshExamples.mesh_imports
      MeshExamples.edit_actor Examples.atlas
      (PList [PStr "TH"; PStr "MOs"]) None PNone (PStr "red") true None None ∅.
Proof.
  apply (@get_brain_regions_original_color Examples.imports MeshExamples.mesh_imports
           MeshExamples.edit_actor Examples.atlas ["MOs"; "TH"]).
  - reflexivity.
  - intros [e He]. discriminate He.
  - intros [e He]. discriminate He.
Defined.

Lemma get_brain_regions_hemisphere_witness :
  @get_brain_regions Examples.imports MeshExamples.mesh_imports
    MeshExamples.edit_actor Examples.atlas (PStr "TH") None PNone PNone true None
    (Some "Left") {["meshes/TH.obj"]}
  = Ok (Some {["TH" :=
                 @Single MeshExamples.mesh_imports (MeshExamples.RightOf
                           (MeshExamples.Loaded "meshes/TH.obj"
                              (PList ((λ x, PFloat (inject_Z x / 255))
                                      <$> [255; 112; 128]))
                              (1 # 2)))]},
        {["meshes/TH.obj"]}).
Proof.
  apply (@get_brain_regions_hemisphere Examples.imports MeshExamples.mesh_imports
           MeshExamples.edit_actor Examples.atlas ["MOs"; "TH"] "TH" Examples.thalamus
           None PNone PNone None "Left" {["meshes/TH.obj"]}
           (MeshExamples.Loaded "meshes/TH.obj"
              (PList ((λ x, PFloat (inject_Z x / 255)) <$> [255; 112; 128])) (1 # 2))
           (MeshExamples.LeftOf
              (MeshExamples.Loaded "meshes/TH.obj"
                 (PList ((λ x, PFloat (inject_Z x / 255)) <$> [255; 112; 128])) (1 # 2)))).
  - reflexivity.
  - right. left.
  - intros Hin.
    repeat (apply elem_of_cons in Hin as [Hin|Hin]; [discriminate|]). inversion Hin.
  - reflexivity.
  - apply elem_of_singleton. reflexivity.
  - intros [e He]. discriminate He.
  - reflexivity.
  - reflexivity.
Defined.

